(** * Pitch-change server: the derived-artifact pipeline of [server.py]

    A shallow embedding of the identity codec, the artifact producers, the
    range responder and the request handlers of [server.py], with the
    properties stated about them.

    Conventions.
    - A Python [str] is the list of its code points ([list N]); a [bytes]
      value is the list of its octets ([list N], each below 256).
    - A [pathlib.Path] is the text [str()] gives for it; the file system
      is a finite map from that text to the octets stored there, and
      [exists()] is the lookup in it.  Directories are not in the model:
      a path at which the machine has a directory, or at which the lookup
      itself fails, is not among the cases.
    - External programs (ffmpeg, sox, ffprobe) and the parts of Flask and
      of the Python library whose result depends on the machine are the
      fields of one class, [Env]: a program is an argument vector and a
      file system in, exit status, captured output and a file system out.
    - A handler is a function from the world (the files and the record of
      what was done so far) to an outcome and a world. *)

From Stdlib Require Import ZArith NArith List String Ascii Lia ZifyNat Bool.
From stdpp Require Import base option list gmap.

Local Open Scope N_scope.

Ltac Zify.zify_post_hook ::= Z.to_euclidean_division_equations.

(** ** Python strings and integers *)

Module Str.

(** A string literal of the source, as code points. *)
Fixpoint lit (s : string) : list N :=
  match s with
  | EmptyString => []
  | String a r => N_of_ascii a :: lit r
  end.

(** [s.partition(sep)] for a one-character separator: the text before
    the first occurrence, the separator, and the text after; when there
    is none, [(s, "", "")]. *)
Fixpoint partition (sep : N) (s : list N) : list N * list N * list N :=
  match s with
  | [] => ([], [], [])
  | c :: r =>
      if c =? sep then ([], [sep], r)
      else match partition sep r with
           | (before, [], _) => (c :: before, [], [])
           | (before, found, rest) => (c :: before, found, rest)
           end
  end.

(** [s.rstrip(ch)] for a one-character set. *)
Fixpoint rstrip (ch : N) (s : list N) : list N :=
  match s with
  | [] => []
  | c :: r =>
      match rstrip ch r with
      | [] => if c =? ch then [] else [c]
      | r' => c :: r'
      end
  end.

(** The characters [int()] skips around a number: the ASCII blanks, and
    the non-ASCII characters Python classes as spaces. *)
Definition is_space (c : N) : bool :=
  ((9 <=? c) && (c <=? 13)) || (c =? 32) || (c =? 0x85) || (c =? 0xA0)
  || (c =? 0x1680) || ((0x2000 <=? c) && (c <=? 0x200A))
  || (c =? 0x2028) || (c =? 0x2029) || (c =? 0x202F) || (c =? 0x205F)
  || (c =? 0x3000).

(** The characters [str.strip()] removes: those above and the four
    ASCII separators U+001C to U+001F. *)
Definition is_blank (c : N) : bool :=
  is_space c || ((0x1C <=? c) && (c <=? 0x1F)).

Definition is_digit (c : N) : bool := (48 <=? c) && (c <=? 57).

(** [str.lower] on the letters A to Z.  Outside ASCII no character
    lowercases to one of the characters the tests of the server and of
    the framework compare with ([.], [m], [p], [4] and the letters of
    [bytes]), so those tests agree with the ones on Python's [lower]. *)
Definition ascii_lower (c : N) : N :=
  if (65 <=? c) && (c <=? 90) then c + 32 else c.

Fixpoint lstrip_space (s : list N) : list N :=
  match s with
  | c :: r => if is_space c then lstrip_space r else s
  | [] => []
  end.

Definition strip_space (s : list N) : list N :=
  rev (lstrip_space (rev (lstrip_space s))).

(** [s.strip()]. *)
Fixpoint lstrip (s : list N) : list N :=
  match s with
  | c :: r => if is_blank c then lstrip r else s
  | [] => []
  end.

Definition strip (s : list N) : list N := rev (lstrip (rev (lstrip s))).

(** One more ASCII digit appended to a number read so far. *)
Definition digit_step (a d : N) : N := 10 * a + (d - 48).

(** The digit zero of every script outside ASCII whose ten decimal
    digits [int()] reads (general category Nd; the tables of Unicode
    14.0, which CPython 3.11 carries): the digits of a script are the ten
    code points from its zero on. *)
Definition decimal_zeros : list N :=
  [0x660; 0x6F0; 0x7C0; 0x966; 0x9E6; 0xA66; 0xAE6; 0xB66; 0xBE6; 0xC66;
   0xCE6; 0xD66; 0xDE6; 0xE50; 0xED0; 0xF20; 0x1040; 0x1090; 0x17E0;
   0x1810; 0x1946; 0x19D0; 0x1A80; 0x1A90; 0x1B50; 0x1BB0; 0x1C40; 0x1C50;
   0xA620; 0xA8D0; 0xA900; 0xA9D0; 0xA9F0; 0xAA50; 0xABF0; 0xFF10;
   0x104A0; 0x10D30; 0x11066; 0x110F0; 0x11136; 0x111D0; 0x112F0;
   0x11450; 0x114D0; 0x11650; 0x116C0; 0x11730; 0x118E0; 0x11950;
   0x11C50; 0x11D50; 0x11DA0; 0x16A60; 0x16AC0; 0x16B50; 0x1D7CE;
   0x1D7D8; 0x1D7E2; 0x1D7EC; 0x1D7F6; 0x1E140; 0x1E2F0; 0x1E950;
   0x1FBF0].

(** The value of a character as a decimal digit, in any script. *)
Definition decimal (c : N) : option N :=
  if is_digit c then Some (c - 48)
  else if c <? 128 then None
  else (fun z => c - z)
         <$> List.find (fun z => (z <=? c) && (c <? z + 10)) decimal_zeros.

(** The digits of a base-10 literal: at least one digit, single
    underscores allowed between digits only.  [after_digit] tells
    whether the previous character was a digit. *)
Fixpoint digits_value (s : list N) (acc : N) (after_digit : bool) : option N :=
  match s with
  | [] => if after_digit then Some acc else None
  | c :: r =>
      match decimal c with
      | Some d => digits_value r (10 * acc + d) true
      | None =>
          if (c =? 95) && after_digit then
            match r with
            | d :: _ =>
                if bool_decide (is_Some (decimal d))
                then digits_value r acc false else None
            | [] => None
            end
          else None
      end
  end.

(** [int(s)] on a string, base 10; [None] stands for [ValueError].  The
    blanks around the number and the digits of every script count, as
    they do for [int]. *)
Definition py_int (s : list N) : option Z :=
  match strip_space s with
  | [] => None
  | c :: r =>
      if c =? 43 then Z.of_N <$> digits_value r 0 false
      else if c =? 45 then (fun n => (- Z.of_N n)%Z) <$> digits_value r 0 false
      else Z.of_N <$> digits_value (c :: r) 0 false
  end.

(** [str(n)] for a natural number: its decimal digits, most significant
    first.  The fuel bounds the number of digits. *)
Fixpoint digits_of (fuel : nat) (n : N) (acc : list N) : list N :=
  match fuel with
  | O => acc
  | S f =>
      let acc' := (48 + n mod 10) :: acc in
      if n <? 10 then acc' else digits_of f (n / 10) acc'
  end.

Definition str_of_N (n : N) : list N :=
  digits_of (S (N.to_nat (N.log2 n))) n [].

(** [str(z)], also what an f-string writes for an integer. *)
Definition str_of_Z (z : Z) : list N :=
  match z with
  | Zneg p => 45 :: str_of_N (Npos p)
  | _ => str_of_N (Z.to_N z)
  end.

End Str.

(** ** UTF-8, as [str.encode("utf-8")] and [bytes.decode("utf-8")] *)

Module Utf8.

(** One code point; [None] is [UnicodeEncodeError] (a surrogate). *)
Definition encode_cp (c : N) : option (list N) :=
  if c <? 0x80 then Some [c]
  else if c <? 0x800 then Some [0xC0 + c / 64; 0x80 + c mod 64]
  else if c <? 0x10000 then
    if (0xD800 <=? c) && (c <=? 0xDFFF) then None
    else Some [0xE0 + c / 4096; 0x80 + (c / 64) mod 64; 0x80 + c mod 64]
  else if c <? 0x110000 then
    Some [0xF0 + c / 262144; 0x80 + (c / 4096) mod 64;
          0x80 + (c / 64) mod 64; 0x80 + c mod 64]
  else None.

Fixpoint encode (s : list N) : option (list N) :=
  match s with
  | [] => Some []
  | c :: r =>
      match encode_cp c, encode r with
      | Some a, Some b => Some (a ++ b)
      | _, _ => None
      end
  end.

Definition between (lo hi b : N) : bool := (lo <=? b) && (b <=? hi).
Definition cont (b : N) : bool := between 0x80 0xBF b.

(** Strict decoding: the well-formed byte sequences of the Unicode
    standard and nothing else; [None] is [UnicodeDecodeError]. *)
Fixpoint decode (bs : list N) : option (list N) :=
  match bs with
  | [] => Some []
  | b0 :: r0 =>
      if b0 <? 0x80 then cons b0 <$> decode r0
      else if b0 <? 0xC2 then None
      else if b0 <? 0xE0 then
        match r0 with
        | b1 :: r1 =>
            if cont b1
            then cons ((b0 - 0xC0) * 64 + (b1 - 0x80)) <$> decode r1
            else None
        | _ => None
        end
      else if b0 <? 0xF0 then
        match r0 with
        | b1 :: b2 :: r2 =>
            if between (if b0 =? 0xE0 then 0xA0 else 0x80)
                       (if b0 =? 0xED then 0x9F else 0xBF) b1 && cont b2
            then cons ((b0 - 0xE0) * 4096 + (b1 - 0x80) * 64 + (b2 - 0x80))
                   <$> decode r2
            else None
        | _ => None
        end
      else if b0 <? 0xF5 then
        match r0 with
        | b1 :: b2 :: b3 :: r3 =>
            if between (if b0 =? 0xF0 then 0x90 else 0x80)
                       (if b0 =? 0xF4 then 0x8F else 0xBF) b1
               && cont b2 && cont b3
            then cons ((b0 - 0xF0) * 262144 + (b1 - 0x80) * 4096
                       + (b2 - 0x80) * 64 + (b3 - 0x80))
                   <$> decode r3
            else None
        | _ => None
        end
      else None
  end.

End Utf8.

Import Str.

(** ** Base64, as the [base64] and [binascii] modules *)

Module Base64.

Definition pad : N := 61.

Definition alphabet : list N :=
  lit "ABCDEFGHIJKLMNOPQRSTUVWXYZabcdefghijklmnopqrstuvwxyz0123456789+/".

(** The character of a six-bit value. *)
Definition b2a (v : N) : N := nth (N.to_nat v) alphabet 0.

(** The six-bit value of a character; [None] for a character outside
    the standard alphabet (the entries of the decoding table that are
    not below 64). *)
Definition a2b (ch : N) : option N :=
  if (65 <=? ch) && (ch <=? 90) then Some (ch - 65)
  else if (97 <=? ch) && (ch <=? 122) then Some (ch - 71)
  else if (48 <=? ch) && (ch <=? 57) then Some (ch + 4)
  else if ch =? 43 then Some 62
  else if ch =? 47 then Some 63
  else None.

(** [base64.b64encode]: three octets make four characters; a last
    group of one or two octets is padded with [=]. *)
Fixpoint b64encode (bs : list N) : list N :=
  match bs with
  | [] => []
  | [a] => [b2a (a / 4); b2a ((a mod 4) * 16); pad; pad]
  | [a; b] =>
      [b2a (a / 4); b2a ((a mod 4) * 16 + b / 16); b2a ((b mod 16) * 4); pad]
  | a :: b :: c :: r =>
      b2a (a / 4) :: b2a ((a mod 4) * 16 + b / 16)
      :: b2a ((b mod 16) * 4 + c / 64) :: b2a (c mod 64) :: b64encode r
  end.

(** The decoding loop of [binascii.a2b_base64] when it is not strict,
    which is how [base64.b64decode] calls it by default.  [quad_pos] is
    the position in the current group of four, [leftchar] the bits kept
    from the previous character, [pads] the run of [=] seen since the
    last data character, [out] the octets written so far (latest first).
    A character outside the alphabet is skipped; a complete pad sequence
    ends the decoding whatever follows; [None] is [binascii.Error]. *)
Fixpoint a2b_loop (s : list N) (quad_pos leftchar pads : N) (out : list N)
  : option (list N) :=
  match s with
  | [] => if quad_pos =? 0 then Some (rev out) else None
  | this_ch :: r =>
      if this_ch =? pad then
        if 2 <=? quad_pos then
          if 4 <=? quad_pos + (pads + 1) then Some (rev out)
          else a2b_loop r quad_pos leftchar (pads + 1) out
        else a2b_loop r quad_pos leftchar pads out
      else
        match a2b this_ch with
        | None => a2b_loop r quad_pos leftchar pads out
        | Some v =>
            if quad_pos =? 0 then a2b_loop r 1 v 0 out
            else if quad_pos =? 1 then
              a2b_loop r 2 (v mod 16) 0 ((leftchar * 4 + v / 16) :: out)
            else if quad_pos =? 2 then
              a2b_loop r 3 (v mod 4) 0 ((leftchar * 16 + v / 4) :: out)
            else
              a2b_loop r 0 0 0 ((leftchar * 64 + v) :: out)
        end
  end.

Definition b64decode (s : list N) : option (list N) := a2b_loop s 0 0 0 [].

(** [str.encode("ascii")] / [bytes.decode("ascii")]: the same numbers,
    refused when one is not ASCII. *)
Definition ascii_only (s : list N) : option (list N) :=
  if forallb (fun c => c <? 128) s then Some s else None.

(** [bytes.translate] with the two tables of the [base64] module. *)
Definition urlsafe_encode_translation (c : N) : N :=
  if c =? 43 then 45 else if c =? 47 then 95 else c.

Definition urlsafe_decode_translation (c : N) : N :=
  if c =? 45 then 43 else if c =? 95 then 47 else c.

Definition urlsafe_b64encode (bs : list N) : list N :=
  map urlsafe_encode_translation (b64encode bs).

(** [base64.urlsafe_b64decode] of a [str]. *)
Definition urlsafe_b64decode (s : list N) : option (list N) :=
  s' ← ascii_only s;
  b64decode (map urlsafe_decode_translation s').

End Base64.

(** ** The identity codec *)

(** [b64url_encode_path]; [None] when the path has no UTF-8 form. *)
Definition b64url_encode_path (path_str : list N) : option (list N) :=
  raw ← Utf8.encode path_str;
  b64 ← Base64.ascii_only (Base64.urlsafe_b64encode raw);
  Some (rstrip Base64.pad b64).

(** [-n % 4] for a length [n]. *)
Definition neg_mod4 (n : nat) : nat := ((4 - n mod 4) mod 4)%nat.

(** [b64url_decode_path]; [None] stands for the exception raised. *)
Definition b64url_decode_path (b64_id : list N) : option (list N) :=
  let padding := repeat Base64.pad (neg_mod4 (length b64_id)) in
  raw ← Base64.urlsafe_b64decode (b64_id ++ padding);
  Utf8.decode raw.

(** The code points that have a UTF-8 form: everything up to U+10FFFF
    outside the surrogate range. *)
Definition scalar_value (c : N) : Prop :=
  c < 0xD800 \/ (0xDFFF < c /\ c < 0x110000).

(** The characters of the URL-safe alphabet: letters, digits, [-], [_]. *)
Definition url_token_char (c : N) : bool :=
  ((65 <=? c) && (c <=? 90)) || ((97 <=? c) && (c <=? 122))
  || ((48 <=? c) && (c <=? 57)) || (c =? 45) || (c =? 95).

(** What the two tables of [Base64] do on one six-bit value, as a check
    that can be run on each of the 64 values. *)
Definition sextet_ok (v : N) : bool :=
  match Base64.a2b (Base64.b2a v) with Some w => w =? v | None => false end
  && negb (Base64.b2a v =? Base64.pad) && (Base64.b2a v <? 128)
  && url_token_char (Base64.urlsafe_encode_translation (Base64.b2a v))
  && (Base64.urlsafe_decode_translation
        (Base64.urlsafe_encode_translation (Base64.b2a v)) =? Base64.b2a v).

(** ** The world the server acts on *)

(** What the server does to its surroundings, in order: it asks whether a
    path exists, or it starts an external program with an argument vector. *)
Inductive Event :=
| EvExists (path : list N)
| EvRun (cmd : list (list N)).

(** The files, by path text, with their octets; and the events so far. *)
Record World := mkWorld {
  fs : gmap (list N) (list N);
  trace : list Event
}.

(** How a call ends: with a value, or with an exception carrying a message. *)
Inductive Outcome (A : Type) :=
| Returned (a : A)
| Raised (msg : list N).
Arguments Returned {A} a.
Arguments Raised {A} msg.

(** A computation of the server: it reads and changes the world. *)
Definition M (A : Type) : Type := World -> Outcome A * World.

Definition ret {A} (a : A) : M A := fun w => (Returned a, w).
Definition raise {A} (msg : list N) : M A := fun w => (Raised msg, w).
Definition bind {A B} (m : M A) (k : A -> M B) : M B :=
  fun w => match m w with
           | (Returned a, w') => k a w'
           | (Raised msg, w') => (Raised msg, w')
           end.
(** [try: m except Exception as e: h(str(e))]. *)
Definition try_except {A} (m : M A) (h : list N -> M A) : M A :=
  fun w => match m w with
           | (Returned a, w') => (Returned a, w')
           | (Raised msg, w') => h msg w'
           end.

Global Instance M_ret : MRet M := @ret.
Global Instance M_bind : MBind M := fun A B k m => bind m k.

(** The result of an external program: exit status, captured standard
    output and captured standard error. *)
Definition ToolResult : Type := Z * list N * list N.

(** The HTTP responses the handlers build. *)
Inductive Json (F : Type) :=
| JBool (b : bool)
| JStr (s : list N)
| JFloat (d : option F)
| JUrl (endpoint : list N) (args : list (list N * list N)).
Arguments JBool {F} b.
Arguments JStr {F} s.
Arguments JFloat {F} d.
Arguments JUrl {F} endpoint args.

Inductive Body (F : Type) :=
| BJson (fields : list (list N * Json F))
| BBytes (data : list N).
Arguments BJson {F} fields.
Arguments BBytes {F} data.

Record Response (F : Type) := mkResponse {
  status : Z;
  body : Body F;
  mimetype : option (list N);
  headers : list (list N * list N)
}.
Arguments mkResponse {F}.
Arguments status {F}.
Arguments body {F}.
Arguments mimetype {F}.
Arguments headers {F}.

(** [resp.headers[name] = value]: the header is set, replacing any
    earlier value of that name. *)
Definition set_header {F} (name value : list N) (r : Response F) : Response F :=
  mkResponse (status r) (body r) (mimetype r)
    (filter (fun h => h.1 <> name) (headers r) ++ [(name, value)]).

(** [rv.headers.add(name, value)]: one more header line. *)
Definition add_header {F} (name value : list N) (r : Response F) : Response F :=
  mkResponse (status r) (body r) (mimetype r) (headers r ++ [(name, value)]).

(** What the handlers read of a request: the Range header, the query
    arguments, and the fields of the JSON body. *)
Inductive JsonIn :=
| InInt (z : Z)
| InStr (s : list N).

Record Request := mkRequest {
  range_header : option (list N);
  args : list (list N * list N);
  json_id : option (list N);
  json_semitones : option JsonIn
}.

(** What the server takes from outside its own code. *)
Class Env := {
  (** where the program file lives, resolved; and the user's download
      directory *)
  APP_ROOT : list N;
  DOWNLOADS_DIR : list N;
  (** an external program, run to completion on the files; a program
      that cannot be started at all is not among the cases *)
  tool : list (list N) -> gmap (list N) (list N)
         -> ToolResult * gmap (list N) (list N);
  (** floating-point seconds: the type, the reading of a WAV header
      ([frames / float(rate)], [None] when the rate is zero or the file
      cannot be read as WAV), [float()] of a text, truth of a number
      (it is not zero), and [int(round(x))] *)
  Seconds : Type;
  wav_header_seconds : list N -> option Seconds;
  float_of_text : list N -> option Seconds;
  nonzero : Seconds -> bool;
  int_round : Seconds -> Z;
  (** [mimetypes.guess_type] by file name *)
  guess_type : list N -> option (list N);
  (** the response Flask's [send_file] builds for a file before it
      looks at the request: status 200, the file's octets, and the
      headers Flask derives from the file *)
  file_response : gmap (list N) (list N) -> list N -> option (list N)
                  -> Response Seconds
}.

(** The kinds of artifact and their keys. *)
Inductive ArtifactKind :=
| Thumbnail
| BaseAudio
| PitchedAudio (semitones : Z)
| MuxedOutput (semitones : Z).

Record ArtifactKey := mkKey {
  identifier : list N;
  kind : ArtifactKind
}.

(** A guarded producer as a thread runs it: the output it looks for, the
    program it starts when the output is missing, and the text its error
    message begins with. *)
Record Job := mkJob {
  job_out : list N;
  job_cmd : list (list N);
  job_error : list N
}.

Inductive Pc :=
| AtCheck
| AtRun
| Finished (o : Outcome unit).

(** ** The server *)

Section Server.
Context `{Env}.

(** [d / name] of [pathlib]: the name is put under [d] unless it starts
    at the root, in which case it replaces [d].  Paths are kept as the
    text they are assembled from. *)
Definition joinpath (d name : list N) : list N :=
  match name with
  | [] => d
  | c :: _ => if c =? 47 then name else d ++ 47 :: name
  end.

Definition TEMP_DIR : list N := joinpath APP_ROOT (lit "temp").
Definition THUMBS_DIR : list N := joinpath TEMP_DIR (lit "thumbs").
Definition AUDIO_DIR : list N := joinpath TEMP_DIR (lit "audio").
Definition PITCH_DIR : list N := joinpath TEMP_DIR (lit "pitch").

(** [Path.name]: the last component that is neither empty nor [.]. *)
Fixpoint split_on (sep : N) (s : list N) : list (list N) :=
  match s with
  | [] => [[]]
  | c :: r =>
      if c =? sep then [] :: split_on sep r
      else match split_on sep r with
           | h :: t => (c :: h) :: t
           | [] => [[c]]
           end
  end.

Definition path_name (p : list N) : list N :=
  List.last
    (List.filter (fun x => negb (bool_decide (x = []) || bool_decide (x = [46])))
       (split_on 47 p))
    [].

(** ["/".join(parts)]. *)
Fixpoint join_parts (parts : list (list N)) : list N :=
  match parts with
  | [] => []
  | [x] => x
  | x :: rest => x ++ 47 :: join_parts rest
  end.

(** [pathlib.Path(text)], as the text [str()] gives for it: the empty
    components and the [.] components are dropped, and so is a slash at
    the end; a path that starts with exactly two slashes keeps both, any
    other number of them counts as one; nothing left is [.]. *)
Definition Path (text : list N) : list N :=
  let parts :=
    List.filter (fun x => negb (bool_decide (x = []) || bool_decide (x = [46])))
      (split_on 47 text) in
  let root :=
    match text with
    | 47 :: 47 :: 47 :: _ => [47]
    | 47 :: 47 :: _ => [47; 47]
    | 47 :: _ => [47]
    | _ => []
    end in
  match root, parts with
  | [], [] => [46]
  | _, _ => root ++ join_parts parts
  end.

(** [name.rfind('.')]. *)
Fixpoint rfind_dot (s : list N) : option nat :=
  match s with
  | [] => None
  | c :: r =>
      match rfind_dot r with
      | Some i => Some (S i)
      | None => if c =? 46 then Some 0%nat else None
      end
  end.

(** [Path.stem]: the name without its last suffix. *)
Definition path_stem (p : list N) : list N :=
  let name := path_name p in
  match rfind_dot name with
  | Some i =>
      if (0 <? i)%nat && (i <? length name - 1)%nat then take i name else name
  | None => name
  end.

(** *** Primitive effects *)

Definition path_exists (p : list N) : M bool :=
  fun w => (Returned (bool_decide (is_Some (fs w !! p))),
            mkWorld (fs w) (trace w ++ [EvExists p])).

(** [run_cmd]: the program runs to its end; its exit status and captured
    output come back. *)
Definition run_cmd (cmd : list (list N)) : M ToolResult :=
  fun w => let '(r, fs') := tool cmd (fs w) in
           (Returned r, mkWorld fs' (trace w ++ [EvRun cmd])).

(** *** Durations *)

Definition ffprobe_duration_seconds (path : list N) : M (option Seconds) :=
  r ← run_cmd [lit "ffprobe"; lit "-v"; lit "error"; lit "-show_entries";
               lit "format=duration"; lit "-of";
               lit "default=noprint_wrappers=1:nokey=1"; path];
  let '(code, out, _) := r in
  if bool_decide (code <> 0%Z) then mret None
  else mret (float_of_text out).

(** [f"{z:02d}"]. *)
Definition fmt_02d (z : Z) : list N :=
  let s := str_of_Z z in
  if (length s <? 2)%nat then 48 :: s else s.

Definition human_readable_duration (seconds : option Seconds) : list N :=
  match seconds with
  | None => lit "Unknown"
  | Some x =>
      let seconds := int_round x in
      let h := (seconds / 3600)%Z in
      let m := ((seconds mod 3600) / 60)%Z in
      let s := (seconds mod 60)%Z in
      if (0 <? h)%Z
      then fmt_02d h ++ lit ":" ++ fmt_02d m ++ lit ":" ++ fmt_02d s
      else fmt_02d m ++ lit ":" ++ fmt_02d s
  end.

Definition wav_duration_seconds (path : list N) : M (option Seconds) :=
  fun w => (Returned (fs w !! path ≫= wav_header_seconds), w).

(** Python's truth of an optional number. *)
Definition truthy (x : option Seconds) : bool :=
  match x with Some d => nonzero d | None => false end.

(** [a or b]: [b] is evaluated only when [a] is false. *)
Definition py_or (a b : M (option Seconds)) : M (option Seconds) :=
  x ← a; if truthy x then mret x else b.

(** *** The producers *)

Definition thumbnail_cmd (video_path thumb_path : list N) : list (list N) :=
  [lit "ffmpeg"; lit "-y"; lit "-ss"; lit "1.0"; lit "-i"; video_path;
   lit "-vframes"; lit "1"; lit "-q:v"; lit "2"; thumb_path].

Definition generate_thumbnail (video_path thumb_path : list N) : M unit :=
  e ← path_exists thumb_path;
  if e : bool then mret tt
  else
    _ ← run_cmd (thumbnail_cmd video_path thumb_path);
    mret tt.

Definition extract_audio_cmd (video_path audio_out : list N) : list (list N) :=
  [lit "ffmpeg"; lit "-y"; lit "-i"; video_path; lit "-vn"; lit "-acodec";
   lit "pcm_s16le"; lit "-ar"; lit "48000"; audio_out].

Definition extract_audio_wav (video_path audio_out : list N) : M unit :=
  e ← path_exists audio_out;
  if e : bool then mret tt
  else
    r ← run_cmd (extract_audio_cmd video_path audio_out);
    let '(code, _, err) := r in
    if bool_decide (code <> 0%Z)
    then raise (lit "ffmpeg failed to extract audio: " ++ err)
    else mret tt.

Definition sox_cmd (input_wav output_wav : list N) (semitones : Z)
  : list (list N) :=
  let cents := (semitones * 100)%Z in
  [lit "sox"; lit "-G"; input_wav; output_wav; lit "pitch"; str_of_Z cents].

Definition sox_pitch_shift_wav (input_wav output_wav : list N) (semitones : Z)
  : M unit :=
  e ← path_exists output_wav;
  if e : bool then mret tt
  else
    r ← run_cmd (sox_cmd input_wav output_wav semitones);
    let '(code, _, err) := r in
    if bool_decide (code <> 0%Z)
    then raise (lit "SoX failed to pitch shift: " ++ err)
    else mret tt.

Definition mux_cmd (video_path audio_wav output_path : list N)
  : list (list N) :=
  [lit "ffmpeg"; lit "-y"; lit "-i"; video_path; lit "-i"; audio_wav;
   lit "-c:v"; lit "copy"; lit "-c:a"; lit "aac"; lit "-b:a"; lit "192k";
   lit "-map"; lit "0:v:0"; lit "-map"; lit "1:a:0"; lit "-shortest";
   output_path].

Definition mux_video_with_audio (video_path audio_wav output_path : list N)
  : M unit :=
  r ← run_cmd (mux_cmd video_path audio_wav output_path);
  let '(code, _, err) := r in
  if bool_decide (code <> 0%Z)
  then raise (lit "ffmpeg failed to mux: " ++ err)
  else mret tt.

(** *** Where artifacts live *)

Definition audio_base_path_for_id (file_id : list N) : list N :=
  joinpath AUDIO_DIR (file_id ++ lit ".wav").

Definition signed_suffix (semitones : Z) : list N :=
  (if (0 <=? semitones)%Z then lit "+" else lit "-")
  ++ str_of_Z (Z.abs semitones).

Definition pitched_audio_path_for_id (file_id : list N) (semitones : Z)
  : list N :=
  joinpath PITCH_DIR (file_id ++ lit "_" ++ signed_suffix semitones ++ lit ".wav").

Definition thumb_path_for_id (file_id : list N) : list N :=
  joinpath THUMBS_DIR (file_id ++ lit ".jpg").

(** The output of [api_store_video] for a source video. *)
Definition store_path (video_path : list N) (semitones : Z) : list N :=
  joinpath DOWNLOADS_DIR
    (path_stem video_path ++ lit "_" ++ signed_suffix semitones ++ lit ".mp4").

Definition abort_json (status : Z) (message : list N) : Response Seconds :=
  mkResponse status (BJson [(lit "error", JStr message)])
             (Some (lit "application/json")) [].

Definition get_video_path_from_id_or_404 (file_id : list N)
  : M (Response Seconds + list N) :=
  match b64url_decode_path file_id with
  | None => mret (inl (abort_json 400 (lit "Invalid video id")))
  | Some path_str =>
      let p := Path path_str in
      e ← path_exists p;
      if e : bool then mret (inr p)
      else mret (inl (abort_json 404 (lit "Video not found")))
  end.

(** *** Range file serving *)

(** The [try] block of [send_file_range]: the header is read as
    [bytes=start-end]; [None] stands for any exception raised in it.
    The result is [(start, end, length)]. *)
Definition range_of_header (range_header : list N) (file_size : Z)
  : option (Z * Z * Z) :=
  let '(units, _, range_spec) := partition 61 range_header in
  if bool_decide (units <> lit "bytes") then None
  else
    let '(start_s, _, end_s) := partition 45 range_spec in
    start ← (match start_s with [] => Some 0%Z | _ => py_int start_s end);
    end0 ← (match end_s with [] => Some (file_size - 1)%Z | _ => py_int end_s end);
    let end_ := if (file_size <=? end0)%Z then (file_size - 1)%Z else end0 in
    Some (start, end_, (end_ - start + 1)%Z).

(** [f.seek(start); f.read(length)] on a file opened for reading: a
    negative position is refused, a position past the end reads nothing,
    the length [-1] reads to the end, and any length below [-1] is
    refused with [ValueError].  Positions are not bounded by the width of
    a file offset. *)
Definition seek_read (content : list N) (start length : Z) : M (list N) :=
  if (start <? 0)%Z then raise (lit "negative seek position")
  else if (length <? -1)%Z
  then raise (lit "read length must be non-negative or -1")
  else
    let rest := drop (Z.to_nat start) content in
    mret (if (length <? 0)%Z then rest else take (Z.to_nat length) rest).

(** *** Flask's [send_file] with [conditional=True]

    What Werkzeug 3 does with the Range header when Flask's [send_file]
    is called with [conditional=True] ([make_conditional] with
    [accept_ranges=True]); of the conditional headers only Range is among
    the cases. *)

(** [_plain_int]: after [strip()], an optional [-] and ASCII digits. *)
Definition plain_int (s : list N) : option Z :=
  let digits ds :=
    if bool_decide (ds <> []) && forallb is_digit ds
    then Some (fold_left digit_step ds 0) else None in
  match strip s with
  | c :: ds =>
      if c =? 45 then (fun n => (- Z.of_N n)%Z) <$> digits ds
      else Z.of_N <$> digits (c :: ds)
  | [] => None
  end.

Definition contains (c : N) (s : list N) : bool := existsb (N.eqb c) s.

(** One item of the header, as the loop of [parse_range_header] reads
    it: the range [(begin, end)] with the end exclusive and [None] when
    open, and the new [last_end] ([-1] after an open range). *)
Definition parse_range_item (item : list N) (last_end : Z)
  : option ((Z * option Z) * Z) :=
  let item := strip item in
  if negb (contains 45 item) then None
  else
    if bool_decide (take 1 item = [45]) then
      if (last_end <? 0)%Z then None
      else begin ← plain_int item; Some ((begin, None), (-1)%Z)
    else
      let '(begin_str, _, end_str) := partition 45 item in
      begin ← plain_int begin_str;
      if ((begin <? last_end) || (last_end <? 0))%Z then None
      else
        match strip end_str with
        | [] => Some ((begin, None), (-1)%Z)
        | end_str =>
            e ← plain_int end_str;
            let end_ := (e + 1)%Z in
            if (end_ <=? begin)%Z then None
            else Some ((begin, Some end_), end_)
        end.

Fixpoint parse_range_items (items : list (list N)) (last_end : Z)
  : option (list (Z * option Z)) :=
  match items with
  | [] => Some []
  | item :: rest =>
      r ← parse_range_item item last_end;
      rs ← parse_range_items rest r.2;
      Some (r.1 :: rs)
  end.

(** [parse_range_header]: the units, stripped and in lower case, and the
    ranges; [None] when the value has no [=] or an item cannot be read. *)
Definition parse_range_header (value : list N)
  : option (list N * list (Z * option Z)) :=
  if negb (contains 61 value) then None
  else
    let '(units, _, rng) := partition 61 value in
    ranges ← parse_range_items (split_on 44 rng) 0;
    Some (map ascii_lower (strip units), ranges).

(** [Range.range_for_length]: the one range of a [bytes] header as
    [(start, stop)] within a file of the given length, the stop
    exclusive; [None] when it cannot be satisfied. *)
Definition range_for_length (units : list N) (ranges : list (Z * option Z))
    (length : Z) : option (Z * Z) :=
  if bool_decide (units <> lit "bytes") then None
  else
    match ranges with
    | [(start, end_)] =>
        let '(start, stop) :=
          match end_ with
          | None => ((if (start <? 0)%Z then (start + length)%Z else start), length)
          | Some e => (start, e)
          end in
        if ((start <? stop) && (0 <=? start) && (start <? length))%Z
        then Some (start, Z.min stop length) else None
    | _ => None
    end.

(** [send_file(str(path), mimetype=mimetype, conditional=True)]: without
    a Range header, or on an empty file, the response for the file as it
    is; with one that can be satisfied, its part with status 206; with
    any other, [RequestedRangeNotSatisfiable] is raised. *)
Definition send_file (req : Request) (files : gmap (list N) (list N))
    (path : list N) (mimetype : option (list N)) : Outcome (Response Seconds) :=
  match files !! path with
  | None => Raised (lit "FileNotFoundError")
  | Some content =>
      let rv := file_response files path mimetype in
      let complete_length := Z.of_nat (length content) in
      match range_header req with
      | None => Returned rv
      | Some value =>
          if (complete_length =? 0)%Z then Returned rv
          else
            match (pr ← parse_range_header value;
                   range_for_length pr.1 pr.2 complete_length) with
            | None => Raised (lit "416 Requested Range Not Satisfiable")
            | Some (start, stop) =>
                let data := take (Z.to_nat (stop - start))
                              (drop (Z.to_nat start) content) in
                let rv := match rv with
                          | mkResponse _ _ m hs => mkResponse 206 (BBytes data) m hs
                          end in
                let rv := set_header (lit "Content-Length")
                            (str_of_Z (stop - start)) rv in
                let rv := set_header (lit "Accept-Ranges") (lit "bytes") rv in
                let rv := set_header (lit "Content-Range")
                            (lit "bytes " ++ str_of_Z start ++ lit "-"
                             ++ str_of_Z (stop - 1) ++ lit "/"
                             ++ str_of_Z complete_length) rv in
                Returned rv
            end
      end
  end.

(** Both places where the whole file is to be sent: what [send_file]
    raises is not caught there. *)
Definition full_file (req : Request) (path : list N) (mimetype : option (list N))
  : M (Response Seconds) :=
  fun w =>
    match send_file req (fs w) path mimetype with
    | Returned resp =>
        let resp := set_header (lit "Cache-Control") (lit "no-store") resp in
        let resp := set_header (lit "Accept-Ranges") (lit "bytes") resp in
        (Returned resp, w)
    | Raised msg => (Raised msg, w)
    end.

(** The headers listed are those the function adds itself. *)
Definition send_file_range (req : Request) (path : list N)
    (mimetype : option (list N)) : M (Response Seconds) :=
  fun w =>
    match fs w !! path with
    | None => (Raised (lit "FileNotFoundError"), w)
    | Some content =>
        let file_size := Z.of_nat (length content) in
        match range_header req with
        | None | Some [] => full_file req path mimetype w
        | Some range_header =>
            match range_of_header range_header file_size with
            | None => full_file req path mimetype w
            | Some (start, end_, length) =>
                (data ← seek_read content start length;
                 let rv := mkResponse 206 (BBytes data) mimetype [] in
                 let rv := add_header (lit "Content-Range")
                             (lit "bytes " ++ str_of_Z start ++ lit "-"
                              ++ str_of_Z end_ ++ lit "/" ++ str_of_Z file_size)
                             rv in
                 let rv := add_header (lit "Accept-Ranges") (lit "bytes") rv in
                 let rv := add_header (lit "Content-Length") (str_of_Z length) rv in
                 let rv := add_header (lit "Cache-Control") (lit "no-store") rv in
                 mret rv) w
            end
        end
    end.

(** *** Routes *)

(** [request.args.get(name)]. *)
Definition get_arg (name : list N) (a : list (list N * list N))
  : option (list N) :=
  snd <$> List.find (fun kv => bool_decide (kv.1 = name)) a.

(** [int(x)] of a JSON value that may be missing; a text that is not a
    number raises. *)
Definition int_of_json (x : option JsonIn) : M Z :=
  match x with
  | None => mret 0%Z
  | Some (InInt z) => mret z
  | Some (InStr s) =>
      match py_int s with
      | Some z => mret z
      | None => raise (lit "invalid literal for int()")
      end
  end.

Definition jsonify (fields : list (list N * Json Seconds)) : Response Seconds :=
  mkResponse 200 (BJson fields) (Some (lit "application/json")) [].

(** [url_for("serve_audio", id=..., pitch=...)]: the link is kept as
    the endpoint and the query arguments a request to it carries. *)
Definition audio_url (file_id : list N) (pitch : Z) : Json Seconds :=
  JUrl (lit "serve_audio") [(lit "id", file_id); (lit "pitch", str_of_Z pitch)].

Definition serve_audio (req : Request) : M (Response Seconds) :=
  let file_id := get_arg (lit "id") (args req) in
  match py_int (default (lit "0") (get_arg (lit "pitch") (args req))) with
  | None => raise (lit "invalid literal for int()")
  | Some pitch =>
      match file_id with
      | None | Some [] => mret (abort_json 400 (lit "Missing 'id'"))
      | Some file_id =>
          let p := if bool_decide (pitch = 0%Z)
                   then audio_base_path_for_id file_id
                   else pitched_audio_path_for_id file_id pitch in
          e ← path_exists p;
          if e : bool then
            send_file_range req p
              (Some (match guess_type p with
                     | None | Some [] => lit "audio/wav"
                     | Some t => t
                     end))
          else mret (abort_json 404 (lit "Audio not found"))
      end
  end.

Definition api_pitch (req : Request) : M (Response Seconds) :=
  let file_id := json_id req in
  semitones ← int_of_json (json_semitones req);
  match file_id with
  | None => mret (abort_json 400 (lit "Missing 'id'"))
  | Some file_id =>
      if ((semitones <? -8) || (8 <? semitones))%Z
      then mret (abort_json 400 (lit "'semitones' must be between -8 and 8"))
      else
        let base_audio := audio_base_path_for_id file_id in
        e ← path_exists base_audio;
        if negb e then mret (abort_json 400 (lit "Base audio not extracted yet"))
        else
          let out := pitched_audio_path_for_id file_id semitones in
          failed ← try_except
                     (sox_pitch_shift_wav base_audio out semitones;; mret None)
                     (fun e => mret (Some (abort_json 500 e)));
          match failed with
          | Some resp => mret resp
          | None =>
              duration ← py_or (wav_duration_seconds out)
                           (py_or (wav_duration_seconds base_audio)
                              (py_or (ffprobe_duration_seconds out)
                                     (ffprobe_duration_seconds base_audio)));
              mret (jsonify
                      [(lit "ok", JBool true);
                       (lit "audio_url", audio_url file_id semitones);
                       (lit "duration_seconds", JFloat duration);
                       (lit "duration", JStr (human_readable_duration duration))])
          end
  end.

Definition api_store_video (req : Request) : M (Response Seconds) :=
  let file_id := json_id req in
  semitones ← int_of_json (json_semitones req);
  match file_id with
  | None => mret (abort_json 400 (lit "Missing 'id'"))
  | Some file_id =>
      video_path ← get_video_path_from_id_or_404 file_id;
      match video_path with
      | inl resp => mret resp
      | inr video_path =>
          let audio_path :=
            if bool_decide (semitones <> 0%Z)
            then pitched_audio_path_for_id file_id semitones
            else audio_base_path_for_id file_id in
          e ← path_exists audio_path;
          if negb e
          then mret (abort_json 400
                       (lit "Requested audio not available. Generate it first."))
          else
            let out_path := store_path video_path semitones in
            try_except
              (mux_video_with_audio video_path audio_path out_path;;
               mret (jsonify [(lit "ok", JBool true);
                              (lit "output_path", JStr out_path)]))
              (fun e => mret (abort_json 500 e))
      end
  end.

(** *** The artifact store, as the routes use the producers *)

(** The location of a key.  The muxed output is named after the source
    video, so its location needs the video's path. *)
Definition resolve (k : ArtifactKey) (video_path : list N) : list N :=
  match kind k with
  | Thumbnail => thumb_path_for_id (identifier k)
  | BaseAudio => audio_base_path_for_id (identifier k)
  | PitchedAudio s => pitched_audio_path_for_id (identifier k) s
  | MuxedOutput s => store_path video_path s
  end.

(** Asking for the artifact of a key: the producer the routes call for
    that kind, with the arguments they pass. *)
Definition ensure (k : ArtifactKey) (video_path : list N) : M unit :=
  match kind k with
  | Thumbnail => generate_thumbnail video_path (thumb_path_for_id (identifier k))
  | BaseAudio => extract_audio_wav video_path (audio_base_path_for_id (identifier k))
  | PitchedAudio s =>
      sox_pitch_shift_wav (audio_base_path_for_id (identifier k))
        (pitched_audio_path_for_id (identifier k) s) s
  | MuxedOutput s =>
      mux_video_with_audio video_path
        (if bool_decide (s <> 0%Z)
         then pitched_audio_path_for_id (identifier k) s
         else audio_base_path_for_id (identifier k))
        (store_path video_path s)
  end.

(** *** Requests served at the same time

    The server holds no lock.  A request for base audio or pitched audio
    does two things that other requests can come between: it asks whether
    the output exists, and, if not, it runs the program.  A thread is at
    one of these two points or has finished. *)

Definition job_of (k : ArtifactKey) (video_path : list N) : option Job :=
  match kind k with
  | BaseAudio =>
      let out := audio_base_path_for_id (identifier k) in
      Some (mkJob out (extract_audio_cmd video_path out)
              (lit "ffmpeg failed to extract audio: "))
  | PitchedAudio s =>
      let out := pitched_audio_path_for_id (identifier k) s in
      Some (mkJob out (sox_cmd (audio_base_path_for_id (identifier k)) out s)
              (lit "SoX failed to pitch shift: "))
  | _ => None
  end.

(** One atomic step of a thread. *)
Definition job_step (j : Job) (pc : Pc) : World -> Pc * World :=
  fun w =>
    match pc with
    | AtCheck =>
        match path_exists (job_out j) w with
        | (Returned true, w') => (Finished (Returned tt), w')
        | (Returned false, w') => (AtRun, w')
        | (Raised msg, w') => (Finished (Raised msg), w')
        end
    | AtRun =>
        match run_cmd (job_cmd j) w with
        | (Returned (code, _, err), w') =>
            if bool_decide (code <> 0%Z)
            then (Finished (Raised (job_error j ++ err)), w')
            else (Finished (Returned tt), w')
        | (Raised msg, w') => (Finished (Raised msg), w')
        end
    | Finished o => (Finished o, w)
    end.

(** The threads of the server and the world they share; the scheduler
    picks which thread takes the next step. *)
Definition sys_step (st : list (Job * Pc) * World) (i : nat)
  : list (Job * Pc) * World :=
  match st.1 !! i with
  | Some (j, pc) =>
      let '(pc', w') := job_step j pc st.2 in
      (<[i := (j, pc')]> st.1, w')
  | None => st
  end.

Definition run_schedule (sched : list nat) (st : list (Job * Pc) * World)
  : list (Job * Pc) * World :=
  fold_left sys_step sched st.

(** [n] requests for the same job, none started. *)
Definition fresh_threads (j : Job) (n : nat) : list (Job * Pc) :=
  replicate n (j, AtCheck).

(** The schedule that serves the requests one after another. *)
Definition serial_schedule (n : nat) : list nat :=
  flat_map (fun i => [i; i]) (seq 0 n).

End Server.

(** How many programs a trace shows to have been run. *)
Definition tool_runs (tr : list Event) : nat :=
  length (List.filter (fun e => match e with EvRun _ => true | _ => false end) tr).

Definition all_finished (ths : list (Job * Pc)) : bool :=
  forallb (fun t => match t.2 with Finished _ => true | _ => false end) ths.

(** A computation only adds to the record of events. *)
Definition grows {A} (m : M A) : Prop :=
  forall w, exists tr, trace (m w).2 = trace w ++ tr.

(** ** A sample environment

    A stand-in for the programs and the framework, on which the
    definitions above can be run: every program succeeds, [ffmpeg] writes
    its last argument, [sox] its second file argument, [ffprobe] prints a
    number; the response for a file carries its octets and no header. *)

Definition sample_tool (cmd : list (list N)) (files : gmap (list N) (list N))
  : ToolResult * gmap (list N) (list N) :=
  match cmd with
  | prog :: _ =>
      if bool_decide (prog = lit "ffprobe") then ((0%Z, lit "10", []), files)
      else if bool_decide (prog = lit "sox") then
        ((0%Z, [], []),
         match cmd !! 3%nat with
         | Some out => <[out := lit "RIFF-shifted"]> files
         | None => files
         end)
      else ((0%Z, [], []), <[List.last cmd [] := lit "RIFF"]> files)
  | [] => ((1%Z, [], []), files)
  end.

Definition sample_file_response (files : gmap (list N) (list N))
    (path : list N) (mimetype : option (list N)) : Response Z :=
  match files !! path with
  | Some content => mkResponse 200 (BBytes content) mimetype []
  | None => mkResponse 404 (BBytes []) mimetype []
  end.

Definition sample_env : Env := {|
  APP_ROOT := lit "/srv/app";
  DOWNLOADS_DIR := lit "/home/u/Downloads";
  tool := sample_tool;
  Seconds := Z;
  wav_header_seconds := fun content => Some (Z.of_nat (length content));
  float_of_text := py_int;
  nonzero := fun z => negb (z =? 0)%Z;
  int_round := fun z => z;
  guess_type := fun _ => Some (lit "audio/x-wav");
  file_response := sample_file_response
|}.

(** ** The other routes: extraction, metadata, thumbnails, listing *)

(** One video of the listing. *)
Record VideoEntry (F : Type) := mkVideo {
  video_id : list N;
  video_filename : list N;
  video_thumbnail : Json F
}.
Arguments mkVideo {F}.
Arguments video_id {F}.
Arguments video_filename {F}.
Arguments video_thumbnail {F}.

(** What these routes take from outside, beside [Env]. *)
Class Host `{Env} := {
  (** Flask's [send_file(path, mimetype=...)], without conditional
      handling *)
  send_file_plain : gmap (list N) (list N) -> list N -> option (list N)
                    -> Response Seconds;
  (** [Path.exists()] of a search root, and [os.walk] from it: the
      directories in the order visited, each with the names of its files *)
  root_exists : list N -> bool;
  os_walk : list N -> list (list N * list (list N));
  (** [str(pathlib.Path(p).resolve())]; [None] when it raises *)
  path_resolve : list N -> option (list N);
  (** whether writing the configuration with these paths goes through *)
  config_write_ok : list (list N) -> bool
}.

Section OtherRoutes.
Context `{Host}.

Definition api_extract_audio (req : Request) : M (Response Seconds) :=
  match json_id req with
  | None | Some [] => mret (abort_json 400 (lit "Missing 'id'"))
  | Some file_id =>
      video_path ← get_video_path_from_id_or_404 file_id;
      match video_path with
      | inl resp => mret resp
      | inr video_path =>
          let audio_out := audio_base_path_for_id file_id in
          failed ← try_except
                     (extract_audio_wav video_path audio_out;; mret None)
                     (fun e => mret (Some (abort_json 500 e)));
          match failed with
          | Some resp => mret resp
          | None =>
              duration ← py_or (wav_duration_seconds audio_out)
                           (ffprobe_duration_seconds audio_out);
              mret (jsonify
                      [(lit "ok", JBool true);
                       (lit "audio_url", audio_url file_id 0);
                       (lit "duration_seconds", JFloat duration);
                       (lit "duration", JStr (human_readable_duration duration));
                       (lit "filename", JStr (path_name video_path))])
          end
      end
  end.

Definition api_audio_meta (file_id : list N) : M (Response Seconds) :=
  let audio_path := audio_base_path_for_id file_id in
  e ← path_exists audio_path;
  if negb e then mret (abort_json 404 (lit "Audio not extracted"))
  else
    duration ← py_or (wav_duration_seconds audio_path)
                 (ffprobe_duration_seconds audio_path);
    mret (jsonify
            [(lit "duration_seconds", JFloat duration);
             (lit "duration", JStr (human_readable_duration duration))]).

(** [url_for("get_thumb", file_id=...)], kept like [audio_url]. *)
Definition thumb_url (file_id : list N) : Json Seconds :=
  JUrl (lit "get_thumb") [(lit "file_id", file_id)].

Definition api_video_info (file_id : list N) : M (Response Seconds) :=
  video_path ← get_video_path_from_id_or_404 file_id;
  match video_path with
  | inl resp => mret resp
  | inr video_path =>
      mret (jsonify [(lit "filename", JStr (path_name video_path));
                     (lit "path", JStr video_path);
                     (lit "thumbnail", thumb_url file_id)])
  end.


(** *** Finding videos *)

(** [s.endswith(suffix)]. *)
Definition ends_with (suffix s : list N) : bool :=
  (length suffix <=? length s)%nat
  && bool_decide (drop (length s - length suffix) s = suffix).

Definition is_mp4_name (name : list N) : bool :=
  ends_with (lit ".mp4") (map ascii_lower name).

Definition iter_mp4_files (root : list N) : list (list N) :=
  if negb (root_exists root) then []
  else
    flat_map (fun d => map (joinpath d.1) (List.filter is_mp4_name d.2))
      (os_walk root).

(** The first loop of [list_videos]: each file gets its identifier, a
    thumbnail is attempted, and the entry is appended.  A path with no
    UTF-8 form stops the listing with the encoding error. *)
Fixpoint collect_videos (paths : list (list N)) : M (list (VideoEntry Seconds)) :=
  match paths with
  | [] => mret []
  | path :: rest =>
      match b64url_encode_path path with
      | None => raise (lit "UnicodeEncodeError")
      | Some file_id =>
          try_except (generate_thumbnail path (thumb_path_for_id file_id))
            (fun _ => mret tt);;
          videos ← collect_videos rest;
          mret (mkVideo file_id (path_name path) (thumb_url file_id) :: videos)
      end
  end.

(** The second loop: an entry is kept the first time its identifier is
    seen. *)
Fixpoint unique_by_id (seen : gset (list N)) (videos : list (VideoEntry Seconds))
  : list (VideoEntry Seconds) :=
  match videos with
  | [] => []
  | v :: rest =>
      if bool_decide (video_id v ∈ seen) then unique_by_id seen rest
      else v :: unique_by_id ({[video_id v]} ∪ seen) rest
  end.

(** [list_videos], over the search paths in force; the result is the
    value of ["videos"] in the answer. *)
Definition list_videos (search_paths : list (list N))
  : M (list (VideoEntry Seconds)) :=
  videos ← collect_videos (flat_map iter_mp4_files search_paths);
  mret (unique_by_id ∅ videos).

End OtherRoutes.

(** ** The search paths and their configuration file *)

(** The configuration file: absent, there but not readable as the
    document expected, or a document with its list of paths (empty when
    the document has no ["paths"] entry). *)
Inductive ConfigFile :=
| NoFile
| Unreadable
| Document (paths : list (list N)).

Record Registry := mkRegistry {
  SEARCH_PATHS : list (list N);
  config : ConfigFile
}.

(** What the two routes on paths answer: an error response, or
    [{"ok": true, "paths": [...]}]. *)
Inductive PathsReply (F : Type) :=
| ReplyError (resp : Response F)
| ReplyPaths (paths : list (list N)).
Arguments ReplyError {F} resp.
Arguments ReplyPaths {F} paths.

(** [l.remove(p)]: the first occurrence goes; [None] is [ValueError]. *)
Fixpoint list_remove (p : list N) (l : list (list N)) : option (list (list N)) :=
  match l with
  | [] => None
  | x :: r =>
      if bool_decide (x = p) then Some r else cons x <$> list_remove p r
  end.

Section SearchPaths.
Context `{Host}.

(** The loop of [load_search_paths]: each path is resolved (kept as it
    is when resolving raises) and kept the first time it is seen. *)
Fixpoint normalize_paths (seen : gset (list N)) (paths : list (list N))
  : list (list N) :=
  match paths with
  | [] => []
  | p :: rest =>
      let rp := default p (path_resolve p) in
      if bool_decide (rp ∈ seen) then normalize_paths seen rest
      else rp :: normalize_paths ({[rp]} ∪ seen) rest
  end.

Definition load_search_paths (reg : Registry) : Registry :=
  match config reg with
  | Document paths => mkRegistry (normalize_paths ∅ paths) (config reg)
  | _ => reg
  end.

(** The new document replaces the file in one step or not at all. *)
Definition save_search_paths (reg : Registry) : Registry :=
  if config_write_ok (SEARCH_PATHS reg)
  then mkRegistry (SEARCH_PATHS reg) (Document (SEARCH_PATHS reg))
  else reg.

Definition list_paths (reg : Registry) : PathsReply Seconds :=
  ReplyPaths (SEARCH_PATHS reg).

Definition add_path (path : option (list N)) (reg : Registry)
  : Outcome (PathsReply Seconds) * Registry :=
  match path with
  | None | Some [] => (Returned (ReplyError (abort_json 400 (lit "Missing 'path'"))), reg)
  | Some path =>
      match path_resolve path with
      | None => (Raised (lit "resolve failed"), reg)
      | Some p =>
          let reg' :=
            if bool_decide (p ∈ SEARCH_PATHS reg) then reg
            else save_search_paths
                   (mkRegistry (SEARCH_PATHS reg ++ [p]) (config reg)) in
          (Returned (ReplyPaths (SEARCH_PATHS reg')), reg')
      end
  end.

Definition remove_path (path : option (list N)) (reg : Registry)
  : Outcome (PathsReply Seconds) * Registry :=
  match path with
  | None | Some [] => (Returned (ReplyError (abort_json 400 (lit "Missing 'path'"))), reg)
  | Some path =>
      match path_resolve path with
      | None => (Raised (lit "resolve failed"), reg)
      | Some p =>
          let reg' :=
            match list_remove p (SEARCH_PATHS reg) with
            | Some l => save_search_paths (mkRegistry l (config reg))
            | None => reg
            end in
          (Returned (ReplyPaths (SEARCH_PATHS reg')), reg')
      end
  end.

End SearchPaths.

(** A sample of the rest of the outside: one directory tree, paths that
    resolve to themselves, a disk that takes every write. *)
Definition sample_host : Host (H := sample_env) := {|
  send_file_plain := fun files path mimetype =>
    match files !! path with
    | Some content => mkResponse 200 (BBytes content) mimetype []
    | None => mkResponse 404 (BBytes []) mimetype []
    end;
  root_exists := fun root => bool_decide (root = lit "/videos");
  os_walk := fun root =>
    [(lit "/videos", [lit "a.mp4"; lit "notes.txt"; lit "B.MP4"]);
     (lit "/videos/old", [lit "a.mp4"; lit "mp4"])];
  path_resolve := fun p => Some p;
  config_write_ok := fun _ => true
|}.

(** The same sample with programs that always fail. *)
Definition failing_tool (cmd : list (list N)) (files : gmap (list N) (list N))
  : ToolResult * gmap (list N) (list N) :=
  ((1%Z, [], lit "no such codec"), files).

Definition failing_env : Env := {|
  APP_ROOT := lit "/srv/app";
  DOWNLOADS_DIR := lit "/home/u/Downloads";
  tool := failing_tool;
  Seconds := Z;
  wav_header_seconds := fun content => Some (Z.of_nat (length content));
  float_of_text := py_int;
  nonzero := fun z => negb (z =? 0)%Z;
  int_round := fun z => z;
  guess_type := fun _ => Some (lit "audio/x-wav");
  file_response := sample_file_response
|}.

Definition failing_host : Host (H := failing_env) := {|
  send_file_plain := fun files path mimetype =>
    match files !! path with
    | Some content => mkResponse 200 (BBytes content) mimetype []
    | None => mkResponse 404 (BBytes []) mimetype []
    end;
  root_exists := fun root => bool_decide (root = lit "/videos");
  os_walk := fun root => [(lit "/videos", [lit "a.mp4"; 0xDC80 :: lit ".mp4"])];
  path_resolve := fun p => Some p;
  config_write_ok := fun _ => false
|}.
(** * Properties *)

(** ** Sample evaluations *)

Example partition_ex1 :
  partition 61 (lit "a=b=c") = (lit "a", lit "=", lit "b=c").
Proof. reflexivity. Qed.

Example partition_ex2 : partition 61 (lit "abc") = (lit "abc", [], []).
Proof. reflexivity. Qed.

Example py_int_ex :
  map py_int [lit " 5"; lit "+5"; lit "-5"; lit "1_0"; lit ""; lit "0x5";
              lit "1__0"; lit "_1"; lit "00012"; lit "5_"; lit "- 5"]
  = [Some 5%Z; Some 5%Z; Some (-5)%Z; Some 10%Z; None; None;
     None; None; Some 12%Z; None; None].
Proof. reflexivity. Qed.

Example str_of_Z_ex :
  map str_of_Z [0%Z; 7%Z; 10%Z; 999999%Z; (-999989)%Z]
  = [lit "0"; lit "7"; lit "10"; lit "999999"; lit "-999989"].
Proof. reflexivity. Qed.

Example utf8_ex :
  Utf8.encode [47; 0xFF; 0x20AC; 0x1F600] = Some [47; 0xC3; 0xBF; 0xE2; 0x82; 0xAC; 0xF0; 0x9F; 0x98; 0x80]
  /\ Utf8.decode [47; 0xC3; 0xBF; 0xE2; 0x82; 0xAC; 0xF0; 0x9F; 0x98; 0x80] = Some [47; 0xFF; 0x20AC; 0x1F600]
  /\ Utf8.encode [0xD800] = None
  /\ Utf8.decode [0xFF] = None /\ Utf8.decode [0x80] = None.
Proof. repeat split; reflexivity. Qed.

Example codec_ex :
  b64url_encode_path (lit "/a") = Some (lit "L2E")
  /\ b64url_encode_path (lit "/ab") = Some (lit "L2Fi")
  /\ b64url_encode_path [47; 0xFF; 63; 62] = Some (lit "L8O_Pz4")
  /\ b64url_encode_path [47; 0x1F600; 126; 126; 126] = Some (lit "L_CfmIB-fn4")
  /\ map b64url_decode_path
       [lit "L2Fi"; lit "!L2Fi"; lit "L2Fi!"; lit "L2E"; lit "L2E!"; lit "L2E=";
        lit "L2Fi="; lit "L2 Fi"; lit "L2+/"; lit "L2-_"; lit "L"; lit "L2";
        lit "=L2E"; lit "L=2E"; lit "L2=E"; lit "L2==Fi"; lit "L2E=Fi"; lit "/w";
        lit "gA"; [76; 50; 233]]
     = [Some (lit "/ab"); Some (lit "/ab"); Some (lit "/ab"); Some (lit "/a"); None; Some (lit "/a");
        Some (lit "/ab"); Some (lit "/ab"); None; None; None; Some (lit "/");
        None; None; None; Some (lit "/"); Some (lit "/a"); None;
        None; None].
Proof. repeat split; reflexivity. Qed.

(** ** The identity codec *)

Ltac bool_to_prop :=
  repeat match goal with
  | H : (_ <? _) = true |- _ => apply N.ltb_lt in H
  | H : (_ <? _) = false |- _ => apply N.ltb_ge in H
  | H : (_ <=? _) = true |- _ => apply N.leb_le in H
  | H : (_ <=? _) = false |- _ => apply N.leb_gt in H
  | H : (_ =? _) = true |- _ => apply N.eqb_eq in H
  | H : (_ =? _) = false |- _ => apply N.eqb_neq in H
  | H : (_ && _) = true |- _ => apply andb_true_iff in H; destruct H
  | H : (_ && _) = false |- _ => apply andb_false_iff in H
  end.

Ltac case_test t := let E := fresh "E" in destruct t eqn:E; bool_to_prop.

Lemma ltb_true a b : a < b -> (a <? b) = true.
Proof. apply N.ltb_lt. Qed.
Lemma ltb_false a b : b <= a -> (a <? b) = false.
Proof. apply N.ltb_ge. Qed.
Lemma leb_true a b : a <= b -> (a <=? b) = true.
Proof. apply N.leb_le. Qed.
Lemma leb_false a b : b < a -> (a <=? b) = false.
Proof. apply N.leb_gt. Qed.
Lemma eqb_false a b : a <> b -> (a =? b) = false.
Proof. apply N.eqb_neq. Qed.

Lemma encode_cp_decode c bs rest :
  Utf8.encode_cp c = Some bs ->
  Utf8.decode (bs ++ rest) = cons c <$> Utf8.decode rest.
Proof.
  unfold Utf8.encode_cp.
  case_test (c <? 128).
  { intros [= <-]. simpl. rewrite ltb_true by lia. reflexivity. }
  case_test (c <? 2048).
  { intros [= <-]. cbn [app Utf8.decode].
    rewrite !ltb_false by lia. rewrite ltb_true by lia.
    unfold Utf8.cont, Utf8.between. rewrite !leb_true by lia. cbn [andb].
    f_equal. f_equal. lia. }
  case_test (c <? 65536).
  { destruct ((55296 <=? c) && (c <=? 57343)) eqn:Es; [discriminate|].
    assert (c < 55296 \/ 57343 < c)
      by (apply andb_false_iff in Es; destruct Es; bool_to_prop; lia).
    intros [= <-]. cbn [app Utf8.decode].
    rewrite !ltb_false by lia. rewrite ltb_true by lia.
    unfold Utf8.cont, Utf8.between.
    assert (Hb1 : ((if 224 + c / 4096 =? 224 then 160 else 128) <=? 128 + (c / 64) mod 64) = true).
    { case_test (224 + c / 4096 =? 224); apply N.leb_le; lia. }
    assert (Hb2 : (128 + (c / 64) mod 64 <=? (if 224 + c / 4096 =? 237 then 159 else 191)) = true).
    { case_test (224 + c / 4096 =? 237); apply N.leb_le; lia. }
    rewrite Hb1, Hb2. rewrite !leb_true by lia. cbn [andb].
    f_equal. f_equal. lia. }
  case_test (c <? 1114112); [|discriminate].
  intros [= <-]. cbn [app Utf8.decode].
  rewrite !ltb_false by lia. rewrite ltb_true by lia.
  unfold Utf8.cont, Utf8.between.
  assert (Hb1 : ((if 240 + c / 262144 =? 240 then 144 else 128) <=? 128 + (c / 4096) mod 64) = true).
  { case_test (240 + c / 262144 =? 240); apply N.leb_le; lia. }
  assert (Hb2 : (128 + (c / 4096) mod 64 <=? (if 240 + c / 262144 =? 244 then 143 else 191)) = true).
  { case_test (240 + c / 262144 =? 244); apply N.leb_le; lia. }
  rewrite Hb1, Hb2. rewrite !leb_true by lia. cbn [andb].
  f_equal. f_equal. lia.
Qed.

Lemma utf8_decode_encode s bs :
  Utf8.encode s = Some bs -> Utf8.decode bs = Some s.
Proof.
  revert bs. induction s as [|c s IH]; intros bs; simpl.
  - intros [= <-]. reflexivity.
  - destruct (Utf8.encode_cp c) as [a|] eqn:Ec; [|discriminate].
    destruct (Utf8.encode s) as [b|] eqn:Es; [|discriminate].
    intros [= <-]. rewrite (encode_cp_decode _ _ _ Ec), (IH b eq_refl).
    reflexivity.
Qed.

Lemma encode_cp_scalar c :
  scalar_value c -> exists bs, Utf8.encode_cp c = Some bs /\ Forall (fun b => b < 256) bs.
Proof.
  intros Hc. unfold Utf8.encode_cp.
  case_test (c <? 128). { eexists; split; [reflexivity|]. repeat constructor; lia. }
  case_test (c <? 2048). { eexists; split; [reflexivity|]. repeat constructor; lia. }
  assert (Hs : (55296 <=? c) && (c <=? 57343) = false).
  { apply andb_false_iff. destruct Hc as [Hc|[Hc _]]; [left; apply N.leb_gt|right; apply N.leb_gt]; lia. }
  rewrite Hs.
  assert (Hm : (c <? 1114112) = true) by (apply N.ltb_lt; destruct Hc; lia).
  rewrite Hm.
  case_test (c <? 65536); (eexists; split; [reflexivity|]); repeat constructor; lia.
Qed.

Lemma utf8_encode_scalar s :
  Forall scalar_value s -> exists bs, Utf8.encode s = Some bs /\ Forall (fun b => b < 256) bs.
Proof.
  induction 1 as [|c s Hc _ IH]; simpl.
  - exists []. split; [reflexivity|constructor].
  - destruct (encode_cp_scalar c Hc) as (a & -> & Ha).
    destruct IH as (b & -> & Hb).
    exists (a ++ b). split; [reflexivity|]. apply Forall_app; auto.
Qed.

Import Base64.

Lemma sextet_table v : v < 64 -> sextet_ok v = true.
Proof.
  intros Hv.
  assert (Hall : forallb sextet_ok (map N.of_nat (seq 0 64)) = true)
    by (vm_compute; reflexivity).
  rewrite forallb_forall in Hall. apply Hall.
  rewrite <- (N2Nat.id v). apply in_map. apply in_seq. lia.
Qed.

Lemma list_ind3 {A} (P : list A -> Prop) :
  P [] -> (forall a, P [a]) -> (forall a b, P [a; b]) ->
  (forall a b c r, P r -> P (a :: b :: c :: r)) ->
  forall l, P l.
Proof.
  intros H0 H1 H2 H3.
  assert (H : forall l, P l /\ (forall a, P (a :: l)) /\ (forall a b, P (a :: b :: l))).
  { induction l as [|x l (IH0 & IH1 & IH2)]; [auto|].
    split; [apply IH1|]. split; [intros; apply IH2|]. intros; apply H3, IH0. }
  intros l; apply H.
Qed.

Lemma a2b_b2a v : v < 64 -> a2b (b2a v) = Some v.
Proof.
  intros Hv. pose proof (sextet_table v Hv) as H. unfold sextet_ok in H.
  repeat (apply andb_true_iff in H; destruct H as [H ?]).
  destruct (a2b (b2a v)); [|discriminate]. apply N.eqb_eq in H. congruence.
Qed.

Lemma b2a_not_pad v : v < 64 -> (b2a v =? pad) = false.
Proof.
  intros Hv. pose proof (sextet_table v Hv) as H. unfold sextet_ok in H.
  repeat (apply andb_true_iff in H; destruct H as [H ?]).
  by apply negb_true_iff.
Qed.

(** One data character of an encoding, as the decoder meets it. *)
Lemma a2b_loop_data v r q lc pads out :
  v < 64 ->
  a2b_loop (b2a v :: r) q lc pads out =
    if q =? 0 then a2b_loop r 1 v 0 out
    else if q =? 1 then a2b_loop r 2 (v mod 16) 0 ((lc * 4 + v / 16) :: out)
    else if q =? 2 then a2b_loop r 3 (v mod 4) 0 ((lc * 16 + v / 4) :: out)
    else a2b_loop r 0 0 0 ((lc * 64 + v) :: out).
Proof.
  intros Hv. cbn [a2b_loop]. rewrite b2a_not_pad, a2b_b2a by done. reflexivity.
Qed.

Lemma b64decode_encode_gen bs :
  Forall (fun b => b < 256) bs ->
  forall lc pads out,
    a2b_loop (b64encode bs) 0 lc pads out = Some (rev out ++ bs).
Proof.
  induction bs as [|a|a b|a b c r IH] using list_ind3; intros Hbs lc pads out.
  - simpl. by rewrite app_nil_r.
  - apply Forall_cons in Hbs as [Ha _].
    cbn [b64encode]. rewrite !a2b_loop_data by lia. cbn.
    do 2 f_equal. f_equal. lia.
  - apply Forall_cons in Hbs as [Ha Hbs]. apply Forall_cons in Hbs as [Hb _].
    cbn [b64encode]. rewrite !a2b_loop_data by lia. cbn.
    rewrite <- app_assoc. cbn. do 2 f_equal. f_equal; [lia|]. f_equal. lia.
  - apply Forall_cons in Hbs as [Ha Hbs]. apply Forall_cons in Hbs as [Hb Hbs].
    apply Forall_cons in Hbs as [Hc Hbs].
    cbn [b64encode]. rewrite !a2b_loop_data by lia. cbn [N.eqb Pos.eqb].
    rewrite IH by done. cbn [rev]. rewrite <- !app_assoc. cbn [app].
    do 2 f_equal. f_equal; [lia|]. f_equal; [lia|]. f_equal. lia.
Qed.

(** The text of an encoding: data characters, then at most two pads,
    a multiple of four characters in all. *)
Lemma b64encode_shape bs :
  Forall (fun b => b < 256) bs ->
  exists body k,
    b64encode bs = body ++ repeat pad k
    /\ Forall (fun ch => exists v, v < 64 /\ ch = b2a v) body
    /\ ((length body + k) mod 4 = 0)%nat /\ (k <= 2)%nat.
Proof.
  induction bs as [|a|a b|a b c r IH] using list_ind3; intros Hbs;
    repeat match type of Hbs with
           | Forall _ (_ :: _) => apply Forall_cons in Hbs as [? Hbs]
           end.
  - exists [], 0%nat. repeat split; auto.
  - exists [b2a (a / 4); b2a (a mod 4 * 16)], 2%nat.
    repeat split; auto.
    repeat (constructor; [eexists; (split; [|reflexivity]); lia|]). constructor.
  - exists [b2a (a / 4); b2a (a mod 4 * 16 + b / 16); b2a (b mod 16 * 4)], 1%nat.
    repeat split; auto.
    repeat (constructor; [eexists; (split; [|reflexivity]); lia|]). constructor.
  - destruct (IH Hbs) as (body & k & E & Hb & Hl & Hk).
    exists (b2a (a / 4) :: b2a (a mod 4 * 16 + b / 16)
            :: b2a (b mod 16 * 4 + c / 64) :: b2a (c mod 64) :: body), k.
    cbn [b64encode]. rewrite E. repeat split; auto.
    + repeat (constructor; [eexists; (split; [|reflexivity]); lia|]). exact Hb.
    + cbn [length]. lia.
Qed.

Lemma rstrip_repeat ch body k :
  Forall (fun c => c <> ch) body -> rstrip ch (body ++ repeat ch k) = body.
Proof.
  induction 1 as [|c body Hc _ IH]; cbn [app].
  - induction k as [|k IHk]; [reflexivity|].
    cbn [repeat rstrip]. rewrite IHk, N.eqb_refl. reflexivity.
  - cbn [rstrip]. rewrite IH. destruct body; [|reflexivity].
    apply N.eqb_neq in Hc. by rewrite Hc.
Qed.

Lemma ascii_only_ok s : Forall (fun c => c < 128) s -> ascii_only s = Some s.
Proof.
  intros H. unfold ascii_only.
  replace (forallb (fun c => c <? 128) s) with true; [reflexivity|].
  symmetry. apply forallb_forall. intros c Hc. apply N.ltb_lt.
  rewrite Forall_forall in H. apply H. by apply list_elem_of_In.
Qed.

Lemma neg_mod4_pad n k :
  ((n + k) mod 4 = 0)%nat -> (k <= 2)%nat -> neg_mod4 n = k.
Proof. unfold neg_mod4. intros. lia. Qed.

Lemma url_token_char_spec c :
  url_token_char c = true -> c < 128 /\ c <> 47 /\ c <> pad.
Proof.
  unfold url_token_char, pad. intros H.
  repeat (apply orb_true_iff in H; destruct H as [H|H]);
    bool_to_prop; lia.
Qed.

Lemma urlsafe_body body :
  Forall (fun ch => exists v, v < 64 /\ ch = b2a v) body ->
  Forall (fun c => url_token_char c = true) (map urlsafe_encode_translation body)
  /\ map urlsafe_decode_translation (map urlsafe_encode_translation body) = body.
Proof.
  induction 1 as [|ch body (v & Hv & ->) _ [IH1 IH2]]; [split; [constructor|reflexivity]|].
  pose proof (sextet_table v Hv) as H. unfold sextet_ok in H.
  repeat (apply andb_true_iff in H; destruct H as [H ?]).
  bool_to_prop. cbn [map]. split.
  - constructor; assumption.
  - rewrite IH2. f_equal. assumption.
Qed.

Lemma map_repeat_pad f k : f pad = pad -> map f (repeat pad k) = repeat pad k.
Proof. intros Hf. induction k; cbn; [done|]. by rewrite Hf, IHk. Qed.

(** C1. Every string of code points that has a UTF-8 form is encoded to a
    token, the same token each time it is encoded; decoding that token
    gives the string back; and the token is made of letters, digits, [-]
    and [_] only, so it holds no [/] and no [=]. *)
Theorem codec_round_trip (p : list N) :
  Forall scalar_value p ->
  exists t,
    b64url_encode_path p = Some t
    /\ (forall q, q = p -> b64url_encode_path q = Some t)
    /\ b64url_decode_path t = Some p
    /\ Forall (fun c => url_token_char c = true /\ c <> 47 /\ c <> pad) t.
Proof.
  intros Hp.
  destruct (utf8_encode_scalar p Hp) as (raw & Eraw & Hraw).
  destruct (b64encode_shape raw Hraw) as (body & k & Eenc & Hbody & Hlen & Hk).
  destruct (urlsafe_body body Hbody) as [Htok Hinv].
  set (tok := map urlsafe_encode_translation body) in *.
  assert (Hurl : urlsafe_b64encode raw = tok ++ repeat pad k).
  { unfold urlsafe_b64encode. rewrite Eenc, map_app, map_repeat_pad; done. }
  assert (Hascii : Forall (fun c => c < 128) (tok ++ repeat pad k)).
  { apply Forall_app. split.
    - eapply Forall_impl; [exact Htok|]. by intros c [? _]%url_token_char_spec.
    - apply Forall_forall. intros c Hc%list_elem_of_In%repeat_spec. subst c.
      unfold pad. lia. }
  assert (Hstrip : rstrip pad (tok ++ repeat pad k) = tok).
  { apply rstrip_repeat. eapply Forall_impl; [exact Htok|].
    by intros c (_ & _ & ?)%url_token_char_spec. }
  assert (Henc : b64url_encode_path p = Some tok).
  { unfold b64url_encode_path. rewrite Eraw. cbn.
    rewrite Hurl, (ascii_only_ok _ Hascii). cbn. by rewrite Hstrip. }
  exists tok. split; [exact Henc|]. split; [by intros q ->|]. split.
  - unfold b64url_decode_path, urlsafe_b64decode.
    assert (Hn : neg_mod4 (length tok) = k).
    { apply neg_mod4_pad; [|done]. unfold tok. by rewrite length_map. }
    rewrite Hn, (ascii_only_ok _ Hascii). cbn.
    rewrite map_app, Hinv, map_repeat_pad by done. rewrite <- Eenc.
    unfold b64decode. rewrite b64decode_encode_gen by done. cbn.
    by apply utf8_decode_encode.
  - eapply Forall_impl; [exact Htok|].
    intros c Hc. split; [done|]. by destruct (url_token_char_spec c Hc) as (_ & ? & ?).
Qed.

Lemma codec_round_trip_witness :
  Forall scalar_value [47; 0xFF; 0x20AC; 0x1F600]
  /\ exists t,
      b64url_encode_path [47; 0xFF; 0x20AC; 0x1F600] = Some t
      /\ (forall q, q = [47; 0xFF; 0x20AC; 0x1F600] -> b64url_encode_path q = Some t)
      /\ b64url_decode_path t = Some [47; 0xFF; 0x20AC; 0x1F600]
      /\ Forall (fun c => url_token_char c = true /\ c <> 47 /\ c <> pad) t.
Proof.
  assert (H : Forall scalar_value [47; 0xFF; 0x20AC; 0x1F600]).
  { repeat constructor; unfold scalar_value; lia. }
  split; [exact H|]. exact (codec_round_trip _ H).
Defined.

(** ** Texts and numbers *)

Lemma partition_found sep a b :
  Forall (fun c => c <> sep) a ->
  partition sep (a ++ sep :: b) = (a, [sep], b).
Proof.
  induction 1 as [|c a Hc _ IH]; cbn [app partition].
  - by rewrite N.eqb_refl.
  - apply N.eqb_neq in Hc. by rewrite Hc, IH.
Qed.

Lemma digits_value_digits ds acc b :
  Forall (fun d => is_digit d = true) ds ->
  ds <> [] \/ b = true ->
  digits_value ds acc b = Some (fold_left digit_step ds acc).
Proof.
  intros Hds. revert acc b. induction Hds as [|d ds Hd _ IH]; intros acc b Hne.
  - destruct Hne as [?| ->]; [done|reflexivity].
  - cbn [digits_value fold_left]. unfold decimal. rewrite Hd.
    apply IH. by right.
Qed.

Lemma digits_of_spec fuel : forall n acc,
  n < 2 ^ N.of_nat fuel ->
  Forall (fun d => is_digit d = true) acc ->
  Forall (fun d => is_digit d = true) (digits_of fuel n acc)
  /\ fold_left digit_step (digits_of fuel n acc) 0 = fold_left digit_step acc n
  /\ (fuel <> 0%nat -> exists d r, digits_of fuel n acc = d :: r).
Proof.
  induction fuel as [|f IH]; intros n acc Hn Hacc.
  - cbn in Hn. assert (n = 0) as -> by lia. cbn. split; [done|]. split; done.
  - cbn [digits_of].
    assert (Hd : is_digit (48 + n mod 10) = true).
    { unfold is_digit. apply andb_true_iff. split; apply N.leb_le; lia. }
    destruct (n <? 10) eqn:E; bool_to_prop.
    + split; [by constructor|]. split; [|eauto].
      cbn [fold_left]. unfold digit_step at 2. f_equal. lia.
    + assert (Hn' : n / 10 < 2 ^ N.of_nat f).
      { rewrite Nat2N.inj_succ, N.pow_succ_r' in Hn.
        apply N.Div0.div_lt_upper_bound. lia. }
      destruct (IH (n / 10) ((48 + n mod 10) :: acc) Hn' ltac:(by constructor))
        as (H1 & H2 & H3).
      split; [exact H1|]. split.
      * rewrite H2. cbn [fold_left]. unfold digit_step at 2. f_equal. lia.
      * intros _. destruct f as [|f'].
        -- cbn in Hn'. lia.
        -- by apply H3.
Qed.

Lemma str_of_N_spec n :
  Forall (fun d => is_digit d = true) (str_of_N n)
  /\ fold_left digit_step (str_of_N n) 0 = n
  /\ exists d r, str_of_N n = d :: r.
Proof.
  unfold str_of_N.
  assert (Hn : n < 2 ^ N.of_nat (S (N.to_nat (N.log2 n)))).
  { rewrite Nat2N.inj_succ, N2Nat.id.
    destruct n as [|p]; [cbn; lia|]. apply N.log2_spec. lia. }
  destruct (digits_of_spec _ n [] Hn ltac:(constructor)) as (H1 & H2 & H3).
  split; [exact H1|]. split; [exact H2|]. by apply H3.
Qed.

Lemma is_digit_not_space d : is_digit d = true -> is_space d = false.
Proof.
  unfold is_digit, is_space. intros Hd. bool_to_prop.
  repeat (apply orb_false_iff; split);
    try (apply andb_false_iff; first [left; apply N.leb_gt; lia | right; apply N.leb_gt; lia]);
    apply N.eqb_neq; lia.
Qed.

Lemma lstrip_space_id c s : is_space c = false -> lstrip_space (c :: s) = c :: s.
Proof. intros Hc. cbn. by rewrite Hc. Qed.

Lemma strip_space_id s :
  Forall (fun c => is_space c = false) s -> strip_space s = s.
Proof.
  intros Hs. unfold strip_space.
  assert (Hl : forall t, Forall (fun c => is_space c = false) t -> lstrip_space t = t).
  { intros t Ht. destruct Ht as [|c t Hc _]; [reflexivity|].
    by apply lstrip_space_id. }
  rewrite (Hl s Hs), Hl, rev_involutive; [reflexivity|].
  by apply Forall_rev.
Qed.

Lemma digits_not_space s :
  Forall (fun d => is_digit d = true) s -> Forall (fun c => is_space c = false) s.
Proof. intros Hs. eapply Forall_impl; [exact Hs|]. intros d. apply is_digit_not_space. Qed.

(** [int(str(n)) == n]. *)
Lemma py_int_str_of_N n : py_int (str_of_N n) = Some (Z.of_N n).
Proof.
  destruct (str_of_N_spec n) as (Hd & Hv & d & r & E).
  unfold py_int. rewrite (strip_space_id _ (digits_not_space _ Hd)). rewrite E in *.
  assert (Hd0 : is_digit d = true) by (by inversion Hd).
  unfold is_digit in Hd0. bool_to_prop.
  rewrite !eqb_false by lia.
  rewrite digits_value_digits by (auto; by left). by rewrite Hv.
Qed.

Lemma py_int_str_of_Z z : py_int (str_of_Z z) = Some z.
Proof.
  destruct z as [|p|p]; cbn [str_of_Z].
  - apply py_int_str_of_N.
  - rewrite py_int_str_of_N. reflexivity.
  - destruct (str_of_N_spec (N.pos p)) as (Hd & Hv & d & r & E).
    unfold py_int. rewrite strip_space_id.
    2:{ constructor; [reflexivity|]. by apply digits_not_space. }
    change (45 =? 43) with false. change (45 =? 45) with true. cbn match.
    rewrite E in *.
    rewrite digits_value_digits by (auto; by left). rewrite Hv. reflexivity.
Qed.

Lemma str_of_Z_nonneg_digits z :
  (0 <= z)%Z -> Forall (fun d => is_digit d = true) (str_of_Z z) /\ str_of_Z z <> [].
Proof.
  intros Hz.
  assert (E : str_of_Z z = str_of_N (Z.to_N z)) by (destruct z; [done|done|lia]).
  rewrite E. destruct (str_of_N_spec (Z.to_N z)) as (Hd & _ & d & r & E').
  split; [exact Hd|]. by rewrite E'.
Qed.
(** ** The range responder *)

Ltac run_m :=
  unfold mbind, M_bind, bind, mret, M_ret, ret, raise, try_except;
  cbn beta iota.

Lemma is_digit_neq d c :
  is_digit d = true -> is_digit c = false -> d <> c.
Proof. intros Hd Hc ->. congruence. Qed.

Lemma range_of_header_bounds start e size :
  (0 <= start)%Z -> (0 <= e)%Z ->
  range_of_header (lit "bytes=" ++ str_of_Z start ++ lit "-" ++ str_of_Z e) size
  = Some (start, if (size <=? e)%Z then (size - 1)%Z else e,
          ((if (size <=? e)%Z then (size - 1)%Z else e) - start + 1)%Z).
Proof.
  intros Hs He.
  destruct (str_of_Z_nonneg_digits start Hs) as [Hds Hns].
  destruct (str_of_Z_nonneg_digits e He) as [Hde Hne].
  unfold range_of_header.
  change (lit "bytes=" ++ ?x) with (lit "bytes" ++ 61 :: x).
  rewrite partition_found.
  2:{ repeat constructor; done. }
  rewrite bool_decide_false by (intros Hq; by apply Hq).
  change (lit "-" ++ ?x) with (45 :: x).
  rewrite partition_found.
  2:{ eapply Forall_impl; [exact Hds|]. intros d Hd. by apply is_digit_neq. }
  destruct (str_of_Z start) as [|d0 r0] eqn:Es; [done|]. rewrite <- Es.
  destruct (str_of_Z e) as [|d1 r1] eqn:Ee; [done|]. rewrite <- Ee.
  rewrite !py_int_str_of_Z. reflexivity.
Qed.

Section RangeResponder.
Context `{Env}.

(** C4. For a file of size [S] and a request [bytes=start-e] with
    [0 <= start <= e] and [start < S], the responder answers 206 with
    the bytes from [start] to [end = min e (S-1)] inclusive, the header
    [Content-Range: bytes start-end/S] and [Content-Length] equal to
    [end - start + 1]: a bound [e] below [S] is served as asked, a bound
    at or past [S] is clamped to [S - 1]. *)
Theorem send_file_range_partial req path mt content w start e :
  fs w !! path = Some content ->
  range_header req
    = Some (lit "bytes=" ++ str_of_Z start ++ lit "-" ++ str_of_Z e) ->
  (0 <= start)%Z -> (start <= e)%Z -> (start < Z.of_nat (length content))%Z ->
  let size := Z.of_nat (length content) in
  let end_ := Z.min e (size - 1) in
  let data := take (Z.to_nat (end_ - start + 1)) (drop (Z.to_nat start) content) in
  send_file_range req path mt w
  = (Returned
       (mkResponse 206 (BBytes data) mt
          [(lit "Content-Range",
            lit "bytes " ++ str_of_Z start ++ lit "-" ++ str_of_Z end_
            ++ lit "/" ++ str_of_Z size);
           (lit "Accept-Ranges", lit "bytes");
           (lit "Content-Length", str_of_Z (end_ - start + 1));
           (lit "Cache-Control", lit "no-store")]), w)
  /\ Z.of_nat (length data) = (end_ - start + 1)%Z
  /\ (forall i, (i < length data)%nat ->
                data !! i = content !! (Z.to_nat start + i)%nat).
Proof.
  intros Hfs Hh Hs Hse Hlt size end_ data.
  assert (Hend : (if (size <=? e)%Z then (size - 1)%Z else e) = end_).
  { unfold end_. destruct (size <=? e)%Z eqn:E; lia. }
  split; [|split].
  - unfold send_file_range. rewrite Hfs, Hh.
    change (lit "bytes=" ++ ?x) with (98 :: 121 :: 116 :: 101 :: 115 :: 61 :: x).
    cbn match.
    change (98 :: 121 :: 116 :: 101 :: 115 :: 61 :: ?x) with (lit "bytes=" ++ x).
    rewrite range_of_header_bounds by lia. fold size. rewrite Hend.
    unfold seek_read. run_m.
    assert (Es : (start <? 0)%Z = false) by lia. rewrite Es.
    assert (El1 : (end_ - start + 1 <? -1)%Z = false) by lia. rewrite El1.
    assert (El : (end_ - start + 1 <? 0)%Z = false) by lia. rewrite El.
    run_m. reflexivity.
  - unfold data. rewrite length_take, length_drop. lia.
  - intros i Hi. unfold data. unfold data in Hi.
    rewrite length_take in Hi.
    rewrite lookup_take_lt by lia. by rewrite lookup_drop.
Qed.

End RangeResponder.

Lemma send_file_range_partial_witness :
  let req := mkRequest (Some (lit "bytes=" ++ str_of_Z 2 ++ lit "-" ++ str_of_Z 99)) [] None None in
  let w := mkWorld {[ lit "/f" := lit "0123456789" ]} [] in
  send_file_range (H := sample_env) req (lit "/f") (Some (lit "audio/wav")) w
  = (Returned
       (mkResponse 206 (BBytes (lit "23456789")) (Some (lit "audio/wav"))
          [(lit "Content-Range", lit "bytes 2-9/10");
           (lit "Accept-Ranges", lit "bytes");
           (lit "Content-Length", lit "8");
           (lit "Cache-Control", lit "no-store")]), w).
Proof.
  intros req w.
  exact (proj1 (send_file_range_partial (H := sample_env) req (lit "/f")
                  (Some (lit "audio/wav")) (lit "0123456789") w 2 99
                  eq_refl eq_refl ltac:(lia) ltac:(lia) ltac:(cbn; lia))).
Defined.
(** C5. A start past the end of the file is never brought back into
    the file.  At the request [bytes=999999-] on a file of ten bytes only
    the end is clamped, the length computed is [9 - 999999 + 1], and
    [read] refuses it: the responder raises and sends no [Content-Range]
    at all.  At [bytes=10-] on the same file it answers 206 with no bytes
    and [Content-Range: bytes 10-9/10].  In both cases the start served
    was to be [min(start, S - 1) = 9]. *)
Example send_file_range_start_past_end :
  let w := mkWorld {[ lit "/f" := lit "0123456789" ]} [] in
  let ask h :=
    send_file_range (H := sample_env) (mkRequest (Some (lit h)) [] None None)
      (lit "/f") (Some (lit "audio/wav")) w in
  ask "bytes=999999-"%string
  = (Raised (lit "read length must be non-negative or -1"), w)
  /\ ask "bytes=10-"%string
     = (Returned
          (mkResponse 206 (BBytes []) (Some (lit "audio/wav"))
             [(lit "Content-Range", lit "bytes 10-9/10");
              (lit "Accept-Ranges", lit "bytes");
              (lit "Content-Length", lit "0");
              (lit "Cache-Control", lit "no-store")]), w).
Proof. vm_compute. split; reflexivity. Qed.

(** The header [bytes=start-] as the responder reads it. *)
Lemma range_of_header_from `{Env} start size :
  (0 <= start)%Z -> (0 <= size)%Z ->
  range_of_header (lit "bytes=" ++ str_of_Z start ++ lit "-") size
  = Some (start, (size - 1)%Z, (size - start)%Z).
Proof.
  intros Hs Hsize.
  destruct (str_of_Z_nonneg_digits start Hs) as [Hds Hns].
  unfold range_of_header.
  change (lit "bytes=" ++ ?x) with (lit "bytes" ++ 61 :: x).
  rewrite partition_found by (repeat constructor; done).
  rewrite bool_decide_false by (intros Hq; by apply Hq).
  change (lit "-") with (45 :: []).
  rewrite partition_found.
  2:{ eapply Forall_impl; [exact Hds|]. intros d Hd. by apply is_digit_neq. }
  destruct (str_of_Z start) as [|d0 r0] eqn:Es; [done|]. rewrite <- Es.
  rewrite py_int_str_of_Z. cbn [mbind option_bind].
  assert (E : (size <=? size - 1)%Z = false) by lia. rewrite E.
  do 3 f_equal. lia.
Qed.

(** The same at every file: a start two bytes or more past the end makes
    the responder raise, whatever the file. *)
Lemma send_file_range_start_far_past_end `{Env} req path mt content w start :
  fs w !! path = Some content ->
  range_header req = Some (lit "bytes=" ++ str_of_Z start ++ lit "-") ->
  (Z.of_nat (length content) + 2 <= start)%Z ->
  send_file_range req path mt w
  = (Raised (lit "read length must be non-negative or -1"), w).
Proof.
  intros Hfs Hh Hge.
  unfold send_file_range. rewrite Hfs, Hh.
  change (lit "bytes=" ++ ?x) with (98 :: 121 :: 116 :: 101 :: 115 :: 61 :: x).
  cbn match.
  change (98 :: 121 :: 116 :: 101 :: 115 :: 61 :: ?x) with (lit "bytes=" ++ x).
  rewrite range_of_header_from by lia. unfold seek_read. run_m.
  assert (E0 : (start <? 0)%Z = false) by lia. rewrite E0.
  assert (E1 : (Z.of_nat (length content) - start <? -1)%Z = true) by lia.
  by rewrite E1.
Qed.

(** A start at the end of the file or one byte past it is reported as
    asked, with a length of zero or [-1] and no byte sent. *)
Lemma send_file_range_start_unclamped `{Env} req path mt content w start :
  fs w !! path = Some content ->
  range_header req = Some (lit "bytes=" ++ str_of_Z start ++ lit "-") ->
  (Z.of_nat (length content) <= start <= Z.of_nat (length content) + 1)%Z ->
  let size := Z.of_nat (length content) in
  send_file_range req path mt w
  = (Returned
       (mkResponse 206 (BBytes []) mt
          [(lit "Content-Range",
            lit "bytes " ++ str_of_Z start ++ lit "-" ++ str_of_Z (size - 1)
            ++ lit "/" ++ str_of_Z size);
           (lit "Accept-Ranges", lit "bytes");
           (lit "Content-Length", str_of_Z (size - start));
           (lit "Cache-Control", lit "no-store")]), w).
Proof.
  intros Hfs Hh Hge size.
  unfold send_file_range. rewrite Hfs, Hh.
  change (lit "bytes=" ++ ?x) with (98 :: 121 :: 116 :: 101 :: 115 :: 61 :: x).
  cbn match.
  change (98 :: 121 :: 116 :: 101 :: 115 :: 61 :: ?x) with (lit "bytes=" ++ x).
  rewrite range_of_header_from by lia. fold size. unfold seek_read. run_m.
  assert (E0 : (start <? 0)%Z = false) by lia. rewrite E0.
  assert (E1 : (size - start <? -1)%Z = false) by lia. rewrite E1. run_m.
  rewrite drop_ge by lia.
  destruct (size - start <? 0)%Z; [reflexivity|]. by rewrite take_nil.
Qed.

Section RangeFallback.
Context `{Env}.

Lemma set_header_keeps {F} (n v n' v' : list N) (r : Response F) :
  n <> n' ->
  In (n, v) (headers r) -> In (n, v) (headers (set_header n' v' r)).
Proof.
  intros Hne Hin. unfold set_header. cbn [headers].
  apply in_or_app. left. apply list_elem_of_In, list_elem_of_filter.
  split; [exact Hne|]. by apply list_elem_of_In.
Qed.

Lemma set_header_sets {F} (n v : list N) (r : Response F) :
  In (n, v) (headers (set_header n v r)).
Proof. unfold set_header. cbn [headers]. apply in_or_app. right. by left. Qed.

(** A header the responder cannot read is handed on, with the request
    as it is, to [send_file]. *)
Lemma send_file_range_unread req path mt content w h :
  fs w !! path = Some content ->
  range_header req = Some h ->
  range_of_header h (Z.of_nat (length content)) = None ->
  send_file_range req path mt w = full_file req path mt w.
Proof.
  intros Hfs Hh Hnone. unfold send_file_range. rewrite Hfs, Hh.
  destruct h as [|c h']; [reflexivity|]. by rewrite Hnone.
Qed.

(** A Range header that the framework cannot satisfy on a file that is
    not empty makes [send_file] raise, and nothing catches it. *)
Lemma full_file_unsatisfiable req path mt content w h :
  fs w !! path = Some content ->
  content <> [] ->
  range_header req = Some h ->
  (pr ← parse_range_header h;
   range_for_length pr.1 pr.2 (Z.of_nat (length content))) = None ->
  full_file req path mt w
  = (Raised (lit "416 Requested Range Not Satisfiable"), w).
Proof.
  intros Hfs Hne Hh Hnone. unfold full_file, send_file. rewrite Hfs, Hh.
  assert (E : (Z.of_nat (length content) =? 0)%Z = false).
  { apply Z.eqb_neq. destruct content; [done|]. cbn [length]. lia. }
  rewrite E. by rewrite Hnone.
Qed.

Lemma lstrip_space_keeps c x s :
  is_space c = false -> exists y, lstrip_space (x ++ c :: s) = y ++ c :: s.
Proof.
  intros Hc. induction x as [|d x IH]; cbn [app lstrip_space].
  - exists []. by rewrite Hc.
  - destruct (is_space d); [exact IH|]. by exists (d :: x).
Qed.

Lemma lstrip_keeps c x s :
  is_blank c = false -> exists y, lstrip (x ++ c :: s) = y ++ c :: s.
Proof.
  intros Hc. induction x as [|d x IH]; cbn [app lstrip].
  - exists []. by rewrite Hc.
  - destruct (is_blank d); [exact IH|]. by exists (d :: x).
Qed.

(** Stripping keeps a text from its first character on, when that is no
    blank, up to a later character that is no blank either. *)
Lemma strip_space_head c a :
  is_space c = false -> exists y, strip_space (c :: a) = c :: y.
Proof.
  intros Hc. unfold strip_space. cbn [lstrip_space]. rewrite Hc.
  cbn [rev]. destruct (lstrip_space_keeps c (rev a) [] Hc) as [y Ey].
  rewrite Ey, rev_app_distr. cbn [rev app]. by exists (rev y).
Qed.

Lemma strip_head c a :
  is_blank c = false -> exists y, strip (c :: a) = c :: y.
Proof.
  intros Hc. unfold strip. cbn [lstrip]. rewrite Hc.
  cbn [rev]. destruct (lstrip_keeps c (rev a) [] Hc) as [y Ey].
  rewrite Ey, rev_app_distr. cbn [rev app]. by exists (rev y).
Qed.

Lemma strip_upto c a d b :
  is_blank c = false -> is_blank d = false ->
  exists b', strip (c :: a ++ d :: b) = c :: a ++ d :: b'.
Proof.
  intros Hc Hd. unfold strip. cbn [lstrip]. rewrite Hc.
  change (c :: a ++ d :: b) with ((c :: a) ++ d :: b).
  rewrite rev_app_distr. cbn [rev]. rewrite <- app_assoc. cbn [app].
  destruct (lstrip_keeps d (rev b) (rev a ++ [c]) Hd) as [y Ey].
  rewrite Ey, rev_app_distr. cbn [rev]. rewrite rev_app_distr, rev_involutive.
  cbn [rev app]. rewrite <- app_assoc. cbn [app]. by exists (rev y).
Qed.

Lemma split_on_nonempty sep s : split_on sep s <> [].
Proof.
  destruct s as [|c s]; cbn [split_on]; [done|].
  destruct (c =? sep); [done|]. by destruct (split_on sep s).
Qed.

Lemma split_on_none sep s :
  Forall (fun c => c <> sep) s -> split_on sep s = [s].
Proof.
  induction 1 as [|c s Hc _ IH]; [reflexivity|].
  cbn [split_on]. apply N.eqb_neq in Hc. by rewrite Hc, IH.
Qed.

Lemma contains_app c a b : contains c (a ++ c :: b) = true.
Proof.
  unfold contains. rewrite existsb_app. cbn [existsb].
  by rewrite N.eqb_refl, orb_true_r.
Qed.

(** A text that begins with an ASCII letter is a number neither for
    [int()] nor for the framework. *)
Lemma py_int_letter c a :
  (65 <= c <= 90 \/ 97 <= c <= 122) -> py_int (c :: a) = None.
Proof.
  intros Hc.
  assert (Hs : is_space c = false).
  { unfold is_space. repeat (apply orb_false_intro); try (apply andb_false_iff);
      try (apply N.eqb_neq; lia).
    all: first [left; apply N.leb_gt; lia | right; apply N.leb_gt; lia]. }
  destruct (strip_space_head c a Hs) as [y Ey].
  unfold py_int. rewrite Ey.
  assert (E1 : (c =? 43) = false) by (apply N.eqb_neq; lia).
  assert (E2 : (c =? 45) = false) by (apply N.eqb_neq; lia).
  rewrite E1, E2. cbn [digits_value]. unfold decimal.
  assert (E3 : is_digit c = false).
  { unfold is_digit. apply andb_false_iff. right. apply N.leb_gt. lia. }
  assert (E4 : (c <? 128) = true) by (apply N.ltb_lt; lia).
  rewrite E3, E4. by rewrite andb_false_r.
Qed.

Lemma letter_not_blank c :
  (65 <= c <= 90 \/ 97 <= c <= 122) -> is_blank c = false.
Proof.
  intros Hc. unfold is_blank, is_space.
  repeat (apply orb_false_intro); try (apply andb_false_iff);
    try (apply N.eqb_neq; lia).
  all: first [left; apply N.leb_gt; lia | right; apply N.leb_gt; lia].
Qed.

Lemma plain_int_letter c a :
  (65 <= c <= 90 \/ 97 <= c <= 122) -> plain_int (c :: a) = None.
Proof.
  intros Hc. destruct (strip_head c a (letter_not_blank c Hc)) as [y Ey].
  unfold plain_int. rewrite Ey.
  assert (E3 : is_digit c = false).
  { unfold is_digit. apply andb_false_iff. right. apply N.leb_gt. lia. }
  assert (E45 : (c =? 45) = false) by (apply N.eqb_neq; lia).
  rewrite E45. cbn [forallb]. rewrite E3. by rewrite andb_false_r.
Qed.

(** C6. A Range header that the responder cannot read does not get the
    whole file with status 200.  The fallback hands the request, Range
    header included, to Flask's [send_file] with [conditional=True],
    which reads the header itself: on a file that is not empty, a header
    that is not empty and whose unit is not [bytes] in any spelling, and
    a header [bytes=a-b] whose first bound begins with a letter, make it
    raise [RequestedRangeNotSatisfiable] (status 416), and the responder
    does not catch it. *)
Theorem send_file_range_malformed req path mt content w h :
  fs w !! path = Some content ->
  content <> [] ->
  range_header req = Some h ->
  h <> [] ->
  (map ascii_lower (strip (partition 61 h).1.1) <> lit "bytes"
   \/ exists c a b,
        h = lit "bytes=" ++ c :: a ++ lit "-" ++ b
        /\ (65 <= c <= 90 \/ 97 <= c <= 122)
        /\ Forall (fun x => x <> 45 /\ x <> 44 /\ x <> 61) a
        /\ Forall (fun x => x <> 44) b) ->
  send_file_range req path mt w
  = (Raised (lit "416 Requested Range Not Satisfiable"), w).
Proof.
  intros Hfs Hne Hh _ [Hunit|(c & a & b & -> & Hc & Ha & Hb)].
  - rewrite (send_file_range_unread req path mt content w h Hfs Hh).
    + apply (full_file_unsatisfiable req path mt content w h Hfs Hne Hh).
      unfold parse_range_header. destruct (contains 61 h); [|reflexivity].
      cbn [negb]. destruct (partition 61 h) as [[units sep] spec].
      cbn [fst snd] in Hunit.
      destruct (parse_range_items (split_on 44 spec) 0) as [ranges|];
        [|reflexivity].
      cbn [mbind option_bind fst snd]. unfold range_for_length.
      by rewrite bool_decide_true.
    + unfold range_of_header. destruct (partition 61 h) as [[units sep] spec].
      cbn [fst snd] in Hunit. rewrite bool_decide_true; [reflexivity|].
      intros ->. by apply Hunit.
  - assert (Hc45 : c <> 45) by lia. assert (Hc44 : c <> 44) by lia.
    assert (Hp : partition 61 (lit "bytes=" ++ c :: a ++ lit "-" ++ b)
                 = (lit "bytes", [61], c :: a ++ 45 :: b)).
    { change (lit "bytes=" ++ ?x) with (lit "bytes" ++ 61 :: x).
      apply partition_found. repeat constructor; done. }
    assert (Hp' : forall b', partition 45 (c :: a ++ 45 :: b') = (c :: a, [45], b')).
    { intros b'. change (c :: a ++ 45 :: b') with ((c :: a) ++ 45 :: b').
      apply partition_found. constructor; [done|].
      eapply Forall_impl; [exact Ha|]. by intros x (? & _). }
    rewrite (send_file_range_unread req path mt content w _ Hfs Hh).
    + apply (full_file_unsatisfiable req path mt content w _ Hfs Hne Hh).
      unfold parse_range_header.
      change (lit "bytes=" ++ ?x) with (lit "bytes" ++ 61 :: x) at 1.
      rewrite contains_app. cbn [negb]. rewrite Hp.
      rewrite split_on_none.
      2:{ constructor; [done|]. apply Forall_app. split.
          - eapply Forall_impl; [exact Ha|]. by intros x (_ & ? & _).
          - constructor; [done|exact Hb]. }
      cbn [parse_range_items]. unfold parse_range_item.
      destruct (strip_upto c a 45 b (letter_not_blank c Hc) eq_refl) as [b' Eb].
      rewrite Eb.
      change (c :: a ++ 45 :: b') with ((c :: a) ++ 45 :: b') at 1.
      rewrite contains_app. cbn [negb].
      cbn [take]. rewrite bool_decide_false by (intros [=]; lia).
      rewrite Hp'. by rewrite plain_int_letter.
    + unfold range_of_header. rewrite Hp.
      rewrite bool_decide_false by (intros Hq; by apply Hq).
      change (lit "-") with (45 :: []). cbn [app]. rewrite Hp'.
      by rewrite py_int_letter.
Qed.

End RangeFallback.

Lemma send_file_range_malformed_witness :
  let w := mkWorld {[ lit "/f" := lit "0123456789" ]} [] in
  let ask h :=
    send_file_range (H := sample_env) (mkRequest (Some (lit h)) [] None None)
      (lit "/f") None w in
  ask "items=0-5"%string
  = (Raised (lit "416 Requested Range Not Satisfiable"), w)
  /\ ask "bytes=abc-def"%string
     = (Raised (lit "416 Requested Range Not Satisfiable"), w).
Proof.
  intros w ask. split.
  - apply (send_file_range_malformed (H := sample_env)
             (mkRequest (Some (lit "items=0-5")) [] None None) (lit "/f") None
             (lit "0123456789") w (lit "items=0-5"));
      [reflexivity|discriminate|reflexivity|discriminate|].
    left. vm_compute. discriminate.
  - apply (send_file_range_malformed (H := sample_env)
             (mkRequest (Some (lit "bytes=abc-def")) [] None None) (lit "/f") None
             (lit "0123456789") w (lit "bytes=abc-def"));
      [reflexivity|discriminate|reflexivity|discriminate|].
    right. exists 97, (lit "bc"), (lit "def").
    split; [reflexivity|]. split; [lia|].
    split; repeat constructor; discriminate.
Defined.
(** The 206 answer for a range that was read. *)
Lemma send_file_range_parsed `{Env} req path mt content w h start end_ len :
  fs w !! path = Some content ->
  range_header req = Some h ->
  h <> [] ->
  range_of_header h (Z.of_nat (length content)) = Some (start, end_, len) ->
  (0 <= start)%Z ->
  (-1 <= len)%Z ->
  send_file_range req path mt w
  = (Returned
       (mkResponse 206
          (BBytes (if (len <? 0)%Z then drop (Z.to_nat start) content
                   else take (Z.to_nat len) (drop (Z.to_nat start) content)))
          mt
          [(lit "Content-Range",
            lit "bytes " ++ str_of_Z start ++ lit "-" ++ str_of_Z end_
            ++ lit "/" ++ str_of_Z (Z.of_nat (length content)));
           (lit "Accept-Ranges", lit "bytes");
           (lit "Content-Length", str_of_Z len);
           (lit "Cache-Control", lit "no-store")]), w).
Proof.
  intros Hfs Hh Hne Hr Hs Hl. unfold send_file_range. rewrite Hfs, Hh.
  destruct h as [|c h']; [done|]. rewrite Hr. unfold seek_read. run_m.
  assert (E0 : (start <? 0)%Z = false) by lia. rewrite E0.
  assert (E1 : (len <? -1)%Z = false) by lia. by rewrite E1.
Qed.

(** ** The routes *)

Section Routes.
Context `{Env}.

Lemma grows_ret {A} (a : A) : grows (mret a : M A).
Proof. intros w. exists []. by rewrite app_nil_r. Qed.

Lemma grows_raise {A} msg : grows (raise msg : M A).
Proof. intros w. exists []. by rewrite app_nil_r. Qed.

Lemma grows_bind {A B} (m : M A) (k : A -> M B) :
  grows m -> (forall a, grows (k a)) -> grows (m ≫= k).
Proof.
  intros Hm Hk w. run_m. destruct (Hm w) as [tr1 E1].
  destruct (m w) as [[a|msg] w1]; cbn [snd] in *.
  - destruct (Hk a w1) as [tr2 E2]. exists (tr1 ++ tr2).
    by rewrite E2, E1, app_assoc.
  - by exists tr1.
Qed.

Lemma grows_try_except {A} (m : M A) (h : list N -> M A) :
  grows m -> (forall e, grows (h e)) -> grows (try_except m h).
Proof.
  intros Hm Hh w. unfold try_except. destruct (Hm w) as [tr1 E1].
  destruct (m w) as [[a|msg] w1]; cbn [snd] in *.
  - by exists tr1.
  - destruct (Hh msg w1) as [tr2 E2]. exists (tr1 ++ tr2).
    by rewrite E2, E1, app_assoc.
Qed.

Lemma grows_path_exists p : grows (path_exists p).
Proof. intros w. by exists [EvExists p]. Qed.

Lemma grows_run_cmd cmd : grows (run_cmd cmd).
Proof.
  intros w. exists [EvRun cmd]. unfold run_cmd.
  by destruct (tool cmd (fs w)) as [r fs'].
Qed.

Lemma grows_wav_duration_seconds p : grows (wav_duration_seconds p).
Proof. intros w. exists []. by rewrite app_nil_r. Qed.

Lemma grows_ffprobe_duration_seconds p : grows (ffprobe_duration_seconds p).
Proof.
  unfold ffprobe_duration_seconds. apply grows_bind; [apply grows_run_cmd|].
  intros [[code out] err]. case_bool_decide; apply grows_ret.
Qed.

Lemma grows_py_or a b : grows a -> grows b -> grows (py_or a b).
Proof.
  intros Ha Hb. unfold py_or. apply grows_bind; [exact Ha|].
  intros x. destruct (truthy x); [apply grows_ret|exact Hb].
Qed.

Lemma grows_sox_pitch_shift_wav a b s : grows (sox_pitch_shift_wav a b s).
Proof.
  unfold sox_pitch_shift_wav. apply grows_bind; [apply grows_path_exists|].
  intros [|]; [apply grows_ret|].
  apply grows_bind; [apply grows_run_cmd|].
  intros [[code out] err]. case_bool_decide; [apply grows_raise|apply grows_ret].
Qed.

Lemma grows_duration_chain a b :
  grows (py_or (wav_duration_seconds a)
           (py_or (wav_duration_seconds b)
              (py_or (ffprobe_duration_seconds a) (ffprobe_duration_seconds b)))).
Proof.
  repeat apply grows_py_or;
    auto using grows_wav_duration_seconds, grows_ffprobe_duration_seconds.
Qed.

(** The equations of the monad, one step at a time. *)
Lemma bind_ret {A B} (a : A) (k : A -> M B) w : (mret a ≫= k) w = k a w.
Proof. reflexivity. Qed.

Lemma bind_path_exists {B} p (k : bool -> M B) w :
  (path_exists p ≫= k) w
  = k (bool_decide (is_Some (fs w !! p)))
      (mkWorld (fs w) (trace w ++ [EvExists p])).
Proof. reflexivity. Qed.

Lemma path_exists_run p w :
  path_exists p w
  = (Returned (bool_decide (is_Some (fs w !! p))),
     mkWorld (fs w) (trace w ++ [EvExists p])).
Proof. reflexivity. Qed.

(** C7. A pitch request with an identifier and an integer number of
    semitones below -8 or above 8 is answered 400 with the world left
    as it was: no path looked up, no program run, no file written.  A
    number within [-8, 8] is not answered so: the handler goes on to
    look for the base audio. *)
Theorem api_pitch_semitone_range req id s w :
  json_id req = Some id ->
  json_semitones req = Some (InInt s) ->
  ((s < -8 \/ 8 < s)%Z ->
   api_pitch req w
   = (Returned (abort_json 400 (lit "'semitones' must be between -8 and 8")), w))
  /\ ((-8 <= s <= 8)%Z ->
      exists r w' tr,
        api_pitch req w = (r, w')
        /\ r <> Returned (abort_json 400 (lit "'semitones' must be between -8 and 8"))
        /\ trace w' = trace w ++ EvExists (audio_base_path_for_id id) :: tr).
Proof.
  intros Hid Hs. unfold api_pitch. rewrite Hid, Hs. cbn [int_of_json].
  split; intros Hr.
  - run_m.
    assert (E : ((s <? -8) || (8 <? s))%Z = true).
    { apply orb_true_iff. destruct Hr; [left|right]; lia. }
    by rewrite E.
  - run_m.
    assert (E : ((s <? -8) || (8 <? s))%Z = false).
    { apply orb_false_iff. split; lia. }
    rewrite E. unfold path_exists at 1. cbn beta iota.
    set (w1 := mkWorld (fs w) (trace w ++ [EvExists (audio_base_path_for_id id)])).
    destruct (bool_decide (is_Some (fs w !! audio_base_path_for_id id))); cbn [negb].
    + pose proof (grows_sox_pitch_shift_wav (audio_base_path_for_id id)
                    (pitched_audio_path_for_id id s) s w1) as [tr1 E1].
      destruct (sox_pitch_shift_wav _ _ _ w1) as [[[]|msg] w2]; cbn [snd] in E1.
      * pose proof (grows_duration_chain (pitched_audio_path_for_id id s)
                      (audio_base_path_for_id id) w2) as [tr2 E2].
        destruct (py_or _ _ w2) as [[d|msg] w3]; cbn [snd] in E2.
        -- eexists _, w3, (tr1 ++ tr2). split; [reflexivity|]. split; [discriminate|].
           rewrite E2, E1. unfold w1. cbn [trace].
           by rewrite <- !app_assoc.
        -- eexists _, w3, (tr1 ++ tr2). split; [reflexivity|]. split; [discriminate|].
           rewrite E2, E1. unfold w1. cbn [trace].
           by rewrite <- !app_assoc.
      * eexists _, w2, tr1. split; [reflexivity|]. split; [discriminate|].
        rewrite E1. unfold w1. cbn [trace]. by rewrite <- !app_assoc.
    + eexists _, w1, []. split; [reflexivity|]. split; [|reflexivity].
      intros [=].
Qed.


(** The path of the video of an identifier, as [pathlib] has it. *)
Lemma decoded_video id video :
  Path <$> b64url_decode_path id = Some video ->
  exists text, b64url_decode_path id = Some text /\ video = Path text.
Proof.
  destruct (b64url_decode_path id) as [text|]; [|discriminate].
  cbn [fmap option_fmap option_map]. intros Hv. exists text.
  split; [reflexivity|]. symmetry. by apply (inj Some).
Qed.

(** C8. For an identifier whose source video exists and [s] semitones:
    when [s] is not zero and there is no pitched audio for [s], the
    store request is answered 400, telling the caller to generate the
    audio first; it looks up the video and the pitched audio and does
    nothing else, whether or not the base audio is there: no program is
    run and no file is written.  When [s] is zero the audio looked up,
    and muxed when it is there, is the base audio. *)
Theorem api_store_video_needs_audio req id s video w :
  json_id req = Some id ->
  json_semitones req = Some (InInt s) ->
  Path <$> b64url_decode_path id = Some video ->
  is_Some (fs w !! video) ->
  (s <> 0%Z ->
   fs w !! pitched_audio_path_for_id id s = None ->
   api_store_video req w
   = (Returned (abort_json 400
                  (lit "Requested audio not available. Generate it first.")),
      mkWorld (fs w)
        (trace w ++ [EvExists video;
                     EvExists (pitched_audio_path_for_id id s)])))
  /\ (s = 0%Z ->
      fs w !! audio_base_path_for_id id = None ->
      api_store_video req w
      = (Returned (abort_json 400
                     (lit "Requested audio not available. Generate it first.")),
         mkWorld (fs w)
           (trace w ++ [EvExists video;
                        EvExists (audio_base_path_for_id id)])))
  /\ (s = 0%Z ->
      is_Some (fs w !! audio_base_path_for_id id) ->
      exists r w',
        api_store_video req w = (r, w')
        /\ trace w'
           = trace w ++ [EvExists video;
                         EvExists (audio_base_path_for_id id);
                         EvRun (mux_cmd video (audio_base_path_for_id id)
                                  (store_path video 0))]).
Proof.
  intros Hid Hs Hdec Hvid.
  destruct (decoded_video id video Hdec) as (text & Htext & Hv).
  unfold api_store_video. rewrite Hid, Hs. cbn [int_of_json].
  rewrite bind_ret. unfold get_video_path_from_id_or_404. rewrite Htext.
  cbn zeta. rewrite <- Hv.
  assert (Hstep : forall B (k : Response Seconds + list N -> M B),
             ((e ← path_exists video;
               if e : bool then mret (inr video)
               else mret (inl (abort_json 404 (lit "Video not found")))) ≫= k) w
             = k (inr video) (mkWorld (fs w) (trace w ++ [EvExists video]))).
  { intros B k. run_m. rewrite path_exists_run.
    by rewrite (bool_decide_true _ Hvid). }
  rewrite Hstep. clear Hstep.
  split; [|split].
  - intros Hnz Hnone. rewrite (bool_decide_true _ Hnz).
    rewrite bind_path_exists. cbn [fs trace].
    rewrite bool_decide_false by (rewrite Hnone; by intros [? ?]).
    cbn [negb]. by rewrite <- app_assoc.
  - intros -> Hnone. rewrite (bool_decide_false (0 <> 0)%Z) by (intros Hq; by apply Hq).
    rewrite bind_path_exists. cbn [fs trace].
    rewrite bool_decide_false by (rewrite Hnone; by intros [? ?]).
    cbn [negb]. by rewrite <- app_assoc.
  - intros -> Hsome. rewrite (bool_decide_false (0 <> 0)%Z) by (intros Hq; by apply Hq).
    rewrite bind_path_exists. cbn [fs trace].
    rewrite (bool_decide_true _ Hsome). cbn [negb].
    unfold mux_video_with_audio, run_cmd. run_m. cbn [fs trace].
    destruct (tool _ (fs w)) as [[[code out] err] fs'].
    case_bool_decide; eexists _, _; (split; [reflexivity|]); cbn [trace];
      by rewrite <- !app_assoc.
Qed.

Lemma joinpath_cons d c r :
  joinpath d (c :: r) = if c =? 47 then c :: r else d ++ 47 :: c :: r.
Proof. reflexivity. Qed.



(** A WAV file whose header gives a duration that is not zero settles
    the duration without any program. *)
Lemma duration_from_header a (rest : M (option Seconds)) content d w :
  fs w !! a = Some content ->
  wav_header_seconds content = Some d ->
  nonzero d = true ->
  py_or (wav_duration_seconds a) rest w = (Returned (Some d), w).
Proof.
  intros Hfs Hh Hnz. unfold py_or, wav_duration_seconds. run_m.
  rewrite Hfs. cbn [mbind option_bind]. rewrite Hh. cbn [truthy]. by rewrite Hnz.
Qed.



End Routes.

Lemma api_pitch_semitone_range_witness :
  let w : World := mkWorld {[ lit "/a.mp4" := lit "video" ]} [] in
  let req s := mkRequest None [] (Some (lit "L2EubXA0")) (Some (InInt s)) in
  api_pitch (H := sample_env) (req 9%Z) w
  = (Returned (abort_json 400 (lit "'semitones' must be between -8 and 8")), w)
  /\ api_pitch (H := sample_env) (req (-9)%Z) w
     = (Returned (abort_json 400 (lit "'semitones' must be between -8 and 8")), w)
  /\ exists r w' tr,
      api_pitch (H := sample_env) (req 8%Z) w = (r, w')
      /\ r <> Returned (abort_json 400 (lit "'semitones' must be between -8 and 8"))
      /\ trace w'
         = trace w ++ EvExists (audio_base_path_for_id (H := sample_env)
                                  (lit "L2EubXA0")) :: tr.
Proof.
  intros w req. split; [|split].
  - apply (proj1 (api_pitch_semitone_range (H := sample_env) (req 9%Z)
                    (lit "L2EubXA0") 9 w eq_refl eq_refl)).
    right. lia.
  - apply (proj1 (api_pitch_semitone_range (H := sample_env) (req (-9)%Z)
                    (lit "L2EubXA0") (-9) w eq_refl eq_refl)).
    left. lia.
  - apply (proj2 (api_pitch_semitone_range (H := sample_env) (req 8%Z)
                    (lit "L2EubXA0") 8 w eq_refl eq_refl)).
    lia.
Defined.

Lemma api_store_video_needs_audio_witness :
  let id := lit "L2EubXA0" in
  let w : World :=
    mkWorld (<[ audio_base_path_for_id (H := sample_env) id := lit "RIFF" ]>
               {[ lit "/a.mp4" := lit "video" ]}) [] in
  let req := mkRequest None [] (Some id) (Some (InInt 3)) in
  is_Some (fs w !! audio_base_path_for_id (H := sample_env) id)
  /\ api_store_video (H := sample_env) req w
     = (Returned (abort_json 400
                    (lit "Requested audio not available. Generate it first.")),
        mkWorld (fs w)
          (trace w ++ [EvExists (lit "/a.mp4");
                       EvExists (pitched_audio_path_for_id (H := sample_env) id 3)])).
Proof.
  intros id w req. split.
  - vm_compute. eauto.
  - refine (proj1 (api_store_video_needs_audio (H := sample_env) req id 3
                     (lit "/a.mp4") w eq_refl eq_refl _ _) _ _).
    + vm_compute. reflexivity.
    + vm_compute. eauto.
    + lia.
    + vm_compute. reflexivity.
Defined.


(** ** Tokens that are refused, and tokens that are not *)

Lemma utf8_encode_decode bs : forall s,
  Utf8.decode bs = Some s -> Utf8.encode s = Some bs.
Proof.
  assert (H : forall n bs, (length bs <= n)%nat ->
             forall s, Utf8.decode bs = Some s -> Utf8.encode s = Some bs).
  2:{ intros s. by apply (H (length bs)). }
  clear bs. induction n as [|n IH]; intros bs Hlen s.
  { destruct bs; [|cbn in Hlen; lia]. by intros [= <-]. }
  destruct bs as [|b0 r0]; [by intros [= <-]|].
  cbn [Utf8.decode].
  assert (Hstep : forall c r, (length r <= n)%nat ->
             forall bytes, Utf8.encode_cp c = Some bytes ->
             cons c <$> Utf8.decode r = Some s ->
             Utf8.encode s = Some (bytes ++ r)).
  { intros c r Hr bytes Hc Hd.
    destruct (Utf8.decode r) as [s'|] eqn:Es; [|discriminate].
    injection Hd as <-. cbn [Utf8.encode]. by rewrite Hc, (IH r Hr s' Es). }
  cbn [length] in Hlen.
  case_test (b0 <? 128).
  { intros Hd. apply (Hstep b0 r0 ltac:(lia) [b0]); [|exact Hd].
    unfold Utf8.encode_cp. by rewrite ltb_true. }
  case_test (b0 <? 194); [discriminate|].
  case_test (b0 <? 224).
  { destruct r0 as [|b1 r1]; [discriminate|].
    unfold Utf8.cont, Utf8.between. case_test ((128 <=? b1) && (b1 <=? 191)); [|discriminate].
    intros Hd. cbn [length] in Hlen.
    refine (Hstep _ r1 _ [b0; b1] _ Hd); [lia|].
    unfold Utf8.encode_cp. rewrite ltb_false, ltb_true by lia.
    do 2 f_equal; [lia|]. f_equal. lia. }
  case_test (b0 <? 240).
  { destruct r0 as [|b1 [|b2 r2]]; [discriminate|discriminate|].
    unfold Utf8.cont, Utf8.between.
    destruct (_ && _) eqn:Eb; [|discriminate].
    apply andb_true_iff in Eb as [Eb1 Eb2].
    apply andb_true_iff in Eb1 as [Eb1 Eb1'].
    apply andb_true_iff in Eb2 as [Eb2 Eb2']. bool_to_prop.
    intros Hd. cbn [length] in Hlen.
    refine (Hstep _ r2 _ [b0; b1; b2] _ Hd); [lia|].
    assert (Hlo : (if b0 =? 224 then 160 else 128) <= b1) by exact Eb1.
    assert (Hhi : b1 <= (if b0 =? 237 then 159 else 191)) by exact Eb1'.
    clear Eb1 Eb1'.
    assert (Hb1 : 128 <= b1 <= 191 /\ (b0 = 224 -> 160 <= b1) /\ (b0 = 237 -> b1 <= 159)).
    { destruct (b0 =? 224) eqn:?, (b0 =? 237) eqn:?; bool_to_prop; lia. }
    clear Hlo Hhi.
    unfold Utf8.encode_cp. rewrite !ltb_false by lia. rewrite ltb_true by lia.
    assert (Hs : (55296 <=? (b0 - 224) * 4096 + (b1 - 128) * 64 + (b2 - 128))
                 && ((b0 - 224) * 4096 + (b1 - 128) * 64 + (b2 - 128) <=? 57343)
                 = false).
    { apply andb_false_iff.
      destruct (N.eq_dec b0 237) as [->|?];
        [left; apply N.leb_gt; lia|].
      destruct (N.lt_ge_cases b0 237); [left|right]; apply N.leb_gt; lia. }
    rewrite Hs. do 2 f_equal; [lia|]. f_equal; [lia|]. f_equal. lia. }
  case_test (b0 <? 245); [|discriminate].
  destruct r0 as [|b1 [|b2 [|b3 r3]]]; [discriminate|discriminate|discriminate|].
  unfold Utf8.cont, Utf8.between.
  destruct (_ && _) eqn:Eb; [|discriminate].
  apply andb_true_iff in Eb as [Eb Eb3].
  apply andb_true_iff in Eb as [Eb1 Eb2].
  apply andb_true_iff in Eb1 as [Eb1 Eb1'].
  apply andb_true_iff in Eb2 as [Eb2 Eb2'].
  apply andb_true_iff in Eb3 as [Eb3 Eb3']. bool_to_prop.
  intros Hd. cbn [length] in Hlen.
  refine (Hstep _ r3 _ [b0; b1; b2; b3] _ Hd); [lia|].
  assert (Hlo : (if b0 =? 240 then 144 else 128) <= b1) by exact Eb1.
  assert (Hhi : b1 <= (if b0 =? 244 then 143 else 191)) by exact Eb1'.
  clear Eb1 Eb1'.
  assert (Hb1 : 128 <= b1 <= 191 /\ (b0 = 240 -> 144 <= b1) /\ (b0 = 244 -> b1 <= 143)).
  { destruct (b0 =? 240) eqn:?, (b0 =? 244) eqn:?; bool_to_prop; lia. }
  clear Hlo Hhi.
  unfold Utf8.encode_cp. rewrite !ltb_false by lia. rewrite ltb_true by lia.
  do 2 f_equal; [lia|]. f_equal; [lia|]. f_equal; [lia|]. f_equal. lia.
Qed.

Lemma url_token_char_data c :
  url_token_char c = true ->
  (c =? pad) = false /\ c < 128
  /\ (urlsafe_decode_translation c =? pad) = false
  /\ exists v, a2b (urlsafe_decode_translation c) = Some v.
Proof.
  intros Hc. destruct (url_token_char_spec c Hc) as (H1 & H2 & H3).
  split; [by apply N.eqb_neq|]. split; [exact H1|].
  unfold url_token_char in Hc. unfold urlsafe_decode_translation, a2b, pad in *.
  repeat (apply orb_true_iff in Hc; destruct Hc as [Hc|Hc]); bool_to_prop;
    try (rewrite (eqb_false c 45), (eqb_false c 95) by lia;
         split; [apply N.eqb_neq; lia|]).
  - rewrite !leb_true by lia. cbn. eauto.
  - rewrite (leb_false c 90) by lia. rewrite andb_false_r.
    rewrite !leb_true by lia. cbn. eauto.
  - rewrite (leb_false 65 c), (leb_false 97 c) by lia. cbn [andb].
    rewrite !leb_true by lia. cbn. eauto.
  - subst c. cbn. eauto.
  - subst c. cbn. eauto.
Qed.

(** The decoder over a run of data characters: only the position in the
    group of four matters for what follows. *)
Lemma a2b_loop_data_run ds : forall rest q lc pads out,
  Forall (fun c => (c =? pad) = false /\ exists v, a2b c = Some v) ds ->
  q < 4 ->
  exists lc' pads' out',
    a2b_loop (ds ++ rest) q lc pads out
    = a2b_loop rest ((q + N.of_nat (length ds)) mod 4) lc' pads' out'.
Proof.
  induction ds as [|c ds IH]; intros rest q lc pads out Hds Hq.
  - exists lc, pads, out. cbn [app length]. f_equal. lia.
  - apply Forall_cons in Hds as [[Hc [v Hv]] Hds].
    cbn [app a2b_loop]. rewrite Hc, Hv.
    assert (Hlen : forall q', q' = (q + 1) mod 4 ->
               (q' + N.of_nat (length ds)) mod 4
               = (q + N.of_nat (length (c :: ds))) mod 4).
    { intros q' ->. cbn [length]. lia. }
    destruct (q =? 0) eqn:E0; bool_to_prop.
    { destruct (IH rest 1 v 0 out Hds ltac:(lia)) as (lc' & pads' & out' & E).
      exists lc', pads', out'. rewrite E. f_equal. apply Hlen. subst q. reflexivity. }
    destruct (q =? 1) eqn:E1; bool_to_prop.
    { destruct (IH rest 2 (v mod 16) 0 ((lc * 4 + v / 16) :: out) Hds ltac:(lia))
        as (lc' & pads' & out' & E).
      exists lc', pads', out'. rewrite E. f_equal. apply Hlen. subst q. reflexivity. }
    destruct (q =? 2) eqn:E2; bool_to_prop.
    { destruct (IH rest 3 (v mod 4) 0 ((lc * 16 + v / 4) :: out) Hds ltac:(lia))
        as (lc' & pads' & out' & E).
      exists lc', pads', out'. rewrite E. f_equal. apply Hlen. subst q. reflexivity. }
    destruct (IH rest 0 0 0 ((lc * 64 + v) :: out) Hds ltac:(lia))
      as (lc' & pads' & out' & E).
    exists lc', pads', out'. rewrite E. f_equal. apply Hlen. lia.
Qed.

Lemma ascii_only_non_ascii s :
  Exists (fun c => 128 <= c) s -> ascii_only s = None.
Proof.
  intros Hs. unfold ascii_only.
  replace (forallb (fun c => c <? 128) s) with false; [reflexivity|].
  symmetry. apply not_true_is_false. intros Hall.
  rewrite forallb_forall in Hall.
  apply Exists_exists in Hs as (c & Hin & Hc).
  apply list_elem_of_In, Hall, N.ltb_lt in Hin. lia.
Qed.

Section Refusal.
Context `{Env}.

(** C9, as the code has it.  A token is refused, and the request
    answered 400, when it holds a character that is not ASCII; when it
    is made of characters of the URL-safe alphabet only and their number
    is one more than a multiple of four; or when the bytes it decodes to
    are not the UTF-8 form of any string. *)
Theorem decode_refuses t w :
  Exists (fun c => 128 <= c) t
  \/ (Forall (fun c => url_token_char c = true) t /\ (length t mod 4 = 1)%nat)
  \/ (exists raw,
        urlsafe_b64decode (t ++ repeat pad (neg_mod4 (length t))) = Some raw
        /\ forall s, Utf8.encode s <> Some raw) ->
  b64url_decode_path t = None
  /\ get_video_path_from_id_or_404 t w
     = (Returned (inl (abort_json 400 (lit "Invalid video id"))), w).
Proof.
  intros Hbad.
  assert (Hnone : b64url_decode_path t = None).
  { unfold b64url_decode_path.
    destruct Hbad as [Hna|[[Hal Hlen]|(raw & Hraw & Hutf)]].
    - unfold urlsafe_b64decode.
      rewrite ascii_only_non_ascii; [reflexivity|].
      apply Exists_app. by left.
    - assert (Hpad : neg_mod4 (length t) = 3%nat) by (unfold neg_mod4; lia).
      rewrite Hpad. unfold urlsafe_b64decode.
      rewrite ascii_only_ok.
      2:{ apply Forall_app. split.
          - eapply Forall_impl; [exact Hal|].
            intros c Hc. by destruct (url_token_char_data c Hc) as (_ & ? & _).
          - repeat constructor; unfold pad; lia. }
      cbn [mbind option_bind]. rewrite map_app. unfold b64decode.
      edestruct (a2b_loop_data_run (map urlsafe_decode_translation t)
                   (map urlsafe_decode_translation (repeat pad 3)) 0 0 0 [])
        as (lc & pads & out & E).
      + apply Forall_map. eapply Forall_impl; [exact Hal|].
        intros c Hc. cbn. by destruct (url_token_char_data c Hc) as (_ & _ & ? & ?).
      + lia.
      + rewrite E, length_map.
        replace ((0 + N.of_nat (length t)) mod 4) with 1 by lia.
        reflexivity.
    - rewrite Hraw. cbn [mbind option_bind].
      destruct (Utf8.decode raw) as [s|] eqn:Es; [|reflexivity].
      by apply utf8_encode_decode, Hutf in Es. }
  split; [exact Hnone|].
  unfold get_video_path_from_id_or_404. by rewrite Hnone.
Qed.

End Refusal.

Lemma decode_refuses_witness :
  let w : World := mkWorld {[ lit "/a.mp4" := lit "video" ]} [] in
  (b64url_decode_path [76; 50; 233] = None
   /\ get_video_path_from_id_or_404 (H := sample_env) [76; 50; 233] w
      = (Returned (inl (abort_json 400 (lit "Invalid video id"))), w))
  /\ (b64url_decode_path (lit "L2Fib") = None
      /\ get_video_path_from_id_or_404 (H := sample_env) (lit "L2Fib") w
         = (Returned (inl (abort_json 400 (lit "Invalid video id"))), w)).
Proof.
  intros w. split.
  - apply (decode_refuses (H := sample_env)). left.
    apply Exists_cons_tl, Exists_cons_tl, Exists_cons_hd. lia.
  - apply (decode_refuses (H := sample_env)). right. left. split.
    + repeat constructor.
    + reflexivity.
Defined.

(** C9 as it is stated fails: a character outside the URL-safe alphabet
    is dropped, not refused, and an [=] that does not belong is let
    through; both tokens decode to a path. *)
Lemma decode_accepts_foreign_character :
  url_token_char 33 = false
  /\ In 33 (lit "!L2Fi")
  /\ b64url_decode_path (lit "!L2Fi") = Some (lit "/ab")
  /\ b64url_decode_path (lit "L2Fi=") = Some (lit "/ab")
  /\ (let w : World := mkWorld {[ lit "/ab" := lit "video" ]} [] in
      get_video_path_from_id_or_404 (H := sample_env) (lit "!L2Fi") w
      = (Returned (inr (lit "/ab")), mkWorld (fs w) [EvExists (lit "/ab")])).
Proof.
  split; [reflexivity|]. split; [by left|]. split; [reflexivity|].
  split; [reflexivity|]. vm_compute. reflexivity.
Qed.
(** ** The artifact store *)

Lemma tool_runs_app a b : tool_runs (a ++ b) = (tool_runs a + tool_runs b)%nat.
Proof. unfold tool_runs. by rewrite List.filter_app, length_app. Qed.

Section Store.
Context `{Env}.

(** A guarded producer finds its output and stops there. *)
Lemma ensure_hit k video w :
  (forall s, kind k <> MuxedOutput s) ->
  is_Some (fs w !! resolve k video) ->
  ensure k video w
  = (Returned tt, mkWorld (fs w) (trace w ++ [EvExists (resolve k video)])).
Proof.
  intros Hk Hsome. unfold ensure, resolve in *.
  destruct (kind k) as [| |s|s]; [| | |by destruct (Hk s)];
    unfold generate_thumbnail, extract_audio_wav, sox_pitch_shift_wav;
    rewrite bind_path_exists, (bool_decide_true _ Hsome); reflexivity.
Qed.

(** Any producer starts at most one program. *)
Lemma ensure_runs_at_most_one k video w :
  exists tr, trace (ensure k video w).2 = trace w ++ tr
             /\ (tool_runs tr <= 1)%nat.
Proof.
  assert (Hrun : forall cmd (k : ToolResult -> M unit) w0 tr0,
             (forall r w1, trace (k r w1).2 = trace w1) ->
             trace w0 = trace w ++ tr0 ->
             trace ((run_cmd cmd ≫= k) w0).2 = trace w ++ tr0 ++ [EvRun cmd]).
  { intros cmd k0 w0 tr0 Hk0 Hw0. unfold run_cmd. run_m.
    destruct (tool cmd (fs w0)) as [r fs'].
    specialize (Hk0 r (mkWorld fs' (trace w0 ++ [EvRun cmd]))).
    destruct (k0 r _) as [[[]|msg] w2]; cbn [snd trace] in *;
      rewrite Hk0, Hw0; by rewrite <- app_assoc. }
  assert (Hend : forall (msg : list N) (r : ToolResult) w1,
             trace ((let '(code, _, err) := r in
                     if bool_decide (code <> 0%Z) then raise (msg ++ err)
                     else mret tt : M unit) w1).2 = trace w1).
  { intros msg [[code out] err] w1. by case_bool_decide. }
  unfold ensure.
  destruct (kind k) as [| |s|s];
    unfold generate_thumbnail, extract_audio_wav, sox_pitch_shift_wav,
      mux_video_with_audio;
    try rewrite bind_path_exists;
    try (destruct (bool_decide _);
         [eexists; split; [reflexivity|cbn; lia]|]).
  - eexists. split; [eapply Hrun; [by intros r w1|reflexivity]|].
    cbn; lia.
  - eexists. split; [eapply Hrun; [apply Hend|reflexivity]|].
    cbn; lia.
  - eexists. split; [eapply Hrun; [apply Hend|reflexivity]|].
    cbn; lia.
  - eexists. split; [apply (Hrun _ _ _ []); [apply Hend|by rewrite app_nil_r]|].
    cbn; lia.
Qed.

(** C2, as the code has it.  For a thumbnail, base-audio or
    pitched-audio key: once the file is at the key's location, a request
    returns after looking it up, with no program run and the files as
    they were; and of two requests in a row of which the first leaves
    the file in place, the second succeeds and changes no file, and at
    most one program is run in all. *)
Theorem ensure_twice_runs_once k video w :
  (forall s, kind k <> MuxedOutput s) ->
  (is_Some (fs w !! resolve k video) ->
   ensure k video w
   = (Returned tt, mkWorld (fs w) (trace w ++ [EvExists (resolve k video)])))
  /\ (let w1 := (ensure k video w).2 in
      is_Some (fs w1 !! resolve k video) ->
      let w2 := (ensure k video w1).2 in
      (ensure k video w1).1 = Returned tt
      /\ fs w2 = fs w1
      /\ (tool_runs (trace w2) <= tool_runs (trace w) + 1)%nat).
Proof.
  intros Hk. split; [by apply ensure_hit|].
  intros w1 Hsome w2. unfold w2.
  rewrite (ensure_hit k video w1 Hk Hsome). cbn [fst snd fs trace].
  split; [reflexivity|]. split; [reflexivity|].
  destruct (ensure_runs_at_most_one k video w) as (tr & E & Hle).
  fold w1 in E. rewrite E, !tool_runs_app. cbn. lia.
Qed.

End Store.

Lemma ensure_twice_runs_once_witness :
  let k := mkKey (lit "L2EubXA0") BaseAudio in
  let video := lit "/a.mp4" in
  let w : World := mkWorld {[ lit "/a.mp4" := lit "video" ]} [] in
  let w1 := (ensure (H := sample_env) k video w).2 in
  let w2 := (ensure (H := sample_env) k video w1).2 in
  is_Some (fs w1 !! resolve (H := sample_env) k video)
  /\ (ensure (H := sample_env) k video w1).1 = Returned tt
  /\ fs w2 = fs w1
  /\ (tool_runs (trace w2) <= tool_runs (trace w) + 1)%nat.
Proof.
  intros k video w w1 w2.
  assert (Hsome : is_Some (fs w1 !! resolve (H := sample_env) k video)).
  { vm_compute. eauto. }
  split; [exact Hsome|].
  apply (proj2 (ensure_twice_runs_once (H := sample_env) k video w
                  ltac:(intros s; discriminate))).
  exact Hsome.
Defined.

(** C2 as it is stated fails for the muxed output: the second request
    finds the file written by the first and runs the program again, onto
    the same file. *)
Lemma ensure_muxed_output_runs_again :
  let k := mkKey (lit "L2EubXA0") (MuxedOutput 0) in
  let video := lit "/a.mp4" in
  let w : World :=
    mkWorld (<[ audio_base_path_for_id (H := sample_env) (lit "L2EubXA0") := lit "RIFF" ]>
               {[ lit "/a.mp4" := lit "video" ]}) [] in
  let w1 := (ensure (H := sample_env) k video w).2 in
  let w2 := (ensure (H := sample_env) k video w1).2 in
  resolve (H := sample_env) k video = lit "/home/u/Downloads/a_+0.mp4"
  /\ is_Some (fs w1 !! resolve (H := sample_env) k video)
  /\ tool_runs (trace w1) = 1%nat
  /\ tool_runs (trace w2) = 2%nat
  /\ ~ (tool_runs (trace w2) <= tool_runs (trace w) + 1)%nat
  /\ List.last (trace w2) (EvExists [])
     = EvRun (mux_cmd video (audio_base_path_for_id (H := sample_env) (lit "L2EubXA0"))
                (resolve (H := sample_env) k video)).
Proof.
  intros k video w w1 w2.
  split; [reflexivity|]. split; [vm_compute; eauto|].
  split; [vm_compute; reflexivity|]. split; [vm_compute; reflexivity|].
  split; [vm_compute; lia|]. vm_compute. reflexivity.
Qed.
(** ** Requests served at the same time *)

Section Threads.
Context `{Env}.

Lemma job_step_check j w :
  job_step j AtCheck w
  = (if bool_decide (is_Some (fs w !! job_out j))
     then Finished (Returned tt) else AtRun,
     mkWorld (fs w) (trace w ++ [EvExists (job_out j)])).
Proof.
  unfold job_step. rewrite path_exists_run. by destruct (bool_decide _).
Qed.

Lemma job_step_run j w :
  job_step j AtRun w
  = (Finished (if bool_decide ((tool (job_cmd j) (fs w)).1.1.1 <> 0%Z)
               then Raised (job_error j ++ (tool (job_cmd j) (fs w)).1.2)
               else Returned tt),
     mkWorld (tool (job_cmd j) (fs w)).2 (trace w ++ [EvRun (job_cmd j)])).
Proof.
  unfold job_step, run_cmd.
  destruct (tool (job_cmd j) (fs w)) as [[[code out] err] fs'].
  cbn [fst snd]. by case_bool_decide.
Qed.

(** A thread left alone for its two steps does what the producer of
    its key does. *)
Lemma job_steps_are_ensure k video j w :
  job_of k video = Some j ->
  job_step j (job_step j AtCheck w).1 (job_step j AtCheck w).2
  = (Finished (ensure k video w).1, (ensure k video w).2).
Proof.
  intros Hj. rewrite job_step_check. cbn [fst snd].
  unfold job_of, ensure in *.
  destruct (kind k) as [| |s|s]; try discriminate Hj;
    apply (inj Some) in Hj; subst j; cbn [job_out job_cmd job_error];
    unfold extract_audio_wav, sox_pitch_shift_wav;
    rewrite bind_path_exists;
    (destruct (bool_decide _); [reflexivity|]);
    rewrite job_step_run; cbn [job_out job_cmd job_error fs trace];
    unfold run_cmd; run_m; cbn [fs trace];
    destruct (tool _ (fs w)) as [[[code out] err] fs'];
    cbn [fst snd]; by case_bool_decide.
Qed.

Lemma run_schedule_app a b st :
  run_schedule (a ++ b) st = run_schedule b (run_schedule a st).
Proof. unfold run_schedule. apply fold_left_app. Qed.

(** A thread that starts when the output is in place finishes in its
    two steps with no program run. *)
Lemma served_from_cache j i ths w :
  ths !! i = Some (j, AtCheck) ->
  is_Some (fs w !! job_out j) ->
  run_schedule [i; i] (ths, w)
  = (<[i := (j, Finished (Returned tt))]> ths,
     mkWorld (fs w) (trace w ++ [EvExists (job_out j)])).
Proof.
  intros Hi Hsome. unfold run_schedule. cbn [fold_left].
  unfold sys_step at 2. cbn [fst snd]. rewrite Hi.
  rewrite job_step_check, (bool_decide_true _ Hsome).
  unfold sys_step. cbn [fst snd].
  rewrite list_lookup_insert_eq by (by eapply lookup_lt_Some).
  cbn [job_step]. by rewrite list_insert_insert_eq.
Qed.

Lemma serial_rest j n : forall a ths w,
  (forall i, (a <= i < a + n)%nat -> ths !! i = Some (j, AtCheck)) ->
  is_Some (fs w !! job_out j) ->
  let st := run_schedule (flat_map (fun i => [i; i]) (seq a n)) (ths, w) in
  fs st.2 = fs w
  /\ tool_runs (trace st.2) = tool_runs (trace w)
  /\ length st.1 = length ths
  /\ (forall i, (a <= i < a + n)%nat -> st.1 !! i = Some (j, Finished (Returned tt)))
  /\ (forall i, (i < a)%nat -> st.1 !! i = ths !! i).
Proof.
  induction n as [|n IH]; intros a ths w Hths Hsome st; unfold st; clear st.
  - cbn. repeat split; auto. intros i Hi. lia.
  - cbn [seq flat_map]. change ([a; a] ++ ?x) with ([a; a] ++ x).
    rewrite run_schedule_app.
    rewrite (served_from_cache j a ths w (Hths a ltac:(lia)) Hsome).
    set (ths1 := <[a := (j, Finished (Returned tt))]> ths).
    set (w1 := mkWorld (fs w) (trace w ++ [EvExists (job_out j)])).
    destruct (IH (S a) ths1 w1) as (H1 & H2 & H3 & H4 & H5).
    { intros i Hi. unfold ths1. rewrite list_lookup_insert_ne by lia.
      apply Hths. lia. }
    { exact Hsome. }
    split; [exact H1|]. split.
    { rewrite H2. unfold w1. cbn [trace]. rewrite tool_runs_app. cbn. lia. }
    split.
    { rewrite H3. unfold ths1. by rewrite length_insert. }
    split.
    + intros i Hi. destruct (decide (i = a)) as [->|Hne].
      * rewrite H5 by lia. unfold ths1.
        apply list_lookup_insert_eq. eapply lookup_lt_Some. apply (Hths a). lia.
      * apply H4. lia.
    + intros i Hi. rewrite H5 by lia. unfold ths1.
      by rewrite list_lookup_insert_ne by lia.
Qed.

(** C3, as the code has it.  When the requests for one base-audio or
    pitched-audio key are served one after another, the output is
    missing at first, and the program run by the first request leaves
    it in place, then one program is run in all, the files stay as that
    run left them, every request finishes, and every request after the
    first returns normally. *)
Theorem serial_requests_run_once k video j w n :
  job_of k video = Some j ->
  fs w !! job_out j = None ->
  is_Some ((tool (job_cmd j) (fs w)).2 !! job_out j) ->
  let st := run_schedule (serial_schedule (S n)) (fresh_threads j (S n), w) in
  tool_runs (trace st.2) = (tool_runs (trace w) + 1)%nat
  /\ fs st.2 = (tool (job_cmd j) (fs w)).2
  /\ all_finished st.1 = true
  /\ (forall i, (1 <= i <= n)%nat -> st.1 !! i = Some (j, Finished (Returned tt))).
Proof.
  intros _ Hnone Hleft st. unfold st, serial_schedule, fresh_threads.
  cbn [seq flat_map replicate]. change ([0%nat; 0%nat] ++ ?x) with ([0%nat; 0%nat] ++ x).
  rewrite run_schedule_app.
  assert (Hfirst : exists o,
             run_schedule [0%nat; 0%nat] ((j, AtCheck) :: replicate n (j, AtCheck), w)
             = ((j, Finished o) :: replicate n (j, AtCheck),
                mkWorld (tool (job_cmd j) (fs w)).2
                  (trace w ++ [EvExists (job_out j); EvRun (job_cmd j)]))).
  { unfold run_schedule. cbn [fold_left]. unfold sys_step at 2.
    cbn [fst snd lookup list_lookup]. rewrite job_step_check.
    rewrite bool_decide_false by (rewrite Hnone; by intros [? ?]).
    unfold sys_step. cbn [fst snd lookup list_lookup insert list_insert].
    rewrite job_step_run. cbn [fs trace].
    eexists. rewrite <- app_assoc. reflexivity. }
  destruct Hfirst as [o ->].
  set (ths1 := (j, Finished o) :: replicate n (j, AtCheck)).
  set (w1 := mkWorld _ _).
  destruct (serial_rest j n 1 ths1 w1) as (H1 & H2 & H3 & H4 & H5).
  { intros i Hi. unfold ths1. destruct i as [|i]; [lia|]. cbn.
    apply lookup_replicate_2. lia. }
  { exact Hleft. }
  split; [|split; [exact H1|split]].
  - rewrite H2. unfold w1. cbn [trace]. rewrite tool_runs_app. cbn. lia.
  - unfold all_finished. apply forallb_forall. intros [j' pc] Hin.
    apply list_elem_of_In, list_elem_of_lookup in Hin as [i Hi].
    destruct i as [|i].
    + rewrite H5 in Hi by lia. unfold ths1 in Hi. cbn in Hi. by injection Hi as <- <-.
    + assert (Hlt : (S i < length ths1)%nat).
      { rewrite <- H3. by eapply lookup_lt_Some. }
      unfold ths1 in Hlt. cbn [length] in Hlt. rewrite length_replicate in Hlt.
      rewrite H4 in Hi by lia. by injection Hi as <- <-.
  - intros i Hi. apply H4. lia.
Qed.

End Threads.

Lemma serial_requests_run_once_witness :
  let k := mkKey (lit "L2EubXA0") BaseAudio in
  let video := lit "/a.mp4" in
  let out := audio_base_path_for_id (H := sample_env) (lit "L2EubXA0") in
  let j := mkJob out (extract_audio_cmd video out) (lit "ffmpeg failed to extract audio: ") in
  let w : World := mkWorld {[ lit "/a.mp4" := lit "video" ]} [] in
  let st := run_schedule (H := sample_env) (serial_schedule 3)
              (fresh_threads j 3, w) in
  job_of (H := sample_env) k video = Some j
  /\ tool_runs (trace st.2) = 1%nat
  /\ all_finished st.1 = true.
Proof.
  intros k video out j w st.
  split; [reflexivity|].
  destruct (serial_requests_run_once (H := sample_env) k video j w 2)
    as (H1 & _ & H3 & _).
  - reflexivity.
  - vm_compute. reflexivity.
  - vm_compute. eauto.
  - split; [exact H1|exact H3].
Defined.

(** C3 as it is stated fails: two requests for the same base audio that
    both look before either runs the program each run it. *)
Lemma concurrent_requests_both_run :
  let k := mkKey (lit "L2EubXA0") BaseAudio in
  let video := lit "/a.mp4" in
  let out := audio_base_path_for_id (H := sample_env) (lit "L2EubXA0") in
  let j := mkJob out (extract_audio_cmd video out) (lit "ffmpeg failed to extract audio: ") in
  let w : World := mkWorld {[ lit "/a.mp4" := lit "video" ]} [] in
  let st := run_schedule (H := sample_env) [0; 1; 0; 1]%nat (fresh_threads j 2, w) in
  job_of (H := sample_env) k video = Some j
  /\ all_finished st.1 = true
  /\ tool_runs (trace st.2) = 2%nat
  /\ trace st.2 = [EvExists out; EvExists out;
                   EvRun (extract_audio_cmd video out);
                   EvRun (extract_audio_cmd video out)].
Proof.
  intros k video out j w st.
  split; [reflexivity|]. split; [vm_compute; reflexivity|].
  split; vm_compute; reflexivity.
Qed.
(** * Further properties *)

(** ** The identity codec, beyond the round trip *)

Lemma encode_cp_defined c bs :
  Utf8.encode_cp c = Some bs ->
  scalar_value c /\ Forall (fun b => b < 256) bs /\ (1 <= length bs <= 4)%nat.
Proof.
  unfold Utf8.encode_cp, scalar_value.
  case_test (c <? 128).
  { intros [= <-]. split; [lia|]. split; [|cbn; lia]. repeat constructor; lia. }
  case_test (c <? 2048).
  { intros [= <-]. split; [lia|]. split; [|cbn; lia]. repeat constructor; lia. }
  case_test (c <? 65536).
  { destruct ((55296 <=? c) && (c <=? 57343)) eqn:Es; [discriminate|].
    assert (c < 55296 \/ 57343 < c)
      by (apply andb_false_iff in Es; destruct Es; bool_to_prop; lia).
    intros [= <-]. split; [lia|]. split; [|cbn; lia]. repeat constructor; lia. }
  case_test (c <? 1114112); [|discriminate].
  intros [= <-]. split; [lia|]. split; [|cbn; lia]. repeat constructor; lia.
Qed.

Lemma utf8_encode_defined s bs :
  Utf8.encode s = Some bs ->
  Forall scalar_value s /\ Forall (fun b => b < 256) bs
  /\ (length s <= length bs <= 4 * length s)%nat.
Proof.
  revert bs. induction s as [|c s IH]; intros bs; cbn [Utf8.encode].
  - intros [= <-]. repeat split; auto.
  - destruct (Utf8.encode_cp c) as [a|] eqn:Ec; [|discriminate].
    destruct (Utf8.encode s) as [b|] eqn:Es; [|discriminate].
    intros [= <-].
    destruct (encode_cp_defined c a Ec) as (H1 & H2 & H3).
    destruct (IH b eq_refl) as (H4 & H5 & H6).
    split; [by constructor|]. split; [by apply Forall_app|].
    rewrite length_app. cbn [length]. lia.
Qed.

(** The text of an encoding, with its length. *)
Lemma b64encode_shape_length bs :
  Forall (fun b => b < 256) bs ->
  exists body k,
    b64encode bs = body ++ repeat pad k
    /\ Forall (fun ch => exists v, v < 64 /\ ch = b2a v) body
    /\ ((length body + k) mod 4 = 0)%nat /\ (k <= 2)%nat
    /\ length body = ((4 * length bs + 2) / 3)%nat.
Proof.
  induction bs as [|a|a b|a b c r IH] using list_ind3; intros Hbs;
    repeat match type of Hbs with
           | Forall _ (_ :: _) => apply Forall_cons in Hbs as [? Hbs]
           end.
  - exists [], 0%nat. repeat split; auto.
  - exists [b2a (a / 4); b2a (a mod 4 * 16)], 2%nat.
    repeat split; auto.
    repeat (constructor; [eexists; (split; [|reflexivity]); lia|]). constructor.
  - exists [b2a (a / 4); b2a (a mod 4 * 16 + b / 16); b2a (b mod 16 * 4)], 1%nat.
    repeat split; auto.
    repeat (constructor; [eexists; (split; [|reflexivity]); lia|]). constructor.
  - destruct (IH Hbs) as (body & k & E & Hb & Hl & Hk & Hn).
    exists (b2a (a / 4) :: b2a (a mod 4 * 16 + b / 16)
            :: b2a (b mod 16 * 4 + c / 64) :: b2a (c mod 64) :: body), k.
    cbn [b64encode]. rewrite E. repeat split; auto.
    + repeat (constructor; [eexists; (split; [|reflexivity]); lia|]). exact Hb.
    + cbn [length]. lia.
    + cbn [length]. lia.
Qed.

(** What encoding does once the UTF-8 octets are there. *)
Lemma encode_path_of_octets p raw :
  Utf8.encode p = Some raw ->
  exists t,
    b64url_encode_path p = Some t
    /\ b64url_decode_path t = Some p
    /\ Forall (fun c => url_token_char c = true) t
    /\ length t = ((4 * length raw + 2) / 3)%nat.
Proof.
  intros Eraw.
  destruct (utf8_encode_defined p raw Eraw) as (_ & Hraw & _).
  destruct (b64encode_shape_length raw Hraw)
    as (body & k & Eenc & Hbody & Hlen & Hk & Hn).
  destruct (urlsafe_body body Hbody) as [Htok Hinv].
  set (tok := map urlsafe_encode_translation body) in *.
  assert (Hurl : urlsafe_b64encode raw = tok ++ repeat pad k).
  { unfold urlsafe_b64encode. rewrite Eenc, map_app, map_repeat_pad; done. }
  assert (Hascii : Forall (fun c => c < 128) (tok ++ repeat pad k)).
  { apply Forall_app. split.
    - eapply Forall_impl; [exact Htok|]. by intros c [? _]%url_token_char_spec.
    - apply Forall_forall. intros c Hc%list_elem_of_In%repeat_spec. subst c.
      unfold pad. lia. }
  assert (Hstrip : rstrip pad (tok ++ repeat pad k) = tok).
  { apply rstrip_repeat. eapply Forall_impl; [exact Htok|].
    by intros c (_ & _ & ?)%url_token_char_spec. }
  exists tok. split; [|split; [|split]].
  - unfold b64url_encode_path. rewrite Eraw. cbn.
    rewrite Hurl, (ascii_only_ok _ Hascii). cbn. by rewrite Hstrip.
  - unfold b64url_decode_path, urlsafe_b64decode.
    assert (Hk' : neg_mod4 (length tok) = k).
    { apply neg_mod4_pad; [|done]. unfold tok. by rewrite length_map. }
    rewrite Hk', (ascii_only_ok _ Hascii). cbn.
    rewrite map_app, Hinv, map_repeat_pad by done. rewrite <- Eenc.
    unfold b64decode. rewrite b64decode_encode_gen by done. cbn.
    by apply utf8_decode_encode.
  - exact Htok.
  - unfold tok. by rewrite length_map.
Qed.

Lemma encode_path_octets p t :
  b64url_encode_path p = Some t -> exists raw, Utf8.encode p = Some raw.
Proof.
  unfold b64url_encode_path. destruct (Utf8.encode p) as [raw|]; [eauto|discriminate].
Qed.

Lemma encode_path_inj_aux p q t :
  b64url_encode_path p = Some t ->
  b64url_encode_path q = Some t ->
  p = q.
Proof.
  intros Hp Hq.
  destruct (encode_path_octets p t Hp) as [rp Ep].
  destruct (encode_path_octets q t Hq) as [rq Eq].
  destruct (encode_path_of_octets p rp Ep) as (tp & Etp & Dp & _).
  destruct (encode_path_of_octets q rq Eq) as (tq & Etq & Dq & _).
  rewrite Hp in Etp. rewrite Hq in Etq.
  injection Etp as <-. injection Etq as <-. congruence.
Qed.

(** X1. Two paths with the same token are the same path. *)
Theorem encode_path_injective p q t :
  b64url_encode_path p = Some t ->
  b64url_encode_path q = Some t ->
  p = q.
Proof.
  intros Hp Hq.
  destruct (encode_path_octets p t Hp) as [rp Ep].
  destruct (encode_path_octets q t Hq) as [rq Eq].
  destruct (encode_path_of_octets p rp Ep) as (tp & Etp & Dp & _).
  destruct (encode_path_of_octets q rq Eq) as (tq & Etq & Dq & _).
  assert (tp = t) by congruence. assert (tq = t) by congruence.
  subst tp tq. rewrite Dp in Dq. by injection Dq.
Qed.

Lemma encode_path_injective_witness :
  b64url_encode_path (lit "/a.mp4") = Some (lit "L2EubXA0")
  /\ (b64url_encode_path [47; 97; 46; 109; 112; 52] = Some (lit "L2EubXA0") ->
      lit "/a.mp4" = [47; 97; 46; 109; 112; 52]).
Proof.
  split; [reflexivity|].
  apply (encode_path_injective (lit "/a.mp4") [47; 97; 46; 109; 112; 52] (lit "L2EubXA0")).
  reflexivity.
Defined.

Lemma encode_path_defined_aux p :
  is_Some (b64url_encode_path p) <-> Forall scalar_value p.
Proof.
  split.
  - intros [t Ht]. destruct (encode_path_octets p t Ht) as [raw Eraw].
    by destruct (utf8_encode_defined p raw Eraw) as (? & _).
  - intros Hp. destruct (utf8_encode_scalar p Hp) as (raw & Eraw & _).
    destruct (encode_path_of_octets p raw Eraw) as (t & Et & _). eauto.
Qed.

(** X2. A path has a token exactly when none of its code points is a
    surrogate or beyond U+10FFFF. *)
Theorem encode_path_defined_iff p :
  is_Some (b64url_encode_path p) <-> Forall scalar_value p.
Proof.
  split.
  - intros [t Ht]. unfold b64url_encode_path in Ht.
    destruct (Utf8.encode p) as [raw|] eqn:Eraw; [|discriminate].
    by destruct (utf8_encode_defined p raw Eraw) as (? & _).
  - intros Hp. destruct (utf8_encode_scalar p Hp) as (raw & Eraw & _).
    destruct (encode_path_of_octets p raw Eraw) as (t & Et & _).
    by exists t.
Qed.

(** X3. The token of a path is as long as its UTF-8 form allows and no
    longer: four characters for every three octets, rounded up, with no
    padding; each code point gives one to four octets. *)
Theorem token_length p t :
  b64url_encode_path p = Some t ->
  exists raw,
    Utf8.encode p = Some raw
    /\ length t = ((4 * length raw + 2) / 3)%nat
    /\ (length p <= length raw <= 4 * length p)%nat.
Proof.
  intros Ht. destruct (encode_path_octets p t Ht) as [raw Eraw].
  destruct (encode_path_of_octets p raw Eraw) as (t' & Et & _ & _ & Hn).
  rewrite Ht in Et. injection Et as <-.
  exists raw. split; [exact Eraw|]. split; [exact Hn|].
  by destruct (utf8_encode_defined p raw Eraw) as (_ & _ & ?).
Qed.

Lemma token_length_witness :
  let p : list N := [47; 0xFF; 0x20AC; 0x1F600] in
  exists raw,
    Utf8.encode p = Some raw
    /\ length (lit "L8O_4oKs8J-YgA") = ((4 * length raw + 2) / 3)%nat
    /\ (length p <= length raw <= 4 * length p)%nat.
Proof.
  intros p. apply (token_length p (lit "L8O_4oKs8J-YgA")). reflexivity.
Defined.

(** X4. Whatever a token decodes to can be encoded, and the token it then
    gets decodes to the same path: a decoded path always has a token of
    the codec's own making, though it need not be the token given. *)
Theorem decoded_path_has_token t p :
  b64url_decode_path t = Some p ->
  exists t',
    b64url_encode_path p = Some t'
    /\ b64url_decode_path t' = Some p
    /\ Forall (fun c => url_token_char c = true) t'.
Proof.
  unfold b64url_decode_path.
  destruct (urlsafe_b64decode _) as [raw|]; [|discriminate].
  cbn [mbind option_bind]. intros Hd.
  apply utf8_encode_decode in Hd.
  destruct (encode_path_of_octets p raw Hd) as (t' & H1 & H2 & H3 & _). eauto.
Qed.

Lemma decoded_path_has_token_witness :
  exists t',
    b64url_encode_path (lit "/ab") = Some t'
    /\ b64url_decode_path t' = Some (lit "/ab")
    /\ Forall (fun c => url_token_char c = true) t'.
Proof.
  apply (decoded_path_has_token (lit "!L2Fi=") (lit "/ab")). reflexivity.
Defined.

Section CodecInHandlers.
Context `{Env}.

(** X5. Handed the token of a path, the lookup of the video decodes it to
    that path, takes the form [pathlib] gives it, and asks once whether
    that exists: with a file there, what comes back is the path in that
    form, whatever the spelling the token was made from. *)
Theorem video_path_of_token p t w :
  b64url_encode_path p = Some t ->
  is_Some (fs w !! Path p) ->
  get_video_path_from_id_or_404 t w
  = (Returned (inr (Path p)),
     mkWorld (fs w) (trace w ++ [EvExists (Path p)])).
Proof.
  intros Ht Hsome. destruct (encode_path_octets p t Ht) as [raw Eraw].
  destruct (encode_path_of_octets p raw Eraw) as (t' & Et & Hd & _).
  rewrite Ht in Et. injection Et as <-.
  unfold get_video_path_from_id_or_404. rewrite Hd. cbn zeta.
  rewrite bind_path_exists. by rewrite (bool_decide_true _ Hsome).
Qed.

End CodecInHandlers.

Lemma video_path_of_token_witness :
  let w : World := mkWorld {[ lit "/a.mp4" := lit "video" ]} [] in
  b64url_decode_path (lit "L2EubXA0Lw") = Some (lit "/a.mp4/")
  /\ get_video_path_from_id_or_404 (H := sample_env) (lit "L2EubXA0Lw") w
     = (Returned (inr (lit "/a.mp4")), mkWorld (fs w) [EvExists (lit "/a.mp4")]).
Proof.
  intros w. split; [reflexivity|].
  apply (video_path_of_token (H := sample_env) (lit "/a.mp4/") (lit "L2EubXA0Lw") w).
  - reflexivity.
  - vm_compute. eauto.
Defined.

(** ** Where artifacts live *)

Lemma joinpath_relative d name :
  name <> [] -> (forall r, name <> 47 :: r) -> joinpath d name = d ++ 47 :: name.
Proof.
  intros Hne Hrel. destruct name as [|c r]; [done|].
  rewrite joinpath_cons. destruct (c =? 47) eqn:E; [|reflexivity].
  apply N.eqb_eq in E. subst c. by destruct (Hrel r).
Qed.

Lemma relative_app id tl :
  (forall r, id <> 47 :: r) -> tl <> [] -> (forall r, tl <> 47 :: r) ->
  id ++ tl <> [] /\ (forall r, id ++ tl <> 47 :: r).
Proof.
  intros Hid Hne Htl. destruct id as [|c id'].
  - cbn [app]. split; [exact Hne|exact Htl].
  - split; [done|]. intros r E. cbn [app] in E. injection E as -> _.
    by destruct (Hid id').
Qed.

(** Cutting a text at its last character that is not a digit. *)
Lemma digits_prefix_unique a1 : forall a2 x1 x2 (r1 r2 : list N),
  Forall (fun d => is_digit d = true) a1 ->
  Forall (fun d => is_digit d = true) a2 ->
  is_digit x1 = false -> is_digit x2 = false ->
  a1 ++ x1 :: r1 = a2 ++ x2 :: r2 ->
  a1 = a2 /\ x1 = x2 /\ r1 = r2.
Proof.
  induction a1 as [|c a1 IH]; intros a2 x1 x2 r1 r2 H1 H2 Hx1 Hx2 E.
  - destruct a2 as [|c2 a2]; cbn [app] in E.
    + by injection E as -> ->.
    + injection E as -> _. apply Forall_cons in H2 as [Hc _]. congruence.
  - apply Forall_cons in H1 as [Hc H1].
    destruct a2 as [|c2 a2]; cbn [app] in E.
    + injection E as -> _. congruence.
    + injection E as -> E. apply Forall_cons in H2 as [_ H2].
      destruct (IH a2 x1 x2 r1 r2 H1 H2 Hx1 Hx2 E) as (-> & -> & ->). done.
Qed.

Lemma digits_suffix_unique (l1 l2 d1 d2 : list N) x1 x2 :
  Forall (fun d => is_digit d = true) d1 ->
  Forall (fun d => is_digit d = true) d2 ->
  is_digit x1 = false -> is_digit x2 = false ->
  l1 ++ x1 :: d1 = l2 ++ x2 :: d2 ->
  l1 = l2 /\ x1 = x2 /\ d1 = d2.
Proof.
  intros H1 H2 Hx1 Hx2 E.
  apply (f_equal (@rev N)) in E. rewrite !rev_app_distr in E. cbn [rev] in E.
  rewrite <- !app_assoc in E. cbn [app] in E.
  apply digits_prefix_unique in E; try assumption; try by apply Forall_rev.
  destruct E as (Ed & -> & El).
  apply (f_equal (@rev N)) in Ed, El. rewrite !rev_involutive in Ed, El.
  by subst.
Qed.

Lemma str_of_Z_injective a b : str_of_Z a = str_of_Z b -> a = b.
Proof.
  intros E. apply (f_equal py_int) in E. rewrite !py_int_str_of_Z in E. congruence.
Qed.

Lemma signed_suffix_shape s :
  exists x ds,
    signed_suffix s = x :: ds
    /\ x = (if (0 <=? s)%Z then 43 else 45)
    /\ ds = str_of_Z (Z.abs s)
    /\ is_digit x = false
    /\ Forall (fun d => is_digit d = true) ds.
Proof.
  unfold signed_suffix.
  destruct (str_of_Z_nonneg_digits (Z.abs s) ltac:(lia)) as [Hd _].
  destruct (0 <=? s)%Z; eexists _, _; (split; [reflexivity|]); auto.
Qed.

Lemma signed_suffix_injective s1 s2 :
  signed_suffix s1 = signed_suffix s2 -> s1 = s2.
Proof.
  destruct (signed_suffix_shape s1) as (x1 & d1 & -> & -> & -> & _).
  destruct (signed_suffix_shape s2) as (x2 & d2 & -> & -> & -> & _).
  intros E. injection E as Ex Ed. apply str_of_Z_injective in Ed.
  destruct (0 <=? s1)%Z eqn:E1, (0 <=? s2)%Z eqn:E2; try discriminate; lia.
Qed.

(** The file name of a pitched audio gives back the identifier and the
    number of semitones. *)
Lemma pitched_name_injective id1 id2 s1 s2 :
  id1 ++ lit "_" ++ signed_suffix s1 ++ lit ".wav"
  = id2 ++ lit "_" ++ signed_suffix s2 ++ lit ".wav" ->
  id1 = id2 /\ s1 = s2.
Proof.
  intros E.
  destruct (signed_suffix_shape s1) as (x1 & d1 & E1 & _ & _ & Hx1 & Hd1).
  destruct (signed_suffix_shape s2) as (x2 & d2 & E2 & _ & _ & Hx2 & Hd2).
  assert (E' : (id1 ++ lit "_") ++ x1 :: d1 = (id2 ++ lit "_") ++ x2 :: d2).
  { apply (app_inv_tail (lit ".wav")). rewrite <- !app_assoc, <- E1, <- E2.
    exact E. }
  apply digits_suffix_unique in E'; try assumption.
  destruct E' as (El & -> & ->).
  apply app_inv_tail in El. split; [exact El|].
  apply signed_suffix_injective. by rewrite E1, E2.
Qed.

Section Locations.
Context `{Env}.

Lemma cache_dirs :
  THUMBS_DIR = APP_ROOT ++ lit "/temp/thumbs"
  /\ AUDIO_DIR = APP_ROOT ++ lit "/temp/audio"
  /\ PITCH_DIR = APP_ROOT ++ lit "/temp/pitch".
Proof.
  unfold THUMBS_DIR, AUDIO_DIR, PITCH_DIR, TEMP_DIR.
  change (joinpath APP_ROOT (lit "temp")) with (APP_ROOT ++ lit "/temp").
  change (joinpath ?d (lit "thumbs")) with (d ++ lit "/thumbs").
  change (joinpath ?d (lit "audio")) with (d ++ lit "/audio").
  change (joinpath ?d (lit "pitch")) with (d ++ lit "/pitch").
  repeat split; rewrite <- app_assoc; reflexivity.
Qed.

Lemma cached_locations id s :
  (forall r, id <> 47 :: r) ->
  thumb_path_for_id id = APP_ROOT ++ lit "/temp/thumbs/" ++ id ++ lit ".jpg"
  /\ audio_base_path_for_id id = APP_ROOT ++ lit "/temp/audio/" ++ id ++ lit ".wav"
  /\ pitched_audio_path_for_id id s
     = APP_ROOT ++ lit "/temp/pitch/" ++ id ++ lit "_" ++ signed_suffix s ++ lit ".wav".
Proof.
  intros Hid. destruct cache_dirs as (Et & Ea & Ep).
  unfold thumb_path_for_id, audio_base_path_for_id, pitched_audio_path_for_id.
  rewrite Et, Ea, Ep.
  split; [|split].
  - destruct (relative_app id (lit ".jpg") Hid) as [? ?]; [done|by intros r [=]|].
    rewrite joinpath_relative by assumption. rewrite <- app_assoc. reflexivity.
  - destruct (relative_app id (lit ".wav") Hid) as [? ?]; [done|by intros r [=]|].
    rewrite joinpath_relative by assumption. rewrite <- app_assoc. reflexivity.
  - destruct (relative_app id (lit "_" ++ signed_suffix s ++ lit ".wav") Hid)
      as [? ?]; [done|by intros r [=]|].
    rewrite joinpath_relative by assumption. rewrite <- app_assoc. reflexivity.
Qed.

(** X6. For identifiers without a [/], as every token of the codec is,
    the location of a thumbnail, base-audio or pitched-audio key tells
    the key: two such keys with the same location have the same
    identifier, the same kind and the same number of semitones. *)
Theorem resolve_injective k1 k2 v1 v2 :
  Forall (fun c => c <> 47) (identifier k1) ->
  Forall (fun c => c <> 47) (identifier k2) ->
  (forall s, kind k1 <> MuxedOutput s) ->
  (forall s, kind k2 <> MuxedOutput s) ->
  resolve k1 v1 = resolve k2 v2 ->
  k1 = k2.
Proof.
  destruct k1 as [id1 kd1], k2 as [id2 kd2]. cbn [identifier kind].
  intros Hs1 Hs2 Hm1 Hm2. unfold resolve. cbn [identifier kind].
  assert (Hr1 : forall r, id1 <> 47 :: r).
  { intros r ->. by inversion Hs1. }
  assert (Hr2 : forall r, id2 <> 47 :: r).
  { intros r ->. by inversion Hs2. }
  assert (Hloc1 := fun s => cached_locations id1 s Hr1).
  assert (Hloc2 := fun s => cached_locations id2 s Hr2).
  destruct kd1 as [| |s1|s1], kd2 as [| |s2|s2];
    try (by destruct (Hm1 s1)); try (by destruct (Hm2 s2));
    repeat match goal with
           | |- context [thumb_path_for_id ?i] =>
               rewrite (proj1 (cached_locations i 0 ltac:(assumption)))
           | |- context [audio_base_path_for_id ?i] =>
               rewrite (proj1 (proj2 (cached_locations i 0 ltac:(assumption))))
           | |- context [pitched_audio_path_for_id ?i ?s] =>
               rewrite (proj2 (proj2 (cached_locations i s ltac:(assumption))))
           end;
    intros E%app_inv_head; try discriminate E.
  - apply (app_inv_head (lit "/temp/thumbs/")), app_inv_tail in E. by subst.
  - apply (app_inv_head (lit "/temp/audio/")), app_inv_tail in E. by subst.
  - apply (app_inv_head (lit "/temp/pitch/")), pitched_name_injective in E.
    destruct E as [-> ->]. reflexivity.
Qed.

End Locations.

Lemma resolve_injective_witness :
  let k1 := mkKey (lit "L2EubXA0") (PitchedAudio 3) in
  let k2 := mkKey (lit "L2EubXA0_") (PitchedAudio (-3)) in
  resolve (H := sample_env) k1 [] <> resolve (H := sample_env) k2 [].
Proof.
  intros k1 k2 E.
  apply (resolve_injective (H := sample_env) k1 k2 [] []) in E.
  - discriminate E.
  - repeat (constructor; [discriminate|]). constructor.
  - repeat (constructor; [discriminate|]). constructor.
  - intros s [=].
  - intros s [=].
Defined.

(** ** The range responder on other forms of the header *)

Lemma range_of_header_open start size :
  (0 <= start)%Z ->
  range_of_header (lit "bytes=" ++ str_of_Z start ++ lit "-") size
  = Some (start, (size - 1)%Z, (size - 1 - start + 1)%Z).
Proof.
  intros Hs. destruct (str_of_Z_nonneg_digits start Hs) as [Hds Hns].
  unfold range_of_header.
  change (lit "bytes=" ++ ?x) with (lit "bytes" ++ 61 :: x).
  rewrite partition_found by (repeat constructor; done).
  rewrite bool_decide_false by (intros Hq; by apply Hq).
  change (lit "-") with (45 :: []).
  rewrite partition_found.
  2:{ eapply Forall_impl; [exact Hds|]. intros d Hd. by apply is_digit_neq. }
  destruct (str_of_Z start) as [|d0 r0] eqn:Es; [done|]. rewrite <- Es.
  rewrite py_int_str_of_Z. cbn [mbind option_bind].
  assert (E : (size <=? size - 1)%Z = false) by lia. by rewrite E.
Qed.

Lemma range_of_header_suffix n size :
  (0 <= n)%Z ->
  range_of_header (lit "bytes=-" ++ str_of_Z n) size
  = Some (0%Z, Z.min n (size - 1), (Z.min n (size - 1) - 0 + 1)%Z).
Proof.
  intros Hn. destruct (str_of_Z_nonneg_digits n Hn) as [Hds Hns].
  unfold range_of_header.
  change (lit "bytes=-" ++ ?x) with (lit "bytes" ++ 61 :: [] ++ 45 :: x).
  rewrite partition_found by (repeat constructor; done).
  rewrite bool_decide_false by (intros Hq; by apply Hq).
  rewrite partition_found by constructor.
  destruct (str_of_Z n) as [|d0 r0] eqn:Es; [done|]. rewrite <- Es.
  rewrite py_int_str_of_Z. cbn [mbind option_bind].
  destruct (size <=? n)%Z eqn:E; do 3 f_equal; lia.
Qed.

Section RangeForms.
Context `{Env}.

(** X7. [bytes=start-] with the start inside the file is answered 206 with
    everything from [start] to the last byte, [Content-Range: bytes
    start-(S-1)/S] and [Content-Length: S - start]. *)
Theorem send_file_range_open_ended req path mt content w start :
  fs w !! path = Some content ->
  range_header req = Some (lit "bytes=" ++ str_of_Z start ++ lit "-") ->
  (0 <= start < Z.of_nat (length content))%Z ->
  let size := Z.of_nat (length content) in
  send_file_range req path mt w
  = (Returned
       (mkResponse 206 (BBytes (drop (Z.to_nat start) content)) mt
          [(lit "Content-Range",
            lit "bytes " ++ str_of_Z start ++ lit "-" ++ str_of_Z (size - 1)
            ++ lit "/" ++ str_of_Z size);
           (lit "Accept-Ranges", lit "bytes");
           (lit "Content-Length", str_of_Z (size - start));
           (lit "Cache-Control", lit "no-store")]), w)
  /\ Z.of_nat (length (drop (Z.to_nat start) content)) = (size - start)%Z.
Proof.
  intros Hfs Hh Hs size. split.
  - rewrite (send_file_range_parsed req path mt content w _ start (size - 1)
               (size - 1 - start + 1) Hfs Hh);
      [|by intros [=]|apply range_of_header_open; lia|lia|lia].
    assert (E : (size - 1 - start + 1 <? 0)%Z = false) by lia. rewrite E.
    replace (size - 1 - start + 1)%Z with (size - start)%Z by lia.
    rewrite take_ge; [reflexivity|]. rewrite length_drop. lia.
  - rewrite length_drop. lia.
Qed.

(** X8. [bytes=-n] is not read as the last [n] bytes: the missing start
    counts as 0 and [n] as the end, so the answer is 206 with the first
    [min n (S-1) + 1] bytes of the file. *)
Theorem send_file_range_suffix_form req path mt content w n :
  fs w !! path = Some content ->
  range_header req = Some (lit "bytes=-" ++ str_of_Z n) ->
  (0 <= n)%Z ->
  let size := Z.of_nat (length content) in
  let end_ := Z.min n (size - 1) in
  send_file_range req path mt w
  = (Returned
       (mkResponse 206 (BBytes (take (Z.to_nat (end_ + 1)) content)) mt
          [(lit "Content-Range",
            lit "bytes " ++ str_of_Z 0 ++ lit "-" ++ str_of_Z end_
            ++ lit "/" ++ str_of_Z size);
           (lit "Accept-Ranges", lit "bytes");
           (lit "Content-Length", str_of_Z (end_ + 1));
           (lit "Cache-Control", lit "no-store")]), w).
Proof.
  intros Hfs Hh Hn size end_.
  rewrite (send_file_range_parsed req path mt content w _ 0 end_ (end_ - 0 + 1)
             Hfs Hh);
    [|by intros [=]|by apply range_of_header_suffix|lia|unfold end_, size; lia].
  assert (E : (end_ - 0 + 1 <? 0)%Z = false) by (unfold end_, size; lia).
  rewrite E. replace (end_ - 0 + 1)%Z with (end_ + 1)%Z by lia.
  reflexivity.
Qed.

(** X9. A range whose end lies two bytes before its start, as
    [bytes=5-3], is not refused: the length handed to [read] is [-1],
    which reads to the end of the file, so the answer is 206 with every
    byte from [start] on, under a [Content-Range] that names the range as
    asked and a [Content-Length] of [-1]. *)
Theorem send_file_range_reversed req path mt content w start e :
  fs w !! path = Some content ->
  range_header req
    = Some (lit "bytes=" ++ str_of_Z start ++ lit "-" ++ str_of_Z e) ->
  (0 <= e)%Z ->
  let size := Z.of_nat (length content) in
  let end_ := Z.min e (size - 1) in
  start = (end_ + 2)%Z ->
  send_file_range req path mt w
  = (Returned
       (mkResponse 206 (BBytes (drop (Z.to_nat start) content)) mt
          [(lit "Content-Range",
            lit "bytes " ++ str_of_Z start ++ lit "-" ++ str_of_Z end_
            ++ lit "/" ++ str_of_Z size);
           (lit "Accept-Ranges", lit "bytes");
           (lit "Content-Length", str_of_Z (-1));
           (lit "Cache-Control", lit "no-store")]), w).
Proof.
  intros Hfs Hh He size end_ Hrev.
  assert (Hs : (0 <= start)%Z) by (unfold end_, size in Hrev; lia).
  replace (-1)%Z with (end_ - start + 1)%Z by lia.
  assert (Hend : (if (size <=? e)%Z then (size - 1)%Z else e) = end_).
  { unfold end_. destruct (size <=? e)%Z eqn:E; lia. }
  rewrite (send_file_range_parsed req path mt content w _ start end_
             (end_ - start + 1) Hfs Hh); [|by intros [=]| |lia|lia].
  - assert (E : (end_ - start + 1 <? 0)%Z = true) by lia. by rewrite E.
  - rewrite range_of_header_bounds by lia. fold size. by rewrite Hend.
Qed.

End RangeForms.

Lemma send_file_range_open_ended_witness :
  let req := mkRequest (Some (lit "bytes=" ++ str_of_Z 4 ++ lit "-")) [] None None in
  let w : World := mkWorld {[ lit "/f" := lit "0123456789" ]} [] in
  send_file_range (H := sample_env) req (lit "/f") None w
  = (Returned
       (mkResponse 206 (BBytes (lit "456789")) None
          [(lit "Content-Range", lit "bytes 4-9/10");
           (lit "Accept-Ranges", lit "bytes");
           (lit "Content-Length", lit "6");
           (lit "Cache-Control", lit "no-store")]), w).
Proof.
  intros req w.
  apply (proj1 (send_file_range_open_ended (H := sample_env) req (lit "/f") None
                  (lit "0123456789") w 4 eq_refl eq_refl ltac:(cbn; lia))).
Defined.

Lemma send_file_range_suffix_form_witness :
  let req := mkRequest (Some (lit "bytes=-" ++ str_of_Z 3)) [] None None in
  let w : World := mkWorld {[ lit "/f" := lit "0123456789" ]} [] in
  send_file_range (H := sample_env) req (lit "/f") None w
  = (Returned
       (mkResponse 206 (BBytes (lit "0123")) None
          [(lit "Content-Range", lit "bytes 0-3/10");
           (lit "Accept-Ranges", lit "bytes");
           (lit "Content-Length", lit "4");
           (lit "Cache-Control", lit "no-store")]), w).
Proof.
  intros req w.
  apply (send_file_range_suffix_form (H := sample_env) req (lit "/f") None
           (lit "0123456789") w 3 eq_refl eq_refl ltac:(lia)).
Defined.

Lemma send_file_range_reversed_witness :
  let req := mkRequest (Some (lit "bytes=" ++ str_of_Z 5 ++ lit "-" ++ str_of_Z 3))
               [] None None in
  let w : World := mkWorld {[ lit "/f" := lit "0123456789" ]} [] in
  send_file_range (H := sample_env) req (lit "/f") None w
  = (Returned
       (mkResponse 206 (BBytes (lit "56789")) None
          [(lit "Content-Range", lit "bytes 5-3/10");
           (lit "Accept-Ranges", lit "bytes");
           (lit "Content-Length", lit "-1");
           (lit "Cache-Control", lit "no-store")]), w).
Proof.
  intros req w.
  apply (send_file_range_reversed (H := sample_env) req (lit "/f") None
           (lit "0123456789") w 5 3 eq_refl eq_refl ltac:(lia) ltac:(cbn; lia)).
Defined.

(** ** Requests that are turned away, served from what is there, or fail in the program *)

Section RouteSteps.
Context `{Env}.

Lemma bind_video_path {B} id p (k : Response Seconds + list N -> M B) w :
  Path <$> b64url_decode_path id = Some p ->
  (get_video_path_from_id_or_404 id ≫= k) w
  = k (if bool_decide (is_Some (fs w !! p)) then inr p
       else inl (abort_json 404 (lit "Video not found")))
      (mkWorld (fs w) (trace w ++ [EvExists p])).
Proof.
  intros Hd. destruct (decoded_video id p Hd) as (text & Htext & ->).
  unfold get_video_path_from_id_or_404. rewrite Htext. run_m.
  rewrite path_exists_run. by destruct (bool_decide _).
Qed.

Lemma bind_video_path_invalid {B} id (k : Response Seconds + list N -> M B) w :
  b64url_decode_path id = None ->
  (get_video_path_from_id_or_404 id ≫= k) w
  = k (inl (abort_json 400 (lit "Invalid video id"))) w.
Proof. intros Hd. unfold get_video_path_from_id_or_404. by rewrite Hd. Qed.

(** A producer whose output is missing and whose program fails. *)
Lemma extract_audio_wav_fails v out w :
  fs w !! out = None ->
  (tool (extract_audio_cmd v out) (fs w)).1.1.1 <> 0%Z ->
  extract_audio_wav v out w
  = (Raised (lit "ffmpeg failed to extract audio: "
             ++ (tool (extract_audio_cmd v out) (fs w)).1.2),
     mkWorld (tool (extract_audio_cmd v out) (fs w)).2
       (trace w ++ [EvExists out; EvRun (extract_audio_cmd v out)])).
Proof.
  intros Hnone Hbad. unfold extract_audio_wav. rewrite bind_path_exists.
  rewrite bool_decide_false by (rewrite Hnone; by intros [? ?]).
  unfold run_cmd. run_m. cbn [fs trace].
  destruct (tool _ (fs w)) as [[[code out'] err] fs']. cbn [fst snd] in *.
  rewrite (bool_decide_true _ Hbad). by rewrite <- app_assoc.
Qed.

Lemma sox_pitch_shift_wav_fails a b s w :
  fs w !! b = None ->
  (tool (sox_cmd a b s) (fs w)).1.1.1 <> 0%Z ->
  sox_pitch_shift_wav a b s w
  = (Raised (lit "SoX failed to pitch shift: " ++ (tool (sox_cmd a b s) (fs w)).1.2),
     mkWorld (tool (sox_cmd a b s) (fs w)).2
       (trace w ++ [EvExists b; EvRun (sox_cmd a b s)])).
Proof.
  intros Hnone Hbad. unfold sox_pitch_shift_wav. rewrite bind_path_exists.
  rewrite bool_decide_false by (rewrite Hnone; by intros [? ?]).
  unfold run_cmd. run_m. cbn [fs trace].
  destruct (tool _ (fs w)) as [[[code out'] err] fs']. cbn [fst snd] in *.
  rewrite (bool_decide_true _ Hbad). by rewrite <- app_assoc.
Qed.

Lemma producer_hit_extract v out w :
  is_Some (fs w !! out) ->
  extract_audio_wav v out w
  = (Returned tt, mkWorld (fs w) (trace w ++ [EvExists out])).
Proof.
  intros Hs. unfold extract_audio_wav.
  by rewrite bind_path_exists, (bool_decide_true _ Hs).
Qed.

Lemma producer_hit_sox a b s w :
  is_Some (fs w !! b) ->
  sox_pitch_shift_wav a b s w
  = (Returned tt, mkWorld (fs w) (trace w ++ [EvExists b])).
Proof.
  intros Hs. unfold sox_pitch_shift_wav.
  by rewrite bind_path_exists, (bool_decide_true _ Hs).
Qed.

End RouteSteps.

Section Extraction.
Context `{Env}.

(** X10. An extraction request with no identifier or an empty one (400,
    [Missing 'id']), or with an identifier that does not decode (400,
    [Invalid video id]), is turned away before anything is looked up or
    run, with every file as it was. *)
Theorem api_extract_audio_rejects req w :
  ((json_id req = None \/ json_id req = Some []) ->
   api_extract_audio req w
   = (Returned (abort_json 400 (lit "Missing 'id'")), w))
  /\ (forall id, json_id req = Some id -> id <> [] ->
      b64url_decode_path id = None ->
      api_extract_audio req w
      = (Returned (abort_json 400 (lit "Invalid video id")), w)).
Proof.
  unfold api_extract_audio. split.
  - by intros [-> | ->].
  - intros id -> Hne Hd. destruct id as [|c r]; [done|].
    by rewrite bind_video_path_invalid.
Qed.

(** X11. When the video is there, the base audio is not, and ffmpeg exits
    with a status other than zero, the extraction request is answered 500
    with the text [ffmpeg failed to extract audio: ] followed by what
    ffmpeg wrote to its standard error; ffmpeg was run once. *)
Theorem api_extract_audio_tool_failure req id p w :
  json_id req = Some id -> id <> [] ->
  Path <$> b64url_decode_path id = Some p ->
  is_Some (fs w !! p) ->
  fs w !! audio_base_path_for_id id = None ->
  let cmd := extract_audio_cmd p (audio_base_path_for_id id) in
  (tool cmd (fs w)).1.1.1 <> 0%Z ->
  api_extract_audio req w
  = (Returned (abort_json 500 (lit "ffmpeg failed to extract audio: "
                               ++ (tool cmd (fs w)).1.2)),
     mkWorld (tool cmd (fs w)).2
       (trace w ++ [EvExists p; EvExists (audio_base_path_for_id id); EvRun cmd])).
Proof.
  intros Hid Hne Hd Hp Hnone cmd Hbad.
  unfold api_extract_audio. rewrite Hid. destruct id as [|c r]; [done|].
  rewrite (bind_video_path _ p) by done. rewrite (bool_decide_true _ Hp).
  run_m. rewrite extract_audio_wav_fails by done.
  cbn [fs trace]. fold cmd. by rewrite <- app_assoc.
Qed.

(** X12. When the video and its base audio are both there and the audio's
    WAV header gives a duration that is not zero, the extraction request
    is answered from what is there: 200 with the link to the audio at
    pitch 0, that duration and the video's file name, after two lookups,
    with no program run and no file changed. *)
Theorem api_extract_audio_cached req id p content d w :
  json_id req = Some id -> id <> [] ->
  Path <$> b64url_decode_path id = Some p ->
  is_Some (fs w !! p) ->
  fs w !! audio_base_path_for_id id = Some content ->
  wav_header_seconds content = Some d ->
  nonzero d = true ->
  api_extract_audio req w
  = (Returned
       (jsonify
          [(lit "ok", JBool true);
           (lit "audio_url",
            JUrl (lit "serve_audio") [(lit "id", id); (lit "pitch", lit "0")]);
           (lit "duration_seconds", JFloat (Some d));
           (lit "duration", JStr (human_readable_duration (Some d)));
           (lit "filename", JStr (path_name p))]),
     mkWorld (fs w)
       (trace w ++ [EvExists p; EvExists (audio_base_path_for_id id)])).
Proof.
  intros Hid Hne Hd Hp Hfs Hh Hnz.
  unfold api_extract_audio. rewrite Hid. destruct id as [|c r]; [done|].
  rewrite (bind_video_path _ p) by done. rewrite (bool_decide_true _ Hp).
  run_m. rewrite producer_hit_extract by (cbn [fs]; rewrite Hfs; eauto).
  cbn match.
  rewrite (duration_from_header _ _ content d) by done.
  cbn [fs trace]. by rewrite <- app_assoc.
Qed.

End Extraction.

Lemma api_extract_audio_rejects_witness :
  let w : World := mkWorld {[ lit "/a.mp4" := lit "video" ]} [] in
  api_extract_audio (H := sample_env) (mkRequest None [] None None) w
  = (Returned (abort_json 400 (lit "Missing 'id'")), w)
  /\ api_extract_audio (H := sample_env) (mkRequest None [] (Some (lit "L")) None) w
     = (Returned (abort_json 400 (lit "Invalid video id")), w).
Proof.
  intros w. split.
  - apply (proj1 (api_extract_audio_rejects (H := sample_env)
                    (mkRequest None [] None None) w)). by left.
  - apply (proj2 (api_extract_audio_rejects (H := sample_env)
                    (mkRequest None [] (Some (lit "L")) None) w) (lit "L"));
      [reflexivity|discriminate|reflexivity].
Defined.

Lemma api_extract_audio_tool_failure_witness :
  let w : World := mkWorld {[ lit "/a.mp4" := lit "video" ]} [] in
  let out := audio_base_path_for_id (H := failing_env) (lit "L2EubXA0") in
  api_extract_audio (H := failing_env)
    (mkRequest None [] (Some (lit "L2EubXA0")) None) w
  = (Returned (abort_json 500 (lit "ffmpeg failed to extract audio: no such codec")),
     mkWorld (fs w)
       [EvExists (lit "/a.mp4"); EvExists out;
        EvRun (extract_audio_cmd (lit "/a.mp4") out)]).
Proof.
  intros w out.
  apply (api_extract_audio_tool_failure (H := failing_env)
           (mkRequest None [] (Some (lit "L2EubXA0")) None)
           (lit "L2EubXA0") (lit "/a.mp4") w).
  - reflexivity.
  - discriminate.
  - reflexivity.
  - vm_compute. eauto.
  - vm_compute. reflexivity.
  - vm_compute. discriminate.
Defined.

Lemma api_extract_audio_cached_witness :
  let out := audio_base_path_for_id (H := sample_env) (lit "L2EubXA0") in
  let w : World :=
    mkWorld (<[ out := lit "RIFF" ]> {[ lit "/a.mp4" := lit "video" ]}) [] in
  api_extract_audio (H := sample_env)
    (mkRequest None [] (Some (lit "L2EubXA0")) None) w
  = (Returned
       (jsonify (H := sample_env)
          [(lit "ok", JBool true);
           (lit "audio_url",
            JUrl (lit "serve_audio")
              [(lit "id", lit "L2EubXA0"); (lit "pitch", lit "0")]);
           (lit "duration_seconds", JFloat (Some 4%Z));
           (lit "duration", JStr (lit "00:04"));
           (lit "filename", JStr (lit "a.mp4"))]),
     mkWorld (fs w) [EvExists (lit "/a.mp4"); EvExists out]).
Proof.
  intros out w.
  apply (api_extract_audio_cached (H := sample_env)
           (mkRequest None [] (Some (lit "L2EubXA0")) None)
           (lit "L2EubXA0") (lit "/a.mp4") (lit "RIFF") 4%Z w).
  - reflexivity.
  - discriminate.
  - reflexivity.
  - vm_compute. eauto.
  - vm_compute. reflexivity.
  - reflexivity.
  - reflexivity.
Defined.

Section PitchAndStore.
Context `{Env}.


(** X14. When the base audio is there, the pitched audio is not, and sox
    exits with a status other than zero, the pitch request is answered
    500 with [SoX failed to pitch shift: ] followed by what sox wrote to
    its standard error; sox was run once, with 100 cents a semitone. *)
Theorem api_pitch_tool_failure req id s w :
  json_id req = Some id ->
  json_semitones req = Some (InInt s) ->
  (-8 <= s <= 8)%Z ->
  is_Some (fs w !! audio_base_path_for_id id) ->
  fs w !! pitched_audio_path_for_id id s = None ->
  let base := audio_base_path_for_id id in
  let out := pitched_audio_path_for_id id s in
  let cmd := [lit "sox"; lit "-G"; base; out; lit "pitch"; str_of_Z (s * 100)] in
  (tool cmd (fs w)).1.1.1 <> 0%Z ->
  api_pitch req w
  = (Returned (abort_json 500 (lit "SoX failed to pitch shift: "
                               ++ (tool cmd (fs w)).1.2)),
     mkWorld (tool cmd (fs w)).2
       (trace w ++ [EvExists base; EvExists out; EvRun cmd])).
Proof.
  intros Hid Hs Hr Hb Hnone base out cmd Hbad. unfold api_pitch. rewrite Hid, Hs.
  cbn [int_of_json]. rewrite bind_ret.
  assert (E : ((s <? -8) || (8 <? s))%Z = false) by (apply orb_false_iff; lia).
  rewrite E, bind_path_exists. rewrite (bool_decide_true _ Hb). cbn [negb].
  run_m. rewrite sox_pitch_shift_wav_fails by done.
  cbn [fs trace]. fold base out. change (sox_cmd base out s) with cmd.
  by rewrite <- app_assoc.
Qed.

(** X15. A pitch request whose pitched audio is already there, with a WAV
    header that gives a duration that is not zero, is answered from what
    is there: 200 with the link for that number of semitones and that
    duration, after two lookups, with no program run and no file
    changed. *)
Theorem api_pitch_cached req id s content d w :
  json_id req = Some id ->
  json_semitones req = Some (InInt s) ->
  (-8 <= s <= 8)%Z ->
  is_Some (fs w !! audio_base_path_for_id id) ->
  fs w !! pitched_audio_path_for_id id s = Some content ->
  wav_header_seconds content = Some d ->
  nonzero d = true ->
  api_pitch req w
  = (Returned
       (jsonify
          [(lit "ok", JBool true);
           (lit "audio_url",
            JUrl (lit "serve_audio") [(lit "id", id); (lit "pitch", str_of_Z s)]);
           (lit "duration_seconds", JFloat (Some d));
           (lit "duration", JStr (human_readable_duration (Some d)))]),
     mkWorld (fs w)
       (trace w ++ [EvExists (audio_base_path_for_id id);
                    EvExists (pitched_audio_path_for_id id s)])).
Proof.
  intros Hid Hs Hr Hb Hfs Hh Hnz. unfold api_pitch. rewrite Hid, Hs.
  cbn [int_of_json]. rewrite bind_ret.
  assert (E : ((s <? -8) || (8 <? s))%Z = false) by (apply orb_false_iff; lia).
  rewrite E, bind_path_exists. rewrite (bool_decide_true _ Hb). cbn [negb].
  run_m. rewrite producer_hit_sox by (cbn [fs]; rewrite Hfs; eauto).
  cbn match.
  rewrite (duration_from_header _ _ content d) by done.
  cbn [fs trace]. by rewrite <- app_assoc.
Qed.

(** X16. The link a pitch request gives for a number of semitones other
    than zero leads to the pitched audio for that number: a request for
    the audio with the link's arguments, for a non-empty identifier whose
    pitched audio is there, is answered by the range responder on the
    pitched audio's path. *)
Theorem pitch_link_serves_pitched req id s w :
  args req = [(lit "id", id); (lit "pitch", str_of_Z s)] ->
  id <> [] ->
  s <> 0%Z ->
  is_Some (fs w !! pitched_audio_path_for_id id s) ->
  let p := pitched_audio_path_for_id id s in
  audio_url id s = JUrl (lit "serve_audio") (args req)
  /\ serve_audio req w
     = send_file_range req p
         (Some (match guess_type p with
                | None | Some [] => lit "audio/wav"
                | Some t => t
                end))
         (mkWorld (fs w) (trace w ++ [EvExists p])).
Proof.
  intros Hargs Hne Hs Hsome p. split; [by rewrite Hargs|].
  unfold serve_audio. rewrite Hargs.
  unfold get_arg. cbn [List.find fst snd].
  rewrite (bool_decide_true (lit "id" = lit "id")) by reflexivity.
  rewrite (bool_decide_false (lit "id" = lit "pitch")) by discriminate.
  rewrite (bool_decide_true (lit "pitch" = lit "pitch")) by reflexivity.
  cbn [fmap option_fmap option_map default from_option Datatypes.id fst snd].
  rewrite py_int_str_of_Z.
  destruct id as [|c r]; [done|].
  rewrite (bool_decide_false (s = 0%Z)) by done.
  rewrite bind_path_exists. fold p.
  by rewrite (bool_decide_true _ Hsome).
Qed.

(** X17. A semitones field that is a text is read by [int()] before the
    identifier is looked at: a text that is not a number makes both the
    pitch request and the store request raise, identifier or not, with
    nothing done; a text that is a number counts as that number. *)
Theorem semitones_text req t w :
  json_semitones req = Some (InStr t) ->
  (py_int t = None ->
   api_pitch req w = (Raised (lit "invalid literal for int()"), w)
   /\ api_store_video req w = (Raised (lit "invalid literal for int()"), w))
  /\ (forall s, py_int t = Some s ->
      let req' := mkRequest (range_header req) (args req) (json_id req)
                    (Some (InInt s)) in
      api_pitch req w = api_pitch req' w
      /\ api_store_video req w = api_store_video req' w).
Proof.
  intros Ht. split.
  - intros Hbad. unfold api_pitch, api_store_video. rewrite Ht.
    cbn [int_of_json]. rewrite Hbad. done.
  - intros s Hs req'. unfold api_pitch, api_store_video, req'.
    cbn [json_id json_semitones]. rewrite Ht. cbn [int_of_json]. by rewrite Hs.
Qed.



End PitchAndStore.


Lemma api_pitch_tool_failure_witness :
  let base := audio_base_path_for_id (H := failing_env) (lit "L2EubXA0") in
  let out := pitched_audio_path_for_id (H := failing_env) (lit "L2EubXA0") (-2) in
  let w : World := mkWorld {[ base := lit "RIFF" ]} [] in
  api_pitch (H := failing_env)
    (mkRequest None [] (Some (lit "L2EubXA0")) (Some (InInt (-2)))) w
  = (Returned (abort_json 500 (lit "SoX failed to pitch shift: no such codec")),
     mkWorld (fs w)
       [EvExists base; EvExists out;
        EvRun [lit "sox"; lit "-G"; base; out; lit "pitch"; lit "-200"]]).
Proof.
  intros base out w.
  apply (api_pitch_tool_failure (H := failing_env)
           (mkRequest None [] (Some (lit "L2EubXA0")) (Some (InInt (-2))))
           (lit "L2EubXA0") (-2) w eq_refl eq_refl).
  - lia.
  - vm_compute. eauto.
  - vm_compute. reflexivity.
  - vm_compute. discriminate.
Defined.

Lemma api_pitch_cached_witness :
  let base := audio_base_path_for_id (H := sample_env) (lit "L2EubXA0") in
  let out := pitched_audio_path_for_id (H := sample_env) (lit "L2EubXA0") 5 in
  let w : World := mkWorld (<[ out := lit "RIFF-shifted" ]> {[ base := lit "RIFF" ]}) [] in
  api_pitch (H := sample_env)
    (mkRequest None [] (Some (lit "L2EubXA0")) (Some (InInt 5))) w
  = (Returned
       (jsonify (H := sample_env)
          [(lit "ok", JBool true);
           (lit "audio_url",
            JUrl (lit "serve_audio")
              [(lit "id", lit "L2EubXA0"); (lit "pitch", lit "5")]);
           (lit "duration_seconds", JFloat (Some 12%Z));
           (lit "duration", JStr (lit "00:12"))]),
     mkWorld (fs w) [EvExists base; EvExists out]).
Proof.
  intros base out w.
  apply (api_pitch_cached (H := sample_env)
           (mkRequest None [] (Some (lit "L2EubXA0")) (Some (InInt 5)))
           (lit "L2EubXA0") 5 (lit "RIFF-shifted") 12%Z w eq_refl eq_refl).
  - lia.
  - vm_compute. eauto.
  - vm_compute. reflexivity.
  - reflexivity.
  - reflexivity.
Defined.

Lemma pitch_link_serves_pitched_witness :
  let out := pitched_audio_path_for_id (H := sample_env) (lit "L2EubXA0") (-3) in
  let w : World := mkWorld {[ out := lit "RIFF-shifted" ]} [] in
  let req := mkRequest None [(lit "id", lit "L2EubXA0"); (lit "pitch", str_of_Z (-3))]
               None None in
  serve_audio (H := sample_env) req w
  = send_file_range (H := sample_env) req out (Some (lit "audio/x-wav"))
      (mkWorld (fs w) [EvExists out]).
Proof.
  intros out w req.
  apply (proj2 (pitch_link_serves_pitched (H := sample_env) req (lit "L2EubXA0")
                  (-3) w eq_refl ltac:(discriminate) ltac:(discriminate)
                  ltac:(vm_compute; eauto))).
Defined.

Lemma semitones_text_witness :
  let w : World := mkWorld ∅ [] in
  api_pitch (H := sample_env) (mkRequest None [] None (Some (InStr (lit "three")))) w
  = (Raised (lit "invalid literal for int()"), w)
  /\ api_pitch (H := sample_env)
       (mkRequest None [] (Some (lit "L2E")) (Some (InStr (lit " +9 ")))) w
     = api_pitch (H := sample_env)
         (mkRequest None [] (Some (lit "L2E")) (Some (InInt 9))) w
  /\ api_store_video (H := sample_env)
       (mkRequest None [] (Some (lit "L2E")) (Some (InStr [0x663]))) w
     = api_store_video (H := sample_env)
         (mkRequest None [] (Some (lit "L2E")) (Some (InInt 3))) w.
Proof.
  intros w. split; [|split].
  - apply (proj1 (semitones_text (H := sample_env)
                    (mkRequest None [] None (Some (InStr (lit "three"))))
                    (lit "three") w eq_refl)).
    reflexivity.
  - apply (proj2 (semitones_text (H := sample_env)
                    (mkRequest None [] (Some (lit "L2E")) (Some (InStr (lit " +9 "))))
                    (lit " +9 ") w eq_refl) 9%Z).
    reflexivity.
  - apply (proj2 (semitones_text (H := sample_env)
                    (mkRequest None [] (Some (lit "L2E")) (Some (InStr [0x663])))
                    [0x663] w eq_refl) 3%Z).
    reflexivity.
Defined.



(** ** Thumbnails and the listing *)

Section Thumbnails.
Context `{Host}.

(** What one attempt at a thumbnail does: it never raises, and it runs
    ffmpeg once exactly when the thumbnail is missing. *)
Lemma generate_thumbnail_run v p w :
  generate_thumbnail v p w
  = (Returned tt,
     if bool_decide (is_Some (fs w !! p))
     then mkWorld (fs w) (trace w ++ [EvExists p])
     else mkWorld (tool (thumbnail_cmd v p) (fs w)).2
            (trace w ++ [EvExists p; EvRun (thumbnail_cmd v p)])).
Proof.
  unfold generate_thumbnail. rewrite bind_path_exists.
  destruct (bool_decide _); [reflexivity|].
  unfold run_cmd. run_m. cbn [fs trace].
  destruct (tool _ (fs w)) as [r fs']. cbn [snd]. by rewrite <- app_assoc.
Qed.


End Thumbnails.


Lemma ends_with_spec (suffix s : list N) :
  ends_with suffix s = true <-> exists front, s = front ++ suffix.
Proof.
  unfold ends_with. rewrite andb_true_iff, Nat.leb_le, bool_decide_eq_true. split.
  - intros [Hlen Hd]. exists (take (length s - length suffix) s).
    rewrite <- (take_drop (length s - length suffix) s) at 1. by rewrite Hd.
  - intros [front ->]. rewrite length_app. split; [lia|].
    replace (length front + length suffix - length suffix)%nat with (length front) by lia.
    by rewrite drop_app_length.
Qed.

Lemma ascii_lower_is c x :
  ascii_lower c = x ->
  (x = 46 -> c = 46) /\ (x = 52 -> c = 52)
  /\ (x = 109 -> c = 109 \/ c = 77) /\ (x = 112 -> c = 112 \/ c = 80).
Proof.
  unfold ascii_lower. intros <-.
  destruct ((65 <=? c) && (c <=? 90)) eqn:E; bool_to_prop; repeat split; lia.
Qed.

(** The names the listing takes: the last four characters are [.], [m]
    or [M], [p] or [P], and [4]. *)
Lemma is_mp4_name_spec name :
  is_mp4_name name = true
  <-> exists stem a b,
        name = stem ++ [46; a; b; 52]
        /\ (a = 109 \/ a = 77) /\ (b = 112 \/ b = 80).
Proof.
  unfold is_mp4_name. rewrite ends_with_spec. split.
  - intros [front E].
    assert (Hlen : length name = (length front + 4)%nat).
    { rewrite <- (length_map ascii_lower name), E, length_app. reflexivity. }
    rewrite <- (take_drop (length front) name) in E.
    rewrite map_app in E.
    apply app_inj_1 in E as [_ E].
    2:{ rewrite !length_map, length_take. lia. }
    destruct (drop (length front) name) as [|c1 [|c2 [|c3 [|c4 [|c5 r]]]]] eqn:Ed;
      try discriminate E.
    cbn [map] in E. change (lit ".mp4") with [46; 109; 112; 52] in E.
    injection E as E1 E2 E3 E4.
    exists (take (length front) name), c2, c3.
    destruct (ascii_lower_is c1 46 E1) as (H1 & _).
    destruct (ascii_lower_is c4 52 E4) as (_ & H4 & _).
    destruct (ascii_lower_is c2 109 E2) as (_ & _ & H2 & _).
    destruct (ascii_lower_is c3 112 E3) as (_ & _ & _ & H3).
    rewrite <- (H1 eq_refl), <- (H4 eq_refl), <- Ed, take_drop. auto.
  - intros (stem & a & b & -> & Ha & Hb).
    exists (map ascii_lower stem). rewrite map_app. f_equal.
    destruct Ha as [-> | ->], Hb as [-> | ->]; reflexivity.
Qed.

Section Listing.
Context `{Host}.

(** X21. The files found under a search root are exactly those that
    [os.walk] reports, in a directory of the walk, under a name whose last
    four characters are [.mp4] in any mix of upper and lower case; a root
    that does not exist gives none. *)
Theorem iter_mp4_files_spec root p :
  p ∈ iter_mp4_files root
  <-> root_exists root = true
      /\ exists d name,
           d ∈ os_walk root /\ name ∈ d.2 /\ p = joinpath d.1 name
           /\ exists stem a b,
                name = stem ++ [46; a; b; 52]
                /\ (a = 109 \/ a = 77) /\ (b = 112 \/ b = 80).
Proof.
  unfold iter_mp4_files. destruct (root_exists root); cbn [negb].
  - rewrite list_elem_of_In, in_flat_map. split.
    + intros (d & Hd & Hin). apply in_map_iff in Hin as (name & <- & Hn).
      apply filter_In in Hn as [Hn Hmp4]. split; [done|].
      exists d, name. repeat split; try by apply list_elem_of_In.
      by apply is_mp4_name_spec.
    + intros (_ & d & name & Hd & Hn & -> & Hmp4).
      exists d. split; [by apply list_elem_of_In|].
      apply in_map, filter_In. split; [by apply list_elem_of_In|].
      by apply is_mp4_name_spec.
  - split; [by intros ?%elem_of_nil|by intros [? _]].
Qed.

Lemma unique_by_id_spec vs : forall seen,
  NoDup (map video_id (unique_by_id seen vs))
  /\ (forall v, v ∈ unique_by_id seen vs -> v ∈ vs /\ video_id v ∉ seen)
  /\ (forall v, v ∈ vs ->
      video_id v ∈ seen \/ video_id v ∈ map video_id (unique_by_id seen vs)).
Proof.
  induction vs as [|v vs IH]; intros seen; cbn [unique_by_id].
  - split; [constructor|]. split; [by intros v ?%elem_of_nil|by intros v ?%elem_of_nil].
  - case_bool_decide as Hseen.
    + destruct (IH seen) as (H1 & H2 & H3). split; [exact H1|]. split.
      * intros u Hu. destruct (H2 u Hu). split; [by right|done].
      * intros u [->|Hu]%elem_of_cons; [by left|by apply H3].
    + destruct (IH ({[video_id v]} ∪ seen)) as (H1 & H2 & H3).
      split; [|split].
      * cbn [map]. constructor; [|exact H1].
        intros (u & Eu & Hu)%list_elem_of_fmap.
        destruct (H2 u Hu) as [_ Hn]. apply Hn. rewrite <- Eu.
        apply elem_of_union. left. by apply elem_of_singleton.
      * intros u [->|Hu]%elem_of_cons; [split; [by left|done]|].
        destruct (H2 u Hu) as [? Hn]. split; [by right|].
        intros Hs. apply Hn, elem_of_union. by right.
      * intros u [->|Hu]%elem_of_cons; [right; by left|].
        destruct (H3 u Hu) as [Hs|Hr]; [|right; by right].
        apply elem_of_union in Hs as [Hs%elem_of_singleton|Hs]; [|by left].
        right. cbn [map]. rewrite Hs. by left.
Qed.

Lemma collect_videos_spec paths : forall w,
  Forall (Forall scalar_value) paths ->
  exists vs w',
    collect_videos paths w = (Returned vs, w')
    /\ Forall2 (fun p v => b64url_encode_path p = Some (video_id v)
                           /\ video_filename v = path_name p
                           /\ video_thumbnail v = thumb_url (video_id v))
         paths vs
    /\ (tool_runs (trace w') <= tool_runs (trace w) + length paths)%nat.
Proof.
  induction paths as [|p paths IH]; intros w Hall.
  - exists [], w. split; [reflexivity|]. split; [constructor|lia].
  - apply Forall_cons in Hall as [Hp Hall].
    destruct (proj2 (encode_path_defined_aux p) Hp) as [t Ht].
    cbn [collect_videos]. rewrite Ht. run_m. rewrite generate_thumbnail_run.
    set (w1 := if bool_decide _ then _ else _).
    assert (Hw1 : (tool_runs (trace w1) <= tool_runs (trace w) + 1)%nat).
    { unfold w1. destruct (bool_decide _); cbn [trace];
        rewrite tool_runs_app; cbn; lia. }
    destruct (IH w1 Hall) as (vs & w' & E & Hvs & Hruns).
    rewrite E. eexists _, w'. split; [reflexivity|]. split.
    + constructor; [by cbn|exact Hvs].
    + cbn [length]. lia.
Qed.


Lemma collect_videos_raises paths : forall w,
  Exists (fun p => ~ Forall scalar_value p) paths ->
  exists w', collect_videos paths w = (Raised (lit "UnicodeEncodeError"), w').
Proof.
  induction paths as [|p paths IH]; intros w Hex.
  - by apply Exists_nil in Hex.
  - cbn [collect_videos].
    destruct (b64url_encode_path p) as [t|] eqn:Et; [|by exists w].
    assert (Hp : Forall scalar_value p) by (apply encode_path_defined_aux; eauto).
    apply Exists_cons in Hex as [Hbad|Hex]; [done|].
    run_m. rewrite generate_thumbnail_run.
    set (w1 := if bool_decide _ then _ else _).
    destruct (IH w1 Hex) as [w' E]. rewrite E. by exists w'.
Qed.

(** X22. When every file found has a name with a UTF-8 form, the listing
    answers, whatever ffmpeg does with the thumbnails: no identifier
    appears twice, a file is found exactly when an entry carries its
    identifier, and at most one program is run for each file found. *)
Theorem list_videos_entries search_paths w :
  let found := flat_map iter_mp4_files search_paths in
  Forall (Forall scalar_value) found ->
  exists vs w',
    list_videos search_paths w = (Returned vs, w')
    /\ NoDup (map video_id vs)
    /\ (forall p, p ∈ found
                  <-> exists v, v ∈ vs /\ b64url_encode_path p = Some (video_id v))
    /\ (forall v, v ∈ vs -> video_thumbnail v = thumb_url (video_id v))
    /\ (tool_runs (trace w') <= tool_runs (trace w) + length found)%nat.
Proof.
  intros found Hall.
  destruct (collect_videos_spec found w Hall) as (vs0 & w' & E & Hvs & Hruns).
  destruct (unique_by_id_spec vs0 ∅) as (H1 & H2 & H3).
  exists (unique_by_id ∅ vs0), w'. split; [|split; [exact H1|split; [|split]]].
  - unfold list_videos. fold found. run_m. by rewrite E.
  - intros p. split.
    + intros (i & Hi)%list_elem_of_lookup.
      destruct (Forall2_lookup_l _ _ _ _ _ Hvs Hi) as (v0 & Hv0 & Henc & _).
      destruct (H3 v0) as [Hs|Hr]; [by eapply list_elem_of_lookup_2| |].
      * by apply elem_of_empty in Hs.
      * apply list_elem_of_fmap in Hr as (v & Ev & Hv).
        exists v. split; [exact Hv|]. by rewrite <- Ev.
    + intros (v & Hv & Henc).
      destruct (H2 v Hv) as [(i & Hi)%list_elem_of_lookup _].
      destruct (Forall2_lookup_r _ _ _ _ _ Hvs Hi) as (p' & Hp' & Henc' & _).
      rewrite (encode_path_inj_aux p p' _ Henc Henc').
      by eapply list_elem_of_lookup_2.
  - intros v Hv. destruct (H2 v Hv) as [(i & Hi)%list_elem_of_lookup _].
    by destruct (Forall2_lookup_r _ _ _ _ _ Hvs Hi) as (p' & _ & _ & _ & ?).
  - exact Hruns.
Qed.

(** X23. One file found whose name has no UTF-8 form (a surrogate in it)
    makes the whole listing raise: the identifier is computed outside the
    [try] that guards the thumbnail. *)
Theorem list_videos_unencodable search_paths w :
  Exists (fun p => ~ Forall scalar_value p) (flat_map iter_mp4_files search_paths) ->
  exists w', list_videos search_paths w = (Raised (lit "UnicodeEncodeError"), w').
Proof.
  intros Hex. unfold list_videos. run_m.
  destruct (collect_videos_raises _ w Hex) as [w' E]. rewrite E. by exists w'.
Qed.

End Listing.

Lemma iter_mp4_files_spec_witness :
  lit "/videos/B.MP4" ∈ iter_mp4_files (H0 := sample_host) (lit "/videos").
Proof.
  apply (iter_mp4_files_spec (H0 := sample_host)). split; [reflexivity|].
  exists (lit "/videos", [lit "a.mp4"; lit "notes.txt"; lit "B.MP4"]), (lit "B.MP4").
  split; [by left|]. split; [cbn; by do 2 right; left|]. split; [reflexivity|].
  exists (lit "B"), 77, 80. auto.
Defined.

Lemma list_videos_entries_witness :
  exists vs w',
    list_videos (H0 := sample_host) [lit "/videos"; lit "/videos"] (mkWorld ∅ [])
    = (Returned vs, w')
    /\ NoDup (map video_id vs)
    /\ (tool_runs (trace w') <= 6)%nat.
Proof.
  destruct (list_videos_entries (H0 := sample_host) [lit "/videos"; lit "/videos"]
              (mkWorld ∅ [])) as (vs & w' & E & Hnd & _ & _ & Hruns).
  - match goal with
    | |- Forall _ ?l =>
        let l' := eval vm_compute in l in
        replace l with l' by (vm_compute; reflexivity)
    end.
    repeat first [apply Forall_nil_2 | apply Forall_cons_2];
      unfold scalar_value; lia.
  - exists vs, w'. split; [exact E|]. split; [exact Hnd|]. exact Hruns.
Defined.

Lemma list_videos_unencodable_witness :
  exists w',
    list_videos (H0 := failing_host) [lit "/videos"] (mkWorld ∅ [])
    = (Raised (lit "UnicodeEncodeError"), w').
Proof.
  apply (list_videos_unencodable (H0 := failing_host)).
  apply Exists_cons_tl, Exists_cons_hd.
  intros Hall.
  match type of Hall with
  | Forall _ ?l =>
      let l' := eval vm_compute in l in
      replace l with l' in Hall by (vm_compute; reflexivity)
  end.
  do 8 (apply Forall_cons in Hall as [_ Hall]).
  apply Forall_cons in Hall as [[Hc|[Hc _]] _]; lia.
Defined.

(** ** The search paths *)

Lemma list_remove_spec p l :
  match list_remove p l with
  | Some l' => exists a b, l = a ++ p :: b /\ l' = a ++ b /\ p ∉ a
  | None => p ∉ l
  end.
Proof.
  induction l as [|x l IH]; cbn [list_remove].
  - apply not_elem_of_nil.
  - case_bool_decide as Hx.
    + subst x. exists [], l. repeat split. apply not_elem_of_nil.
    + destruct (list_remove p l) as [l'|]; cbn.
      * destruct IH as (a & b & -> & -> & Hn). exists (x :: a), b.
        repeat split. by intros [->|?]%elem_of_cons.
      * by intros [->|?]%elem_of_cons.
Qed.

Section SearchPathFacts.
Context `{Host}.

Lemma normalize_paths_spec paths : forall seen,
  NoDup (normalize_paths seen paths)
  /\ (forall q, q ∈ normalize_paths seen paths
               <-> (q ∉ seen) /\ exists p, p ∈ paths /\ q = default p (path_resolve p)).
Proof.
  induction paths as [|p paths IH]; intros seen; cbn [normalize_paths].
  - split; [constructor|]. intros q. split; [by intros ?%elem_of_nil|].
    by intros (_ & p & ?%elem_of_nil & _).
  - cbn zeta. case_bool_decide as Hseen.
    + destruct (IH seen) as [H1 H2]. split; [exact H1|]. intros q. rewrite H2.
      split.
      * intros (Hq & p' & Hp' & ->). split; [done|]. exists p'. split; [by right|done].
      * intros (Hq & p' & [->|Hp']%elem_of_cons & ->); [done|].
        split; [done|]. by exists p'.
    + destruct (IH ({[default p (path_resolve p)]} ∪ seen)) as [H1 H2].
      split.
      * constructor; [|exact H1]. intros Hq. apply H2 in Hq as [Hn _]. apply Hn.
        apply elem_of_union. left. by apply elem_of_singleton.
      * intros q. rewrite elem_of_cons, H2. split.
        -- intros [->|(Hq & p' & Hp' & ->)].
           ++ split; [done|]. exists p. split; [by left|done].
           ++ split; [intros Hs; apply Hq, elem_of_union; by right|].
              exists p'. split; [by right|done].
        -- intros (Hq & p' & [->|Hp']%elem_of_cons & ->); [by left|].
           destruct (decide (default p' (path_resolve p') = default p (path_resolve p)))
             as [E|Hne]; [by left|right].
           split; [|by exists p'].
           intros [Hs%elem_of_singleton|Hs]%elem_of_union; done.
Qed.

Lemma normalize_paths_fixed paths : forall seen,
  NoDup paths ->
  (forall p, p ∈ paths -> path_resolve p = Some p /\ p ∉ seen) ->
  normalize_paths seen paths = paths.
Proof.
  induction paths as [|p paths IH]; intros seen Hnd Hfix; [reflexivity|].
  apply NoDup_cons in Hnd as [Hp Hnd]. cbn [normalize_paths].
  destruct (Hfix p ltac:(by left)) as [-> Hs]. cbn [default].
  rewrite (bool_decide_false _ Hs). f_equal. apply IH; [exact Hnd|].
  intros q Hq. destruct (Hfix q ltac:(by right)) as [? ?]. split; [done|].
  intros [->%elem_of_singleton|?]%elem_of_union; done.
Qed.

(** X24. Read from a document, the search paths are the resolved paths of
    the document (a path that cannot be resolved as it is written), each
    once; without a readable document they stay as they were. *)
Theorem load_search_paths_spec reg :
  let reg' := load_search_paths reg in
  config reg' = config reg
  /\ (forall paths, config reg = Document paths ->
      NoDup (SEARCH_PATHS reg')
      /\ forall q, q ∈ SEARCH_PATHS reg'
                   <-> exists p, p ∈ paths /\ q = default p (path_resolve p))
  /\ (config reg = NoFile \/ config reg = Unreadable -> reg' = reg).
Proof.
  unfold load_search_paths. destruct (config reg) as [| |paths] eqn:E.
  - cbn zeta. rewrite E. split; [done|]. split; [by intros ? [=]|done].
  - cbn zeta. rewrite E. split; [done|]. split; [by intros ? [=]|done].
  - cbn zeta. cbn [config SEARCH_PATHS]. split; [done|]. split.
    + intros ? [= <-]. destruct (normalize_paths_spec paths ∅) as [H1 H2].
      split; [exact H1|]. intros q. rewrite H2. split.
      * by intros [_ ?].
      * intros ?. split; [apply not_elem_of_empty|done].
    + by intros [? | ?].
Qed.

(** X25. Adding a path leaves the list without repetition if it was so,
    with the resolved path in it and every earlier path still there in
    its place; adding it again changes nothing and gives the same
    answer. *)
Theorem add_path_spec path p reg :
  path <> [] ->
  path_resolve path = Some p ->
  let r := add_path (Some path) reg in
  r.1 = Returned (ReplyPaths (SEARCH_PATHS r.2))
  /\ p ∈ SEARCH_PATHS r.2
  /\ SEARCH_PATHS r.2
     = (if bool_decide (p ∈ SEARCH_PATHS reg) then SEARCH_PATHS reg
        else SEARCH_PATHS reg ++ [p])
  /\ (NoDup (SEARCH_PATHS reg) -> NoDup (SEARCH_PATHS r.2))
  /\ add_path (Some path) r.2 = r.
Proof.
  intros Hne Hp. destruct path as [|c path']; [done|].
  assert (Hsave : forall l cfg,
             SEARCH_PATHS (save_search_paths (mkRegistry l cfg)) = l).
  { intros l cfg. unfold save_search_paths. by destruct (config_write_ok _). }
  assert (Hadd : forall reg0, add_path (Some (c :: path')) reg0
            = (Returned (ReplyPaths (SEARCH_PATHS
                 (if bool_decide (p ∈ SEARCH_PATHS reg0) then reg0
                  else save_search_paths
                         (mkRegistry (SEARCH_PATHS reg0 ++ [p]) (config reg0))))),
               if bool_decide (p ∈ SEARCH_PATHS reg0) then reg0
               else save_search_paths
                      (mkRegistry (SEARCH_PATHS reg0 ++ [p]) (config reg0)))).
  { intros reg0. unfold add_path. by rewrite Hp. }
  intros r. unfold r. rewrite Hadd. cbn [fst snd].
  case_bool_decide as Hin.
  - repeat split; try done. rewrite Hadd. by rewrite (bool_decide_true _ Hin).
  - set (reg1 := save_search_paths _).
    assert (E1 : SEARCH_PATHS reg1 = SEARCH_PATHS reg ++ [p]) by apply Hsave.
    assert (Hin1 : p ∈ SEARCH_PATHS reg1).
    { rewrite E1. apply elem_of_app. right. by left. }
    split; [done|]. split; [exact Hin1|]. split; [exact E1|]. split.
    + intros Hnd. rewrite E1. apply NoDup_app. split; [exact Hnd|].
      split; [|apply NoDup_singleton].
      intros q Hq ->%list_elem_of_singleton. done.
    + rewrite Hadd. by rewrite (bool_decide_true _ Hin1).
Qed.

(** X26. Removing a path takes out its first occurrence and nothing else;
    in a list without repetition the path is gone afterwards and the
    list is still without repetition; removing a path that is not there
    changes nothing, the configuration file included. *)
Theorem remove_path_spec path p reg :
  path <> [] ->
  path_resolve path = Some p ->
  let r := remove_path (Some path) reg in
  r.1 = Returned (ReplyPaths (SEARCH_PATHS r.2))
  /\ (p ∉ SEARCH_PATHS reg -> r.2 = reg)
  /\ (p ∈ SEARCH_PATHS reg ->
      exists a b, SEARCH_PATHS reg = a ++ p :: b
                  /\ SEARCH_PATHS r.2 = a ++ b /\ p ∉ a)
  /\ (NoDup (SEARCH_PATHS reg) ->
      NoDup (SEARCH_PATHS r.2) /\ (p ∉ SEARCH_PATHS r.2)
      /\ forall q, q <> p -> (q ∈ SEARCH_PATHS r.2 <-> q ∈ SEARCH_PATHS reg)).
Proof.
  intros Hne Hp. destruct path as [|c path']; [done|].
  assert (Hsave : forall l cfg,
             SEARCH_PATHS (save_search_paths (mkRegistry l cfg)) = l).
  { intros l cfg. unfold save_search_paths. by destruct (config_write_ok _). }
  intros r. unfold r, remove_path. rewrite Hp. cbn [fst snd].
  pose proof (list_remove_spec p (SEARCH_PATHS reg)) as Hrm.
  destruct (list_remove p (SEARCH_PATHS reg)) as [l|].
  - destruct Hrm as (a & b & E & -> & Ha). rewrite Hsave.
    split; [done|]. split; [|split].
    + intros Hn. destruct Hn. rewrite E. apply elem_of_app. right. by left.
    + intros _. by exists a, b.
    + rewrite E. intros Hnd. apply NoDup_app in Hnd as (Hnda & Hab & Hndb).
      apply NoDup_cons in Hndb as [Hpb Hndb]. split; [|split].
      * apply NoDup_app. split; [exact Hnda|]. split; [|exact Hndb].
        intros q Hq Hqb. apply (Hab q Hq). by right.
      * intros [?|?]%elem_of_app; done.
      * intros q Hq. rewrite !elem_of_app, elem_of_cons. tauto.
  - split; [done|]. split; [done|]. split; [done|].
    intros Hnd. split; [exact Hnd|]. split; [exact Hrm|]. done.
Qed.

(** X27. What is added and then removed leaves the list as it was, when
    the path was not in it before. *)
Theorem add_then_remove path p reg :
  path <> [] ->
  path_resolve path = Some p ->
  p ∉ SEARCH_PATHS reg ->
  SEARCH_PATHS (remove_path (Some path) (add_path (Some path) reg).2).2
  = SEARCH_PATHS reg.
Proof.
  intros Hne Hp Hn. destruct path as [|c path']; [done|].
  assert (Hsave : forall l cfg,
             SEARCH_PATHS (save_search_paths (mkRegistry l cfg)) = l).
  { intros l cfg. unfold save_search_paths. by destruct (config_write_ok _). }
  unfold add_path, remove_path. rewrite Hp. cbn [fst snd].
  rewrite (bool_decide_false _ Hn), Hsave.
  pose proof (list_remove_spec p (SEARCH_PATHS reg ++ [p])) as Hrm.
  destruct (list_remove p (SEARCH_PATHS reg ++ [p])) as [l|].
  - rewrite Hsave. destruct Hrm as (a & b & E & -> & Ha).
    assert (Hb : b = [] /\ a = SEARCH_PATHS reg).
    { destruct b as [|x b] using rev_ind.
      - apply app_inj_tail in E as [? _]. by split.
      - clear IHb. rewrite app_comm_cons, app_assoc in E.
        apply app_inj_tail in E as [E ->]. destruct Hn. rewrite E.
        apply elem_of_app. right. by left. }
    destruct Hb as [-> ->]. by rewrite app_nil_r.
  - destruct Hrm. apply elem_of_app. right. by left.
Qed.

(** X28. What is saved is what is loaded again: after a write that goes
    through, the configuration file holds the list, and loading it gives
    the list back when the list has no repetition and each of its paths
    resolves to itself.  After a write that fails the file is as
    before. *)
Theorem save_then_load reg :
  let saved := save_search_paths reg in
  SEARCH_PATHS saved = SEARCH_PATHS reg
  /\ (config_write_ok (SEARCH_PATHS reg) = false -> config saved = config reg)
  /\ (config_write_ok (SEARCH_PATHS reg) = true ->
      config saved = Document (SEARCH_PATHS reg)
      /\ (NoDup (SEARCH_PATHS reg) ->
          (forall p, p ∈ SEARCH_PATHS reg -> path_resolve p = Some p) ->
          load_search_paths saved = saved)).
Proof.
  unfold save_search_paths. destruct (config_write_ok _) eqn:Eok; cbn zeta.
  - split; [done|]. split; [done|]. intros _. split; [done|].
    intros Hnd Hfix. unfold load_search_paths. cbn [config SEARCH_PATHS].
    rewrite normalize_paths_fixed; [done|exact Hnd|].
    intros p Hp. split; [by apply Hfix|apply not_elem_of_empty].
  - split; [done|]. split; [done|]. discriminate.
Qed.

End SearchPathFacts.

Lemma add_path_spec_witness :
  let reg := mkRegistry [lit "/y"] NoFile in
  let r := add_path (H0 := sample_host) (Some (lit "/x")) reg in
  r = (Returned (ReplyPaths [lit "/y"; lit "/x"]),
       mkRegistry [lit "/y"; lit "/x"] (Document [lit "/y"; lit "/x"]))
  /\ add_path (H0 := sample_host) (Some (lit "/x")) r.2 = r.
Proof.
  intros reg r. split; [reflexivity|].
  apply (add_path_spec (H0 := sample_host) (lit "/x") (lit "/x") reg);
    [discriminate|reflexivity].
Defined.

Lemma remove_path_spec_witness :
  let reg := mkRegistry [lit "/y"; lit "/z"] NoFile in
  let r := remove_path (H0 := sample_host) (Some (lit "/y")) reg in
  NoDup (SEARCH_PATHS r.2) /\ (lit "/y" ∉ SEARCH_PATHS r.2).
Proof.
  intros reg r.
  destruct (remove_path_spec (H0 := sample_host) (lit "/y") (lit "/y") reg)
    as (_ & _ & _ & Hnd); [discriminate|reflexivity|].
  destruct Hnd as (H1 & H2 & _).
  - repeat constructor; by intros ?%list_elem_of_In; cbn in *; intuition discriminate.
  - split; [exact H1|exact H2].
Defined.

Lemma add_then_remove_witness :
  let reg := mkRegistry [lit "/y"; lit "/z"] (Document [lit "/y"]) in
  SEARCH_PATHS (remove_path (H0 := sample_host) (Some (lit "/x"))
                  (add_path (H0 := sample_host) (Some (lit "/x")) reg).2).2
  = [lit "/y"; lit "/z"].
Proof.
  intros reg.
  apply (add_then_remove (H0 := sample_host) (lit "/x") (lit "/x") reg).
  - discriminate.
  - reflexivity.
  - cbn. intros Hin. apply list_elem_of_In in Hin. cbn in Hin. intuition discriminate.
Defined.

(** ** Durations as text, and the name of the stored file *)

Lemma fmt_02d_two_digits z :
  (0 <= z < 100)%Z ->
  length (fmt_02d z) = 2%nat /\ py_int (fmt_02d z) = Some z.
Proof.
  intros Hz.
  assert (Hall : forallb (fun n => (length (fmt_02d (Z.of_nat n)) =? 2)%nat
                                   && bool_decide (py_int (fmt_02d (Z.of_nat n))
                                                   = Some (Z.of_nat n)))
                   (seq 0 100) = true) by (vm_compute; reflexivity).
  rewrite forallb_forall in Hall.
  specialize (Hall (Z.to_nat z)). rewrite Z2Nat.id in Hall by lia.
  destruct (andb_prop _ _ (Hall ltac:(apply in_seq; lia))) as [H1 H2].
  split; [by apply Nat.eqb_eq|by apply bool_decide_eq_true in H2].
Qed.

Section Clock.
Context `{Env}.

(** X29. A duration that rounds to [r] seconds is written as a clock that
    reads back: below an hour as [MM:SS], two digits each, with [MM] the
    minutes and [SS] the seconds of [r]; from one hour up to a hundred as
    [HH:MM:SS] in the same way. *)
Theorem human_readable_duration_clock x :
  let r := int_round x in
  ((0 <= r < 3600)%Z ->
   exists mm ss,
     human_readable_duration (Some x) = mm ++ lit ":" ++ ss
     /\ length mm = 2%nat /\ length ss = 2%nat
     /\ py_int mm = Some (r / 60)%Z /\ py_int ss = Some (r mod 60)%Z)
  /\ ((3600 <= r < 360000)%Z ->
      exists hh mm ss,
        human_readable_duration (Some x) = hh ++ lit ":" ++ mm ++ lit ":" ++ ss
        /\ length hh = 2%nat /\ length mm = 2%nat /\ length ss = 2%nat
        /\ py_int hh = Some (r / 3600)%Z
        /\ py_int mm = Some ((r mod 3600) / 60)%Z
        /\ py_int ss = Some (r mod 60)%Z).
Proof.
  intros r. unfold human_readable_duration. fold r. cbn zeta. split; intros Hr.
  - assert (E : (0 <? r / 3600)%Z = false) by lia. rewrite E.
    destruct (fmt_02d_two_digits ((r mod 3600) / 60) ltac:(lia)) as [H1 H2].
    destruct (fmt_02d_two_digits (r mod 60) ltac:(lia)) as [H3 H4].
    exists (fmt_02d ((r mod 3600) / 60)), (fmt_02d (r mod 60)).
    split; [reflexivity|]. split; [exact H1|]. split; [exact H3|].
    split; [|exact H4]. rewrite H2. f_equal. lia.
  - assert (E : (0 <? r / 3600)%Z = true) by lia. rewrite E.
    destruct (fmt_02d_two_digits (r / 3600) ltac:(lia)) as [H1 H2].
    destruct (fmt_02d_two_digits ((r mod 3600) / 60) ltac:(lia)) as [H3 H4].
    destruct (fmt_02d_two_digits (r mod 60) ltac:(lia)) as [H5 H6].
    eexists _, _, _. split; [reflexivity|]. auto 10.
Qed.

End Clock.

Lemma human_readable_duration_clock_witness :
  human_readable_duration (H := sample_env) (Some 754%Z) = lit "12:34"
  /\ human_readable_duration (H := sample_env) (Some 3661%Z) = lit "01:01:01".
Proof.
  split.
  - destruct (proj1 (human_readable_duration_clock (H := sample_env) 754%Z))
      as (mm & ss & E & _); [cbn; lia|]. reflexivity.
  - destruct (proj2 (human_readable_duration_clock (H := sample_env) 3661%Z))
      as (hh & mm & ss & E & _); [cbn; lia|]. reflexivity.
Defined.

Lemma split_on_app sep a b :
  split_on sep (a ++ sep :: b) = split_on sep a ++ split_on sep b.
Proof.
  induction a as [|c a IH]; cbn [app split_on].
  - by rewrite N.eqb_refl.
  - destruct (c =? sep); [by rewrite IH|].
    rewrite IH. pose proof (split_on_nonempty sep a).
    by destruct (split_on sep a).
Qed.

Lemma path_name_of_file dir name :
  name <> [] -> name <> [46] -> Forall (fun c => c <> 47) name ->
  path_name (dir ++ 47 :: name) = name.
Proof.
  intros Hne Hdot Hname. unfold path_name.
  rewrite split_on_app, (split_on_none 47 name Hname), List.filter_app.
  cbn [List.filter].
  rewrite (bool_decide_false (name = [])), (bool_decide_false (name = [46])) by done.
  cbn [orb negb]. apply last_last.
Qed.

Lemma rfind_dot_last base ext :
  Forall (fun c => c <> 46) ext ->
  rfind_dot (base ++ 46 :: ext) = Some (length base).
Proof.
  intros Hext.
  assert (Hnone : rfind_dot ext = None).
  { induction Hext as [|c ext Hc _ IH]; [reflexivity|].
    cbn [rfind_dot]. rewrite IH. apply N.eqb_neq in Hc. by rewrite Hc. }
  induction base as [|c base IH]; cbn [app rfind_dot length].
  - by rewrite Hnone.
  - by rewrite IH.
Qed.

Section StoredName.
Context `{Env}.

(** X30. The stored file is named after the video's file name alone: for
    a video [dir/base.ext] the output is [DOWNLOADS_DIR / base_{sign}{n}.mp4]
    whatever [dir] and [ext] are, so two videos of the same name in
    different directories are stored to the same file. *)
Theorem store_path_by_file_name dir base ext s :
  base <> [] -> ext <> [] ->
  Forall (fun c => c <> 47) base ->
  Forall (fun c => c <> 47 /\ c <> 46) ext ->
  store_path (dir ++ lit "/" ++ base ++ lit "." ++ ext) s
  = joinpath DOWNLOADS_DIR (base ++ lit "_" ++ signed_suffix s ++ lit ".mp4").
Proof.
  intros Hb He Hbase Hext. unfold store_path. f_equal. f_equal.
  unfold path_stem.
  change (lit "/" ++ ?x) with (47 :: x). change (lit "." ++ ext) with (46 :: ext).
  assert (Hname : path_name (dir ++ 47 :: base ++ 46 :: ext) = base ++ 46 :: ext).
  { apply path_name_of_file.
    - by destruct base.
    - destruct base as [|c [|c' base']]; [done| |by intros [=]].
      destruct ext; [done|by intros [=]].
    - apply Forall_app. split; [exact Hbase|].
      constructor; [done|]. eapply Forall_impl; [exact Hext|]. by intros c [? _]. }
  rewrite Hname, rfind_dot_last.
  2:{ eapply Forall_impl; [exact Hext|]. by intros c [_ ?]. }
  set (name := base ++ 46 :: ext).
  assert (Hlen : ((0 <? length base)%nat
                  && (length base <? length name - 1)%nat) = true).
  { unfold name. rewrite length_app. cbn [length].
    apply andb_true_iff. split; apply Nat.ltb_lt.
    - destruct base; [done|cbn; lia].
    - destruct ext; [done|cbn [length]; lia]. }
  rewrite Hlen. unfold name. by rewrite take_app_length.
Qed.

End StoredName.

Lemma store_path_by_file_name_witness :
  store_path (H := sample_env) (lit "/videos" ++ lit "/" ++ lit "clip.v2" ++ lit "." ++ lit "mkv") (-3)
  = lit "/home/u/Downloads/clip.v2_-3.mp4"
  /\ store_path (H := sample_env) (lit "/other/dir" ++ lit "/" ++ lit "clip.v2" ++ lit "." ++ lit "mp4") (-3)
     = lit "/home/u/Downloads/clip.v2_-3.mp4".
Proof.
  split.
  - rewrite (store_path_by_file_name (H := sample_env) (lit "/videos") (lit "clip.v2")
               (lit "mkv") (-3)); [reflexivity|discriminate|discriminate| |];
      repeat constructor; discriminate.
  - rewrite (store_path_by_file_name (H := sample_env) (lit "/other/dir") (lit "clip.v2")
               (lit "mp4") (-3)); [reflexivity|discriminate|discriminate| |];
      repeat constructor; discriminate.
Defined.
